(** * miniECS: the entity / component / system engine

    A shallow embedding of [miniECS.js] (classes [EntityManager], [Entity],
    [System] and the component factory [compute]) and of the components
    [transform], [physics] and [render] of [components.js], together with
    the properties of the engine that its specification states and
    further ones that the code shows.

    The program is JavaScript, so the embedding is a small store model:
    - a [value] is a primitive or a reference into the [heap];
    - a heap cell is an ordinary object (an ordered list of own properties
      and an optional prototype) or an array;
    - every method is a computation in the monad [M], which threads the heap
      and may throw.

    Boundaries of the model, kept throughout:
    - numbers are integers (no NaN, no fractions), function values are not
      values, every own property is enumerable and writable;
    - the members of [Object.prototype] are known by their names
      ([Object_prototype]): [key in o] finds them in every object, and
      [o.hasOwnProperty(k)] is a call of the member, which a field of
      that name hides, so that the call throws; read as values the
      members are [undefined], as are the methods of the classes and of
      [Array.prototype], which the tests of the program ([typeof] against
      ["object"], spread) do not tell from a function;
    - the key [__proto__], which reads and sets the prototype, is not
      covered: an assignment to it, [Object.assign] of a field of that
      name, and reading it from an object that owns no such field; and
      neither is an array as the receiver of [in] or of an assignment to
      a key;
    - the own properties of an object are listed in creation order, and
      enumerated as the host enumerates them ([enumeration]): the keys
      that are array indices first, in ascending order, then the other
      keys, in creation order;
    - a state the model does not cover ends in [Throw Unmodelled]. *)

From Stdlib Require Import ZArith String Ascii DecimalString.
From stdpp Require Import base option list strings numbers sorting.

Local Open Scope string_scope.
Local Open Scope Z_scope.
Local Open Scope list_scope.

(** ** Values and the heap *)

Abbreviation loc := nat (only parsing).

Inductive value :=
| VUndefined
| VNull
| VBool (b : bool)
| VNum (n : Z)
| VStr (s : string)
| VRef (l : loc).

Global Instance value_eq_dec : EqDecision value.
Proof. solve_decision. Defined.

Abbreviation props := (list (string * value)) (only parsing).

Inductive cell :=
| CObject (proto : option loc) (ps : props)
| CArray (xs : list value).

Abbreviation heap := (list cell) (only parsing).

Inductive exn := TypeError | OutOfFuel | Unmodelled.

Inductive outcome (A : Type) :=
| Ret (a : A)
| Throw (e : exn).
Arguments Ret {A} a.
Arguments Throw {A} e.

Global Instance exn_eq_dec : EqDecision exn.
Proof. solve_decision. Defined.

Global Instance outcome_eq_dec {A} `{EqDecision A} : EqDecision (outcome A).
Proof. solve_decision. Defined.

(** ** The monad of methods: heap passing with exceptions *)

Definition M (A : Type) : Type := heap -> outcome (A * heap).

Definition ret {A} (a : A) : M A := fun h => Ret (a, h).

Definition throw {A} (e : exn) : M A := fun _ => Throw e.

Definition bind {A B} (c : M A) (k : A -> M B) : M B :=
  fun h => match c h with
           | Ret (a, h') => k a h'
           | Throw e => Throw e
           end.

Notation "'let!' x := c 'in' k" := (bind c (fun x => k))
  (at level 10, x name, c at level 100, k at level 200).
Notation "c ;; k" := (bind c (fun _ => k))
  (at level 100, k at level 200, right associativity).

(** [lift f] runs a computation that only reads the heap. *)
Definition lift {A} (f : heap -> outcome A) : M A :=
  fun h => match f h with
           | Ret a => Ret (a, h)
           | Throw e => Throw e
           end.

Fixpoint forM {A} (xs : list A) (body : A -> M unit) : M unit :=
  match xs with
  | [] => ret tt
  | x :: xs' => body x ;; forM xs' body
  end.

(** ** Own properties *)

Fixpoint assoc (k : string) (ps : props) : option value :=
  match ps with
  | [] => None
  | (k', v) :: ps' => if decide (k = k') then Some v else assoc k ps'
  end.

(** [obj[k] = v] on the own properties: an existing key keeps its place,
    a new one goes last. *)
Fixpoint set_prop (k : string) (v : value) (ps : props) : props :=
  match ps with
  | [] => [(k, v)]
  | (k', v') :: ps' =>
      if decide (k = k') then (k, v) :: ps' else (k', v') :: set_prop k v ps'
  end.

Definition keys (ps : props) : list string := ps.*1.

(** Copying the properties of [src] onto [dst], one assignment each, as
    [Object.assign] and the spread of an object literal do. *)
Definition overlay (dst src : props) : props :=
  fold_left (fun acc kv => set_prop kv.1 kv.2 acc) src dst.

(** The decimal name of an array index. *)
Definition index_name (i : nat) : string :=
  NilZero.string_of_uint (Nat.to_uint i).

Fixpoint index_props_from (i : nat) (xs : list value) : props :=
  match xs with
  | [] => []
  | x :: xs' => (index_name i, x) :: index_props_from (S i) xs'
  end.

Definition index_props (xs : list value) : props := index_props_from 0 xs.

Definition chars (s : string) : list value :=
  (fun c => VStr (String c EmptyString)) <$> list_ascii_of_string s.

(** The own enumerable properties of a value, as [Object.assign], spread
    and [for-in] see them: those of an object, the elements of an array
    under their indices, the characters of a string; nothing for the other
    primitives. *)
Definition own_enumerable (h : heap) (v : value) : props :=
  match v with
  | VRef l =>
      match h !! l with
      | Some (CObject _ ps) => ps
      | Some (CArray xs) => index_props xs
      | None => []
      end
  | VStr s => index_props (chars s)
  | _ => []
  end.

(** *** The order of enumeration

    The host lists the keys of an object that are array indices first, in
    ascending order, and the other keys after them, in the order of their
    creation, which is the order of the list of properties. *)

(** The array index that [k] is the canonical decimal name of. *)
Definition array_index (k : string) : option N :=
  match NilZero.uint_of_string k with
  | Some u =>
      let n := N.of_uint u in
      if decide (NilZero.string_of_uint (N.to_uint n) = k
                 /\ (n < 4294967295)%N)
      then Some n
      else None
  | None => None
  end.

Definition enumeration (ks : list string) : list string :=
  ((fun n => NilZero.string_of_uint (N.to_uint n))
     <$> merge_sort N.le (omap array_index ks))
  ++ filter (fun k => array_index k = None) ks.

(** ** Language primitives *)

(** The names of the members of [Object.prototype], which every object of
    the program inherits. None of them is enumerable. All but [__proto__]
    are methods. *)
Definition Object_prototype : list string :=
  ["constructor"; "__defineGetter__"; "__defineSetter__"; "hasOwnProperty";
   "__lookupGetter__"; "__lookupSetter__"; "isPrototypeOf";
   "propertyIsEnumerable"; "toString"; "valueOf"; "__proto__";
   "toLocaleString"].

Definition typeof (v : value) : string :=
  match v with
  | VUndefined => "undefined"
  | VNull => "object"
  | VBool _ => "boolean"
  | VNum _ => "number"
  | VStr _ => "string"
  | VRef _ => "object"
  end.

Definition ToBoolean (v : value) : bool :=
  match v with
  | VUndefined | VNull => false
  | VBool b => b
  | VNum n => negb (n =? 0)
  | VStr s => negb (String.eqb s "")
  | VRef _ => true
  end.

(** The own properties met when walking up from [l] through the
    prototypes; [fuel] bounds the walk. *)
Fixpoint chain (fuel : nat) (h : heap) (l : loc) : list props :=
  match h !! l with
  | Some (CObject proto ps) =>
      ps :: match fuel, proto with
            | S fuel', Some p => chain fuel' h p
            | _, _ => []
            end
  | Some (CArray xs) => [index_props xs]
  | None => []
  end.

Definition properties_along (h : heap) (v : value) : list props :=
  match v with
  | VRef l => chain (length h) h l
  | VStr s => [index_props (chars s)]
  | _ => []
  end.

Fixpoint find_prop (k : string) (pss : list props) : option value :=
  match pss with
  | [] => None
  | ps :: pss' =>
      match assoc k ps with
      | Some v => Some v
      | None => find_prop k pss'
      end
  end.

(** The [length] that a string or an array owns without enumerating
    it. *)
Definition own_length (h : heap) (o : value) : option Z :=
  match o with
  | VStr s => Some (Z.of_nat (String.length s))
  | VRef l =>
      match h !! l with
      | Some (CArray xs) => Some (Z.of_nat (length xs))
      | _ => None
      end
  | _ => None
  end.

(** [o[k]]. A key that the cells of the model do not hold may still name
    a member of a built-in prototype or a method of the class. Under
    [__proto__] that is the prototype object, which the model does not
    have: not covered. Every other such member is a function, which the
    model reads as [undefined]: the program only takes the [typeof] of
    such a value, to compare it with ["object"], or spreads it, and a
    function has no enumerable field, so either way the outcome is that
    of [undefined]. *)
Definition Get (h : heap) (o : value) (k : string) : outcome value :=
  match o with
  | VUndefined | VNull => Throw TypeError
  | _ =>
      match find_prop k (properties_along h o) with
      | Some v => Ret v
      | None =>
          if decide (k = "__proto__") then Throw Unmodelled
          else if decide (k = "length") then
            Ret (from_option VNum VUndefined (own_length h o))
          else Ret VUndefined
      end
  end.

(** [k in o], for an object: its own fields, those of its prototypes and
    the members of [Object.prototype]. An array, which has the members of
    [Array.prototype] too, is not covered. *)
Definition HasProperty (h : heap) (o : value) (k : string) : outcome bool :=
  match o with
  | VRef l =>
      match h !! l with
      | Some (CArray _) => Throw Unmodelled
      | _ =>
          Ret (bool_decide (is_Some (find_prop k (properties_along h o)))
               || bool_decide (k ∈ Object_prototype))
      end
  | _ => Throw TypeError
  end.

(** [Object.prototype.hasOwnProperty], the built-in method, applied to
    [o] and [k]. *)
Definition Object_prototype_hasOwnProperty (h : heap) (o : value)
    (k : string) : bool :=
  bool_decide (is_Some (assoc k (own_enumerable h o)))
  || (bool_decide (k = "length") && bool_decide (is_Some (own_length h o))).

(** [o.hasOwnProperty(k)], a method call: the method is looked up in [o],
    where a field named [hasOwnProperty], own or inherited from an object
    of the model, hides the built-in one; its value is no function, and
    the call throws. *)
Definition hasOwnProperty (o : value) (k : string) : M bool :=
  fun h =>
    match o with
    | VUndefined | VNull => Throw TypeError
    | _ =>
        match find_prop "hasOwnProperty" (properties_along h o) with
        | Some _ => Throw TypeError
        | None => Ret (Object_prototype_hasOwnProperty h o k, h)
        end
    end.

(** [Object.getOwnPropertyNames(o)] *)
Definition getOwnPropertyNames (h : heap) (o : value)
  : outcome (list string) :=
  match o with
  | VUndefined | VNull => Throw TypeError
  | VRef l =>
      match h !! l with
      | Some (CArray xs) => Ret (keys (index_props xs) ++ ["length"])
      | _ => Ret (keys (own_enumerable h o))
      end
  | VStr s => Ret (keys (index_props (chars s)) ++ ["length"])
  | _ => Ret []
  end.

Fixpoint first_seen (seen ks : list string) : list string :=
  match ks with
  | [] => []
  | k :: ks' =>
      if decide (k ∈ seen) then first_seen seen ks'
      else k :: first_seen (k :: seen) ks'
  end.

(** The keys [for (key in o)] visits: own keys first, in the order of
    enumeration, then the inherited ones that are not shadowed. The loop
    runs over this list; what it reads under each key is read when the
    key is reached. *)
Definition for_in_keys (h : heap) (o : value) : list string :=
  first_seen []
    (concat ((fun ps => enumeration (keys ps)) <$> properties_along h o)).

Definition get (o : value) (k : string) : M value :=
  lift (fun h => Get h o k).

Definition alloc (c : cell) : M value :=
  fun h => Ret (VRef (length h), h ++ [c]).

(** [o[k] = v], in strict code, where assigning to a primitive throws.
    An array as receiver is not covered, and neither is the key
    [__proto__], which sets the prototype of [o]. *)
Definition put (o : value) (k : string) (v : value) : M unit :=
  fun h =>
    match o with
    | VRef l =>
        match h !! l with
        | Some (CObject proto ps) =>
            if decide (k = "__proto__") then Throw Unmodelled
            else Ret (tt, <[l := CObject proto (set_prop k v ps)]> h)
        | _ => Throw Unmodelled
        end
    | _ => Throw TypeError
    end.

(** [{ ...a, ...b }], which defines the fields it copies. The fields are
    copied in list order; the host copies array indices first, which
    shows in no enumeration, as every enumeration puts them first. *)
Definition spread_new2 (a b : value) : M value :=
  fun h =>
    alloc (CObject None
             (overlay (overlay [] (own_enumerable h a)) (own_enumerable h b)))
          h.

(** [Object.assign({}, a, b)], which assigns the fields it copies: a
    field [__proto__] of [a] or [b] would be assigned as [put] assigns
    it, and is not covered. *)
Definition assign_new (a b : value) : M value :=
  fun h =>
    if decide ("__proto__" ∈ keys (own_enumerable h a)
               \/ "__proto__" ∈ keys (own_enumerable h b))
    then Throw Unmodelled
    else spread_new2 a b h.

(** [{ ...a }] *)
Definition spread_new (a : value) : M value :=
  fun h => alloc (CObject None (overlay [] (own_enumerable h a))) h.

(** Array methods need an array as receiver. *)
Definition read_array (a : value) : M (list value) :=
  fun h =>
    match a with
    | VRef l =>
        match h !! l with
        | Some (CArray xs) => Ret (xs, h)
        | _ => Throw TypeError
        end
    | _ => Throw TypeError
    end.

Definition write_array (a : value) (xs : list value) : M unit :=
  fun h =>
    match a with
    | VRef l =>
        match h !! l with
        | Some (CArray _) => Ret (tt, <[l := CArray xs]> h)
        | _ => Throw TypeError
        end
    | _ => Throw TypeError
    end.

(** [a.push(x)] *)
Definition push (a x : value) : M unit :=
  let! xs := read_array a in write_array a (xs ++ [x]).

(** [a.indexOf(x)], [None] for [-1]. *)
Fixpoint indexOf (x : value) (xs : list value) : option nat :=
  match xs with
  | [] => None
  | y :: xs' => if decide (y = x) then Some O else S <$> indexOf x xs'
  end.

(** [a.splice(i, 1)] *)
Definition splice1 (i : nat) (xs : list value) : list value :=
  take i xs ++ drop (S i) xs.

(** [names.includes(prop)] for an array of names. *)
Definition includes (names : list string) (prop : value) : bool :=
  match prop with
  | VStr s => bool_decide (s ∈ names)
  | _ => false
  end.

Fixpoint filterM (f : value -> M bool) (xs : list value) : M (list value) :=
  match xs with
  | [] => ret []
  | x :: xs' =>
      let! keep := f x in
      let! rest := filterM f xs' in
      ret (if keep then x :: rest else rest)
  end.

(** *** Sorting by priority

    [a.sort((a, b) => a.priority - b.priority)] reads a number under
    [priority] in every element; on such an array the comparator is
    consistent, the sort is stable, and every stable sort returns the same
    array: insertion is taken here. An array with an element whose priority
    is not a number is not covered. *)

Definition priority_of (h : heap) (v : value) : outcome Z :=
  match v with
  | VRef _ =>
      match Get h v "priority" with
      | Ret (VNum n) => Ret n
      | _ => Throw Unmodelled
      end
  | _ => Throw Unmodelled
  end.

Fixpoint priorities (h : heap) (xs : list value) : outcome (list Z) :=
  match xs with
  | [] => Ret []
  | x :: xs' =>
      match priority_of h x, priorities h xs' with
      | Ret n, Ret ns => Ret (n :: ns)
      | Throw e, _ => Throw e
      | _, Throw e => Throw e
      end
  end.

Definition comparator (a b : Z * value) : Z := a.1 - b.1.

Fixpoint insert_by (x : Z * value) (l : list (Z * value))
  : list (Z * value) :=
  match l with
  | [] => [x]
  | y :: l' =>
      if decide (comparator x y ≤ 0) then x :: y :: l'
      else y :: insert_by x l'
  end.

Definition sort_by (l : list (Z * value)) : list (Z * value) :=
  foldr insert_by [] l.

Definition sort_by_priority (a : value) : M unit :=
  let! xs := read_array a in
  let! ns := lift (fun h => priorities h xs) in
  write_array a (sort_by (zip ns xs)).*2.

(** ** class EntityManager *)

(** [new EntityManager()] *)
Definition EntityManager_constructor : M value :=
  let! this := alloc (CObject None []) in
  let! entities := alloc (CArray []) in
  put this "entities" entities ;;
  let! systems := alloc (CArray []) in
  put this "systems" systems ;;
  ret this.

(** [registerSystem(system)] *)
Definition EntityManager_registerSystem (this system : value) : M value :=
  put system "entityManager" this ;;
  let! systems := get this "systems" in
  push systems system ;;
  ret system.

(** The callback of [getEntities]: does [entity] own every name of
    [query]? *)
Definition matches (query entity : value) : M bool :=
  let! entityProperties := lift (fun h => getOwnPropertyNames h entity) in
  let! names := read_array query in
  ret (forallb (includes entityProperties) names).

(** [getEntities(query)]; the array that [filter] builds is returned as
    the list of its elements. *)
Definition EntityManager_getEntities (this query : value) : M (list value) :=
  let! entities := get this "entities" in
  let! es := read_array entities in
  filterM (matches query) es.

(** [destroyEntity(entity)]. A string in place of the registry, which has
    an [indexOf] of its own, is not covered. *)
Definition EntityManager_destroyEntity (this entity : value) : M unit :=
  let! entities := get this "entities" in
  match entities with
  | VStr _ => throw Unmodelled
  | _ =>
      let! es := read_array entities in
      match indexOf entity es with
      | Some index =>
          let! entities' := get this "entities" in
          let! es' := read_array entities' in
          write_array entities' (splice1 index es')
      | None => ret tt
      end
  end.

(** [sortEntities()] *)
Definition EntityManager_sortEntities (this : value) : M unit :=
  let! entities := get this "entities" in
  sort_by_priority entities.

(** [a.length = 0]: an array is emptied; on anything else it is an
    ordinary assignment to the key [length]. *)
Definition set_length_0 (a : value) : M unit :=
  fun h =>
    match a with
    | VRef l =>
        match h !! l with
        | Some (CArray _) => write_array a [] h
        | _ => put a "length" (VNum 0) h
        end
    | _ => put a "length" (VNum 0) h
    end.

(** [pause()] *)
Definition EntityManager_pause (this : value) : M unit :=
  let! entities := get this "entities" in
  set_length_0 entities.

(** ** class Entity *)

(** [new Entity(priority)] *)
Definition Entity_constructor (priority : value) : M value :=
  let! this := alloc (CObject None []) in
  put this "entityManager" VNull ;;
  put this "priority" (if ToBoolean priority then priority else VNum 0) ;;
  ret this.

(** The [else] branch of [assign]: the placeholder, then the value, which
    is read again from the component. *)
Definition replace_field (this component : value) (key : string) : M unit :=
  let! own := hasOwnProperty this key in
  (if own : bool then ret tt
   else let! placeholder := alloc (CObject None []) in
        put this key placeholder) ;;
  let! incoming := get component key in
  put this key incoming.

(** The body of the inner loop of [assign], for one [key]. *)
Definition assign_key (this component : value) (key : string) : M unit :=
  let! incoming := get component key in
  if decide (typeof incoming = "object") then
    let! current := get this key in
    if decide (typeof current = "object") then
      let! merged := assign_new current incoming in
      put this key merged
    else replace_field this component key
  else replace_field this component key.

Definition assign_component (this component : value) : M unit :=
  let! ks := lift (fun h => Ret (for_in_keys h component)) in
  forM ks (assign_key this component).

(** [assign(...components)] *)
Definition Entity_assign (this : value) (components : list value) : M value :=
  forM components (assign_component this) ;;
  ret this.

(** [createEntity(priority)] of the manager *)
Definition EntityManager_createEntity (this priority : value) : M value :=
  let! entity := Entity_constructor priority in
  put entity "entityManager" this ;;
  let! entities := get this "entities" in
  push entities entity ;;
  ret entity.

(** ** class System *)

(** [new C(priority, query)] for [System] or a class that extends it
    without a constructor of its own. [proto] is the prototype object of
    the class when it carries data properties (as [MovableSystem.prototype]
    does once a query is stored on it), [None] for a prototype with
    methods only. *)
Definition System_constructor (proto : option loc) (priority query : value)
  : M value :=
  let! this := alloc (CObject proto []) in
  put this "entityManager" VNull ;;
  put this "priority" (if ToBoolean priority then priority else VNum 0) ;;
  let! q := (if ToBoolean query then ret query else alloc (CArray [])) in
  put this "query" q ;;
  ret this.

(** [getEntities()] of a system: a method call on [this.entityManager]. *)
Definition System_getEntities (this : value) : M (list value) :=
  let! entityManager := get this "entityManager" in
  match entityManager with
  | VUndefined | VNull => throw TypeError
  | _ =>
      let! query := get this "query" in
      EntityManager_getEntities entityManager query
  end.

(** [update(delta, time) {}] of the base class. *)
Definition System_update (this delta time : value) : M unit := ret tt.

(** One invocation of a system by the manager, as it is observed. *)
Record call :=
  Call { call_system : value; call_delta : value; call_time : value }.

(** [for (const x of a) body(x)] reads the array again at every step;
    [fuel] bounds the number of steps, since the body may grow the array.
    The results of the body are collected. *)
Fixpoint for_of {A} (fuel : nat) (a : value) (i : nat) (body : value -> M A)
  : M (list A) :=
  let! xs := read_array a in
  match xs !! i with
  | None => ret []
  | Some x =>
      match fuel with
      | O => throw OutOfFuel
      | S fuel' =>
          let! r := body x in
          let! rs := for_of fuel' a (S i) body in
          ret (r :: rs)
      end
  end.

Section Tick.

(** What [system.update(delta, time)] runs: the method of the class of
    the system, [System_update] unless the class overrides it. *)
Variable update_method : value -> value -> value -> M unit.

(** [_update(delta, time)] *)
Definition System__update (this delta time : value) : M unit :=
  match this with
  | VRef _ => update_method this delta time
  | _ => throw TypeError
  end.

(** [update(delta, time)] of the manager, which sorts the registry and
    then ticks every system. The method returns nothing;
    the model returns the invocations it made, in the order it made
    them. *)
Definition EntityManager_update (fuel : nat) (this delta time : value)
  : M (list call) :=
  let! systems := get this "systems" in
  sort_by_priority systems ;;
  let! systems' := get this "systems" in
  for_of fuel systems' 0
    (fun system =>
       System__update system delta time ;;
       ret (Call system delta time)).

End Tick.

(** ** function compute *)

(** The body of the first loop of [compute], for one [key]. *)
Definition compute_key (options defaults computedOptions : value)
    (key : string) : M unit :=
  let! present := lift (fun h => HasProperty h computedOptions key) in
  if present : bool then
    let! incoming := get options key in
    if decide (typeof incoming = "object") then
      let! dflt := get defaults key in
      let! merged := spread_new2 dflt incoming in
      put computedOptions key merged
    else put computedOptions key incoming
  else ret tt.

(** The second loop: one object [{ [key]: computedOptions[key] }] per
    key. *)
Fixpoint explode (computedOptions : value) (ks : list string)
  : M (list value) :=
  match ks with
  | [] => ret []
  | key :: ks' =>
      let! v := get computedOptions key in
      let! fragment := alloc (CObject None [(key, v)]) in
      let! rest := explode computedOptions ks' in
      ret (fragment :: rest)
  end.

(** [compute(options, defaults)]; the array [obj] is returned as the list
    of its elements. *)
Definition compute (options defaults : value) : M (list value) :=
  let! computedOptions := spread_new defaults in
  let! ks := lift (fun h => Ret (for_in_keys h options)) in
  forM ks (compute_key options defaults computedOptions) ;;
  let! ks' := lift (fun h => Ret (for_in_keys h computedOptions)) in
  explode computedOptions ks'.

(** ** The components ([components.js])

    Each factory builds its defaults, an object literal whose containers
    are literals too, and hands them to [compute] with the options. *)

(** [function transform(options)] *)
Definition transform (options : value) : M (list value) :=
  let! position := alloc (CObject None [("x", VNum 0); ("y", VNum 0)]) in
  let! scale := alloc (CObject None [("x", VNum 1); ("y", VNum 1)]) in
  let! rotation := alloc (CObject None [("x", VNum 0); ("y", VNum 0)]) in
  let! defaults :=
    alloc (CObject None [("position", position); ("scale", scale);
                         ("rotation", rotation)]) in
  compute options defaults.

(** [let physics = function(options)] *)
Definition physics (options : value) : M (list value) :=
  let! velocity := alloc (CObject None [("x", VNum 0); ("y", VNum 0)]) in
  let! pvelocity := alloc (CObject None [("x", VNum 0); ("y", VNum 0)]) in
  let! acceleration :=
    alloc (CObject None [("x", VNum 0); ("y", VNum 0)]) in
  let! direction := alloc (CObject None [("x", VNum 0); ("y", VNum 0)]) in
  let! defaults :=
    alloc (CObject None [("mass", VNum 1); ("velocity", velocity);
                         ("pvelocity", pvelocity);
                         ("acceleration", acceleration);
                         ("direction", direction); ("maxspeed", VNum 0)]) in
  compute options defaults.

(** [let render = function(options)] *)
Definition render (options : value) : M (list value) :=
  let! defaults :=
    alloc (CObject None [("shape", VStr "box"); ("bgcolor", VStr "#39c495");
                         ("linecolor", VStr "#0b845b")]) in
  compute options defaults.

(** ** Vocabulary of the statements *)

(** The value an entity holds under an own field, if it owns the field. *)
Definition own_field (h : heap) (entity : value) (name : string)
  : option value :=
  match entity with
  | VRef l =>
      match h !! l with
      | Some (CObject _ ps) => assoc name ps
      | _ => None
      end
  | _ => None
  end.

(** [owns h entity name]: the field is there, whatever it holds. *)
Definition owns (h : heap) (entity : value) (name : string) : Prop :=
  is_Some (own_field h entity name).

(** A registry entry that is an object. *)
Definition is_object (h : heap) (v : value) : Prop :=
  match v with
  | VRef l =>
      match h !! l with
      | Some (CObject _ _) => True
      | _ => False
      end
  | _ => False
  end.

(** A value that is not a reference to a cell the heap does not have. *)
Definition allocated (h : heap) (v : value) : Prop :=
  match v with
  | VRef l => (l < length h)%nat
  | _ => True
  end.

(** [has_priority h n system]: the comparator of [update] reads the
    number [n] in [system]. *)
Definition has_priority (h : heap) (n : Z) (system : value) : Prop :=
  priority_of h system = Ret n.

Global Instance has_priority_dec h n system :
  Decision (has_priority h n system).
Proof. unfold has_priority. apply _. Defined.

(** [overlaid base extra ps]: the properties [ps] are those of [base]
    overlaid with those of [extra], which win. *)
Definition overlaid (base extra ps : props) : Prop :=
  forall sub,
    assoc sub ps
    = match assoc sub extra with
      | Some v => Some v
      | None => assoc sub base
      end.

(** Two values are alike when they are the same value, or two containers
    that hold the same values under the same keys. *)
Definition alike (h1 h2 : heap) (v1 v2 : value) : Prop :=
  v1 = v2
  \/ exists l1 l2,
       v1 = VRef l1 /\ v2 = VRef l2
       /\ forall sub,
            assoc sub (own_enumerable h1 v1)
            = assoc sub (own_enumerable h2 v2).

(** What the fragment for one default [(key, dflt)] must be, given the
    options [ops]: a new object with the single field [key], which holds
    the default when the options do not have the key, the incoming value
    when that is a scalar, and a new container when the incoming value is
    one: the fields of the default overlaid with the incoming ones. *)
Definition fragment_for (h h' : heap) (ops : props)
    (dflt : string * value) (fragment : value) : Prop :=
  exists l v,
    fragment = VRef l
    /\ h !! l = None
    /\ h' !! l = Some (CObject None [(dflt.1, v)])
    /\ match assoc dflt.1 ops with
       | None => v = dflt.2
       | Some (VRef i) =>
           exists m mps,
             v = VRef m
             /\ h !! m = None
             /\ h' !! m = Some (CObject None mps)
             /\ (NoDup (keys (own_enumerable h dflt.2)) ->
                 NoDup (keys (own_enumerable h (VRef i))) ->
                 overlaid (own_enumerable h dflt.2)
                   (own_enumerable h (VRef i)) mps)
       | Some incoming => v = incoming
       end.

(** The value that the specification gives the fragment of a key present
    in both mappings, in its own words: "if the default value is a
    field-container, overlay the incoming value onto the default's
    container; otherwise replace the value outright". *)
Definition specified_value (h h' : heap) (dflt incoming v : value) : Prop :=
  match dflt with
  | VRef _ =>
      exists m mps,
        v = VRef m
        /\ h' !! m = Some (CObject None mps)
        /\ overlaid (own_enumerable h dflt) (own_enumerable h incoming) mps
  | _ => v = incoming
  end.

(** The fields of an object in the order of enumeration. *)
Definition enumerated (ps : props) : props :=
  (fun k => (k, default VUndefined (assoc k ps))) <$> enumeration (keys ps).

(** No object of the heap owns a field named [__proto__]. An object
    literal, an assignment and the constructors make no such field; it
    takes a computed key or [JSON.parse] to make one. *)
(** A primitive, or a plain object of the heap: one without a modelled
    prototype, whose keys are distinct. *)
Definition simple_value (h : heap) (o : value) : Prop :=
  match o with
  | VRef l => exists ps, h !! l = Some (CObject None ps) /\ NoDup (keys ps)
  | _ => True
  end.

(** The keys among [ks] that name a member of [Object.prototype] and are
    not among [own]: the keys of options that [key in computedOptions]
    finds although the defaults do not have them. *)
Definition prototype_names (own ks : list string) : list string :=
  filter (fun k => k ∈ Object_prototype /\ k ∉ own) ks.

Definition no_own_proto (h : heap) : Prop :=
  Forall (fun c => match c with
                   | CObject _ ps => "__proto__" ∉ keys ps
                   | CArray _ => True
                   end) h.

(** [grows h h']: every object of [h] is still an object in [h'], with
    the same prototype and with every field it had. *)
Definition grows (h h' : heap) : Prop :=
  forall l proto ps,
    h !! l = Some (CObject proto ps) ->
    exists ps',
      h' !! l = Some (CObject proto ps')
      /\ forall k, is_Some (assoc k ps) -> is_Some (assoc k ps').

(** A computation that removes no field from any object. *)
Definition monotone {A} (c : M A) : Prop :=
  forall h a h', c h = Ret (a, h') -> grows h h'.

(** The operations of the engine, as calls with their arguments. *)
Inductive operation :=
| New_EntityManager
| RegisterSystem (this system : value)
| Update (fuel : nat) (this delta time : value)
| CreateEntity (this priority : value)
| DestroyEntity (this entity : value)
| GetEntities (this query : value)
| SortEntities (this : value)
| Pause (this : value)
| New_Entity (priority : value)
| Assign (this : value) (components : list value)
| New_System (proto : option loc) (priority query : value)
| System_GetEntities (this : value)
| Compute (options defaults : value).

(** Running one operation, for its effect on the heap. *)
Definition run (update_method : value -> value -> value -> M unit)
    (op : operation) : M unit :=
  match op with
  | New_EntityManager => EntityManager_constructor ;; ret tt
  | RegisterSystem this system =>
      EntityManager_registerSystem this system ;; ret tt
  | Update fuel this delta time =>
      EntityManager_update update_method fuel this delta time ;; ret tt
  | CreateEntity this priority =>
      EntityManager_createEntity this priority ;; ret tt
  | DestroyEntity this entity => EntityManager_destroyEntity this entity
  | GetEntities this query => EntityManager_getEntities this query ;; ret tt
  | SortEntities this => EntityManager_sortEntities this
  | Pause this => EntityManager_pause this
  | New_Entity priority => Entity_constructor priority ;; ret tt
  | Assign this components => Entity_assign this components ;; ret tt
  | New_System proto priority query =>
      System_constructor proto priority query ;; ret tt
  | System_GetEntities this => System_getEntities this ;; ret tt
  | Compute options defaults => compute options defaults ;; ret tt
  end.

(** A reference to an array of the heap. *)
Definition is_array (h : heap) (v : value) : Prop :=
  match v with
  | VRef l =>
      match h !! l with
      | Some (CArray _) => True
      | _ => False
      end
  | _ => False
  end.

(** [x] has a priority that is at most the priority of [y]. *)
Definition priority_le (h : heap) (x y : value) : Prop :=
  exists nx ny, has_priority h nx x /\ has_priority h ny y /\ nx <= ny.

(** [single_key h key fragment]: the fragment is an object of the heap
    with the one field [key]. *)
Definition single_key (h : heap) (key : string) (fragment : value) : Prop :=
  exists l v, fragment = VRef l /\ h !! l = Some (CObject None [(key, v)]).

(** The fields that the three factories give an entity, after the two of
    its constructor. *)
Definition component_fields : list string :=
  ["position"; "scale"; "rotation";
   "mass"; "velocity"; "pvelocity"; "acceleration"; "direction"; "maxspeed";
   "shape"; "bgcolor"; "linecolor"].

(** ** States used as examples *)

(** A manager at 0 whose registry (at 1) lists the entity at 3 twice,
    around the entity at 4. *)
Definition registry_heap : heap :=
  [ CObject None [("entities", VRef 1%nat); ("systems", VRef 2%nat)];
    CArray [VRef 3%nat; VRef 4%nat; VRef 3%nat];
    CArray [];
    CObject None [("entityManager", VRef 0%nat); ("priority", VNum 0)];
    CObject None [("entityManager", VRef 0%nat); ("priority", VNum 0);
                  ("position", VUndefined)];
    CArray [VStr "position"];
    CArray [] ].

(** The state of the demo before its systems are registered, with one
    entity that has a shape only: the manager at 0, the entity at 3,
    [queries.movable] at 4 and [MovableSystem.prototype] at 5. *)
Definition demo_heap : heap :=
  [ CObject None [("entities", VRef 1%nat); ("systems", VRef 2%nat)];
    CArray [VRef 3%nat];
    CArray [];
    CObject None [("entityManager", VRef 0%nat); ("priority", VNum 0);
                  ("shape", VStr "box")];
    CArray [VStr "position"; VStr "velocity"];
    CObject None [("query", VRef 4%nat)] ].

(** The same after [new System()]: the system at 6, its query at 7. *)
Definition unregistered_heap : heap :=
  demo_heap ++ [CObject None [("entityManager", VNull);
                              ("priority", VNum 0);
                              ("query", VRef 7%nat)];
                CArray []].

(** A world with two systems: [first], of priority 2, is registered before
    [second], of priority 1; one tick later the priority of [first] is
    set to 1. *)
Definition priority_changed_after_tick : M (value * value * value) :=
  let! world := EntityManager_constructor in
  let! first := System_constructor None (VNum 2) VUndefined in
  let! second := System_constructor None (VNum 1) VUndefined in
  EntityManager_registerSystem world first ;;
  EntityManager_registerSystem world second ;;
  EntityManager_update System_update 2 world (VNum 16) (VNum 16) ;;
  put first "priority" (VNum 1) ;;
  ret (world, first, second).

(** The heap it leaves: the manager at 0, its systems at 2, [first] at 3
    and [second] at 5. *)
Definition second_tick_heap : heap :=
  Eval vm_compute in
    match priority_changed_after_tick [] with
    | Ret (_, h) => h
    | Throw _ => []
    end.

(** A class of systems that overrides [update]:
    [update() { this.selected = this.getEntities().length }]. The method
    reads the manager, the queries and the entities, and writes to the
    system. *)
Definition counting_update (this delta time : value) : M unit :=
  let! entities := System_getEntities this in
  put this "selected" (VNum (Z.of_nat (length entities))).

(** The states that ticks of such systems reach from [h]: [h] itself,
    and the state after the [update] of one of the [systems] in a state
    already reached. *)
Definition counting_states (h : heap) (systems : list value) : list heap :=
  foldr (fun system reached =>
           reached
           ++ ((fun h0 =>
                  match counting_update system VUndefined VUndefined h0 with
                  | Ret (_, h1) => h1
                  | Throw _ => h0
                  end) <$> reached))
    [h] systems.


(** A manager (at 0) with one entity (at 7) and two systems of priority
    0, registered in the order 3, 5, whose queries are empty. *)
Definition counting_systems_heap : heap :=
  [ CObject None [("entities", VRef 1%nat); ("systems", VRef 2%nat)];
    CArray [VRef 7%nat];
    CArray [VRef 3%nat; VRef 5%nat];
    CObject None [("entityManager", VRef 0%nat); ("priority", VNum 0);
                  ("query", VRef 4%nat)];
    CArray [];
    CObject None [("entityManager", VRef 0%nat); ("priority", VNum 0);
                  ("query", VRef 6%nat)];
    CArray [];
    CObject None [("entityManager", VRef 0%nat); ("priority", VNum 0)] ].

(** An entity (at 1) that owns [{a: 1, b: 2}] under [k], and the fragment
    [{k: {b: 3, c: 4}}] (at 3). *)
Definition merge_heap : heap :=
  [ CObject None [("a", VNum 1); ("b", VNum 2)];
    CObject None [("entityManager", VNull); ("priority", VNum 0);
                  ("k", VRef 0%nat)];
    CObject None [("b", VNum 3); ("c", VNum 4)];
    CObject None [("k", VRef 2%nat)] ].

(** An entity (at 1) that owns [{a: 1}] under [k], and the fragment
    [{k: null}] (at 2). *)
Definition null_onto_container_heap : heap :=
  [ CObject None [("a", VNum 1)];
    CObject None [("entityManager", VNull); ("priority", VNum 0);
                  ("k", VRef 0%nat)];
    CObject None [("k", VNull)] ].

(** An entity as [new Entity()] leaves it (at 0), and the fragment
    [{k: null}] (at 1). *)
Definition null_fragment_heap : heap :=
  [ CObject None [("entityManager", VNull); ("priority", VNum 0)];
    CObject None [("k", VNull)] ].

(** The options [{x: 5}] (at 0) and the defaults [{x: {p: 0}}] (at 2). *)
Definition scalar_over_container_heap : heap :=
  [ CObject None [("x", VNum 5)];
    CObject None [("p", VNum 0)];
    CObject None [("x", VRef 1%nat)] ].

(** The options [{}] (at 0) and the defaults [{b: 1, 1: 2}] (at 1). *)
Definition index_key_heap : heap :=
  [ CObject None [];
    CObject None [("b", VNum 1); ("1", VNum 2)] ].

(** The options [{x: {p: 9}}] (at 1) and the defaults
    [{x: {p: 0, q: 0}, y: 1}] (at 3). *)
Definition compute_example_heap : heap :=
  [ CObject None [("p", VNum 9)];
    CObject None [("x", VRef 0%nat)];
    CObject None [("p", VNum 0); ("q", VNum 0)];
    CObject None [("x", VRef 2%nat); ("y", VNum 1)] ].

(** After [createEntity()] on the demo's manager, the new entity (at 6)
    is assigned the fields of the older one, the entities are sorted and a
    tick runs. *)
Definition after_creation : list operation :=
  [ Assign (VRef 6%nat) [VRef 3%nat];
    SortEntities (VRef 0%nat);
    Update 4 (VRef 0%nat) (VNum 16) (VNum 16) ].

(** A manager (at 0) with two entities (at 3 and 4) that own a position,
    the second with priority 2 and the first with priority 5; the query
    [["position"]] is at 5. *)
Definition two_entities_heap : heap :=
  [ CObject None [("entities", VRef 1%nat); ("systems", VRef 2%nat)];
    CArray [VRef 3%nat; VRef 4%nat];
    CArray [];
    CObject None [("entityManager", VRef 0%nat); ("priority", VNum 5);
                  ("position", VUndefined)];
    CObject None [("entityManager", VRef 0%nat); ("priority", VNum 2);
                  ("position", VNum 7)];
    CArray [VStr "position"] ].

(** A manager (at 0) with two systems of priority 0, registered in the
    order 3, 5. *)
Definition idle_systems_heap : heap :=
  [ CObject None [("entities", VRef 1%nat); ("systems", VRef 2%nat)];
    CArray [];
    CArray [VRef 3%nat; VRef 5%nat];
    CObject None [("entityManager", VRef 0%nat); ("priority", VNum 0);
                  ("query", VRef 4%nat)];
    CArray [];
    CObject None [("entityManager", VRef 0%nat); ("priority", VNum 0);
                  ("query", VRef 6%nat)];
    CArray [] ].

(** Options and defaults that meet the members of [Object.prototype]:
    [{toString: 5}] (at 0), [{x: 1}] (at 1),
    [{shape: "circle", constructor: "x"}] (at 2) and [{toString: {}}]
    (at 3, its container at 4). *)
Definition inherited_name_heap : heap :=
  [ CObject None [("toString", VNum 5)];
    CObject None [("x", VNum 1)];
    CObject None [("shape", VStr "circle"); ("constructor", VStr "x")];
    CObject None [("toString", VRef 4%nat)];
    CObject None [] ].

(** A new entity (at 0) and the fragment [{hasOwnProperty: 1, a: 2}]
    (at 1). *)
Definition hidden_method_heap : heap :=
  [ CObject None [("entityManager", VNull); ("priority", VNum 0)];
    CObject None [("hasOwnProperty", VNum 1); ("a", VNum 2)] ].

(** Two new entities (at 0 and 1), the container [{x: 1, y: 1}] (at 2)
    and the fragment [{scale: <that container>}] (at 3). *)
Definition shared_scale_heap : heap :=
  [ CObject None [("entityManager", VNull); ("priority", VNum 0)];
    CObject None [("entityManager", VNull); ("priority", VNum 0)];
    CObject None [("x", VNum 1); ("y", VNum 1)];
    CObject None [("scale", VRef 2%nat)] ].

(** * Properties *)

(** ** The monad *)

Lemma bind_Ret {A B} (c : M A) (k : A -> M B) h a h' :
  c h = Ret (a, h') -> bind c k h = k a h'.
Proof. intros E. unfold bind. now rewrite E. Qed.

Lemma bind_Throw {A B} (c : M A) (k : A -> M B) h e :
  c h = Throw e -> bind c k h = Throw e.
Proof. intros E. unfold bind. now rewrite E. Qed.

Lemma bind_inv {A B} (c : M A) (k : A -> M B) h b h2 :
  bind c k h = Ret (b, h2) ->
  exists a h1, c h = Ret (a, h1) /\ k a h1 = Ret (b, h2).
Proof.
  unfold bind. destruct (c h) as [[a h1]|e]; [eauto | discriminate].
Qed.

Lemma lift_Ret {A} (f : heap -> outcome A) h a :
  f h = Ret a -> lift f h = Ret (a, h).
Proof. intros E. unfold lift. now rewrite E. Qed.

Lemma lift_inv {A} (f : heap -> outcome A) h a h' :
  lift f h = Ret (a, h') -> f h = Ret a /\ h' = h.
Proof.
  unfold lift. destruct (f h); [|discriminate].
  intros [= -> ->]. auto.
Qed.

Lemma get_Ret h o k v : Get h o k = Ret v -> get o k h = Ret (v, h).
Proof. intros E. exact (lift_Ret (fun h0 => Get h0 o k) h v E). Qed.

Lemma get_inv o k h v h' :
  get o k h = Ret (v, h') -> Get h o k = Ret v /\ h' = h.
Proof. exact (lift_inv (fun h0 => Get h0 o k) h v h'). Qed.

Lemma forM_app {A} (xs ys : list A) body h :
  forM (xs ++ ys) body h = (forM xs body ;; forM ys body) h.
Proof.
  revert h. induction xs as [|x xs IH]; intros h; simpl; [reflexivity|].
  unfold bind in *.
  destruct (body x h) as [[[] h1]|err]; [|reflexivity].
  apply IH.
Qed.

(** ** Own properties *)

Lemma elem_of_keys name ps : name ∈ keys ps <-> is_Some (assoc name ps).
Proof.
  unfold keys. induction ps as [|[k v] ps IH]; simpl.
  - split; [intros H; inversion H | intros [? [=]]].
  - rewrite elem_of_cons, IH.
    destruct (decide (name = k)); split; eauto; intros [|]; auto; congruence.
Qed.

Lemma assoc_set_prop_eq k v ps : assoc k (set_prop k v ps) = Some v.
Proof.
  induction ps as [|[k' v'] ps IH]; simpl.
  - now rewrite decide_True.
  - destruct (decide (k = k')) as [->|Hne]; simpl.
    + now rewrite decide_True.
    + now rewrite decide_False.
Qed.

Lemma assoc_set_prop_ne k k' v ps :
  k <> k' -> assoc k' (set_prop k v ps) = assoc k' ps.
Proof.
  intros Hne. induction ps as [|[k0 v0] ps IH]; simpl.
  - rewrite decide_False; congruence.
  - destruct (decide (k = k0)) as [->|Hne0]; simpl.
    + rewrite !decide_False; congruence.
    + now rewrite IH.
Qed.

Lemma set_prop_set_prop k v v' ps :
  set_prop k v (set_prop k v' ps) = set_prop k v ps.
Proof.
  induction ps as [|[k0 v0] ps IH]; simpl.
  - now rewrite decide_True.
  - destruct (decide (k = k0)) as [->|Hne]; simpl.
    + now rewrite decide_True.
    + rewrite decide_False by assumption. now rewrite IH.
Qed.

Lemma set_prop_absent k v ps :
  assoc k ps = None -> set_prop k v ps = ps ++ [(k, v)].
Proof.
  induction ps as [|[k0 v0] ps IH]; simpl; [reflexivity|].
  destruct (decide (k = k0)); [discriminate|].
  intros E. now rewrite IH.
Qed.

Lemma keys_set_prop_present k v ps :
  is_Some (assoc k ps) -> keys (set_prop k v ps) = keys ps.
Proof.
  unfold keys. induction ps as [|[k0 v0] ps IH]; simpl.
  - intros [? [=]].
  - destruct (decide (k = k0)) as [->|Hne]; simpl; [reflexivity|].
    intros Hk. f_equal. now apply IH.
Qed.

Lemma keys_set_prop k v ps :
  keys (set_prop k v ps)
  = if decide (is_Some (assoc k ps)) then keys ps else keys ps ++ [k].
Proof.
  destruct (decide (is_Some (assoc k ps))) as [Hs|Hn].
  - now apply keys_set_prop_present.
  - rewrite set_prop_absent.
    + unfold keys. now rewrite fmap_app.
    + destruct (assoc k ps); [exfalso; eauto | reflexivity].
Qed.

Lemma NoDup_set_prop k v ps :
  NoDup (keys ps) -> NoDup (keys (set_prop k v ps)).
Proof.
  intros Hnd. rewrite keys_set_prop.
  destruct (decide (is_Some (assoc k ps))) as [Hs|Hn]; [assumption|].
  apply NoDup_app. split; [assumption|]. split.
  - intros k' Hk' ->%list_elem_of_singleton.
    apply Hn. now apply elem_of_keys.
  - apply NoDup_singleton.
Qed.

Lemma assoc_app_absent k ps qs :
  assoc k ps = None -> assoc k (ps ++ qs) = assoc k qs.
Proof.
  induction ps as [|[k0 v0] ps IH]; simpl; [reflexivity|].
  destruct (decide (k = k0)); [discriminate | assumption].
Qed.

Lemma assoc_elem_of k v ps : assoc k ps = Some v -> (k, v) ∈ ps.
Proof.
  induction ps as [|[k0 v0] ps IH]; simpl; [discriminate|].
  destruct (decide (k = k0)) as [->|Hne].
  - intros [= ->]. left.
  - intros E. right. now apply IH.
Qed.

Lemma assoc_lookup ps i k v :
  NoDup (keys ps) -> ps !! i = Some (k, v) -> assoc k ps = Some v.
Proof.
  unfold keys. revert i.
  induction ps as [|[k0 v0] ps IH]; intros i Hnd Hi; [discriminate|].
  simpl in Hnd. apply NoDup_cons in Hnd as [Hk0 Hnd]. simpl.
  destruct i as [|i]; simpl in Hi.
  - injection Hi as -> ->. now rewrite decide_True.
  - rewrite decide_False; [now apply (IH i)|].
    intros ->. apply Hk0.
    apply (list_elem_of_fmap_2 fst ps (k0, v) (list_elem_of_lookup_2 _ _ _ Hi)).
Qed.

Lemma assoc_overlay k dst src :
  NoDup (keys src) ->
  assoc k (overlay dst src)
  = match assoc k src with Some v => Some v | None => assoc k dst end.
Proof.
  unfold overlay, keys. revert dst.
  induction src as [|[k0 v0] src IH]; intros dst Hnd; simpl; [reflexivity|].
  apply NoDup_cons in Hnd as [Hk0 Hnd].
  rewrite IH by assumption.
  destruct (decide (k = k0)) as [->|Hne].
  - destruct (assoc k0 src) eqn:E.
    + exfalso. apply Hk0. apply (proj2 (elem_of_keys k0 src)). eauto.
    + apply assoc_set_prop_eq.
  - destruct (assoc k src); [reflexivity|].
    apply assoc_set_prop_ne. congruence.
Qed.

Lemma overlay_fresh acc ps :
  NoDup (keys (acc ++ ps)) -> overlay acc ps = acc ++ ps.
Proof.
  unfold overlay. revert acc.
  induction ps as [|[k v] ps IH]; intros acc Hnd; simpl.
  - now rewrite app_nil_r.
  - assert (Hk : assoc k acc = None).
    { destruct (assoc k acc) eqn:E; [|reflexivity]. exfalso.
      unfold keys in Hnd. rewrite fmap_app in Hnd.
      apply NoDup_app in Hnd as (_ & Hdisj & _).
      apply (Hdisj k).
      - apply (proj2 (elem_of_keys k acc)). rewrite E. eauto.
      - left. }
    rewrite (set_prop_absent _ _ _ Hk), IH.
    + now rewrite <- app_assoc.
    + now rewrite <- app_assoc.
Qed.

Lemma overlay_nil ps : NoDup (keys ps) -> overlay [] ps = ps.
Proof. intros Hnd. now rewrite overlay_fresh. Qed.

Lemma NoDup_overlay dst src :
  NoDup (keys dst) -> NoDup (keys (overlay dst src)).
Proof.
  unfold overlay. revert dst.
  induction src as [|[k v] src IH]; intros dst Hnd; simpl; [assumption|].
  apply IH. now apply NoDup_set_prop.
Qed.

(** Overlaying [extra] a second time changes no field. *)
Lemma overlay_twice base extra sub :
  NoDup (keys extra) ->
  assoc sub (overlay (overlay [] (overlay (overlay [] base) extra)) extra)
  = assoc sub (overlay (overlay [] base) extra).
Proof.
  intros Hnd.
  rewrite assoc_overlay by assumption.
  rewrite (assoc_overlay sub []
             (overlay (overlay [] base) extra))
    by (apply NoDup_overlay, NoDup_overlay, NoDup_nil_2).
  rewrite (assoc_overlay sub (overlay [] base)) by assumption.
  now destruct (assoc sub extra), (assoc sub (overlay [] base)).
Qed.

Lemma overlay_onto_itself ps sub :
  NoDup (keys ps) -> assoc sub (overlay (overlay [] ps) ps) = assoc sub ps.
Proof.
  intros Hnd. rewrite !assoc_overlay by assumption.
  now destruct (assoc sub ps).
Qed.

Lemma first_seen_NoDup seen ks :
  NoDup ks -> (forall k, k ∈ ks -> k ∉ seen) -> first_seen seen ks = ks.
Proof.
  intros Hnd. revert seen.
  induction Hnd as [|k ks Hk _ IH]; intros seen Hseen; simpl; [reflexivity|].
  rewrite decide_False by (apply Hseen; left).
  f_equal. apply IH. intros k' Hk' [->|Hin]%elem_of_cons.
  - contradiction.
  - apply (Hseen k'); [now right | assumption].
Qed.

(** ** The order of enumeration *)

Lemma array_index_name k n :
  array_index k = Some n -> NilZero.string_of_uint (N.to_uint n) = k.
Proof.
  unfold array_index. destruct (NilZero.uint_of_string k); [|discriminate].
  case decide; [|discriminate]. intros [Hk _] [= <-]. exact Hk.
Qed.

Lemma index_keys_eq (ks : list string) :
  (fun n => NilZero.string_of_uint (N.to_uint n)) <$> omap array_index ks
  = filter (fun k => is_Some (array_index k)) ks.
Proof.
  induction ks as [|k ks IH]; [reflexivity|].
  rewrite filter_cons.
  change (omap array_index (k :: ks))
    with (match array_index k with
          | Some n => n :: omap array_index ks
          | None => omap array_index ks
          end).
  destruct (array_index k) as [n|] eqn:Hk.
  - rewrite decide_True by eauto. rewrite fmap_cons.
    now rewrite (array_index_name k n Hk), IH.
  - rewrite decide_False by (intros [? [=]]). exact IH.
Qed.

(** Enumeration visits every key, once per occurrence. *)
Lemma enumeration_perm (ks : list string) : enumeration ks ≡ₚ ks.
Proof.
  unfold enumeration. rewrite merge_sort_Permutation, index_keys_eq.
  induction ks as [|k ks IH]; [reflexivity|].
  rewrite !filter_cons.
  destruct (array_index k) as [n|] eqn:Hk.
  - rewrite decide_True by eauto. rewrite decide_False by discriminate.
    simpl. now rewrite IH.
  - rewrite decide_False by (intros [? [=]]).
    rewrite decide_True by reflexivity.
    rewrite <- Permutation_middle. now rewrite IH.
Qed.

Lemma elem_of_enumeration k (ks : list string) : k ∈ enumeration ks <-> k ∈ ks.
Proof. now rewrite enumeration_perm. Qed.

Lemma elem_of_enumeration_1 k (ks : list string) :
  k ∈ enumeration ks -> k ∈ ks.
Proof. apply elem_of_enumeration. Qed.

Lemma NoDup_enumeration (ks : list string) : NoDup ks -> NoDup (enumeration ks).
Proof. now rewrite enumeration_perm. Qed.

(** Keys that are no array indices are enumerated in the order of their
    creation. *)
Lemma enumeration_plain (ks : list string) :
  Forall (fun k => array_index k = None) ks -> enumeration ks = ks.
Proof.
  intros Hks. unfold enumeration.
  assert (Hnone : omap array_index ks = []).
  { induction Hks as [|k ks Hk _ IH]; [reflexivity|]. simpl.
    now rewrite Hk. }
  rewrite Hnone. simpl.
  induction Hks as [|k ks Hk _ IH]; [reflexivity|].
  rewrite filter_cons, decide_True by assumption. f_equal. apply IH.
  simpl in Hnone. now rewrite Hk in Hnone.
Qed.

(** The name of an array index is no other key of the program. *)
Lemma index_name_digits i : index_name i <> "__proto__".
Proof.
  unfold index_name, NilZero.string_of_uint.
  destruct (Nat.to_uint i); discriminate.
Qed.

(** ** Cells of the heap *)

Lemma read_array_Ret h a xs :
  h !! a = Some (CArray xs) -> read_array (VRef a) h = Ret (xs, h).
Proof. intros E. unfold read_array. now rewrite E. Qed.

Lemma read_array_inv a h xs h' :
  read_array a h = Ret (xs, h') ->
  exists l, a = VRef l /\ h !! l = Some (CArray xs) /\ h' = h.
Proof.
  unfold read_array. destruct a as [| | | | |l]; try discriminate.
  destruct (h !! l) as [[|ys]|] eqn:E; try discriminate.
  intros [= <- <-]. eauto.
Qed.

Lemma write_array_Ret h a xs ys :
  h !! a = Some (CArray xs) ->
  write_array (VRef a) ys h = Ret (tt, <[a := CArray ys]> h).
Proof. intros E. unfold write_array. now rewrite E. Qed.

Lemma push_Ret h l xs x :
  h !! l = Some (CArray xs) ->
  push (VRef l) x h = Ret (tt, <[l := CArray (xs ++ [x])]> h).
Proof.
  intros E. unfold push.
  rewrite (bind_Ret _ _ _ _ _ (read_array_Ret _ _ _ E)).
  exact (write_array_Ret _ _ _ _ E).
Qed.

Lemma push_inv a x h u h' :
  push a x h = Ret (u, h') ->
  exists l xs,
    a = VRef l /\ h !! l = Some (CArray xs) /\
    h' = <[l := CArray (xs ++ [x])]> h.
Proof.
  unfold push. intros H.
  apply bind_inv in H as (xs & h1 & Hr & Hw).
  apply read_array_inv in Hr as (l & -> & E & ->).
  rewrite (write_array_Ret _ _ _ _ E) in Hw.
  injection Hw as _ <-. eauto.
Qed.

Lemma put_Ret h l proto ps k v :
  h !! l = Some (CObject proto ps) ->
  k <> "__proto__" ->
  put (VRef l) k v h = Ret (tt, <[l := CObject proto (set_prop k v ps)]> h).
Proof. intros E Hk. unfold put. now rewrite E, decide_False. Qed.

Lemma put_inv o k v h u h' :
  put o k v h = Ret (u, h') ->
  exists l proto ps,
    o = VRef l /\ h !! l = Some (CObject proto ps) /\
    h' = <[l := CObject proto (set_prop k v ps)]> h.
Proof.
  unfold put. destruct o as [| | | | |l]; try discriminate.
  destruct (h !! l) as [[proto ps|]|] eqn:E; try discriminate.
  destruct (decide (k = "__proto__")); [discriminate|].
  intros [= _ <-]. eauto 6.
Qed.

Lemma lookup_alloc (h rest : heap) c : (h ++ c :: rest) !! length h = Some c.
Proof. apply list_lookup_middle. reflexivity. Qed.

Lemma insert_alloc (h rest : heap) c c' :
  <[length h := c']> (h ++ c :: rest) = h ++ c' :: rest.
Proof.
  rewrite insert_app_r_alt by reflexivity.
  now rewrite Nat.sub_diag.
Qed.

Lemma put_fresh h rest proto ps k v :
  k <> "__proto__" ->
  put (VRef (length h)) k v (h ++ CObject proto ps :: rest)
  = Ret (tt, h ++ CObject proto (set_prop k v ps) :: rest).
Proof.
  intros Hk.
  rewrite (put_Ret _ _ _ _ _ _ (lookup_alloc _ _ _) Hk).
  now rewrite insert_alloc.
Qed.

Lemma put_old h extra e proto ps k v :
  h !! e = Some (CObject proto ps) ->
  k <> "__proto__" ->
  put (VRef e) k v (h ++ extra)
  = Ret (tt, <[e := CObject proto (set_prop k v ps)]> h ++ extra).
Proof.
  intros E Hk.
  assert (e < length h)%nat by (eapply lookup_lt_Some; eauto).
  rewrite (put_Ret (h ++ extra) e proto ps k v); [|
    rewrite lookup_app_l by assumption; exact E | exact Hk].
  now rewrite insert_app_l by assumption.
Qed.

Lemma chain_own fuel h l proto ps :
  h !! l = Some (CObject proto ps) ->
  exists rest, chain fuel h l = ps :: rest.
Proof. intros E. destruct fuel; simpl; rewrite E; eauto. Qed.

Lemma Get_own h l proto ps k v :
  h !! l = Some (CObject proto ps) ->
  assoc k ps = Some v ->
  Get h (VRef l) k = Ret v.
Proof.
  intros E Hk. unfold Get, properties_along.
  destruct (chain_own (length h) h l proto ps E) as [rest ->].
  simpl. now rewrite Hk.
Qed.

Lemma Get_plain h l ps k :
  h !! l = Some (CObject None ps) ->
  k <> "__proto__" ->
  Get h (VRef l) k = Ret (default VUndefined (assoc k ps)).
Proof.
  intros E Hk. unfold Get, properties_along, own_length.
  destruct (length h); simpl; rewrite E; simpl;
    (destruct (assoc k ps); [reflexivity|]);
    rewrite decide_False by assumption; now destruct (decide (k = "length")).
Qed.

Lemma Get_returns h o k :
  o <> VUndefined -> o <> VNull -> k <> "__proto__" ->
  exists v, Get h o k = Ret v.
Proof.
  intros H1 H2 Hk. unfold Get.
  destruct o; try congruence;
    (destruct (find_prop k _); [eauto|]);
    rewrite decide_False by assumption;
    destruct (decide (k = "length")); eauto.
Qed.

Lemma own_field_Get h o k v : own_field h o k = Some v -> Get h o k = Ret v.
Proof.
  unfold own_field. destruct o as [| | | | |l]; try discriminate.
  destruct (h !! l) as [[proto ps|]|] eqn:E; try discriminate.
  intros Hk. exact (Get_own _ _ _ _ _ _ E Hk).
Qed.

Lemma HasProperty_plain h l ps k :
  h !! l = Some (CObject None ps) ->
  HasProperty h (VRef l) k
  = Ret (bool_decide (is_Some (assoc k ps))
         || bool_decide (k ∈ Object_prototype)).
Proof.
  intros E. unfold HasProperty, properties_along. rewrite E.
  destruct (length h); simpl; rewrite E; simpl;
    destruct (assoc k ps); reflexivity.
Qed.

Lemma for_in_keys_plain h f fps :
  h !! f = Some (CObject None fps) ->
  NoDup (keys fps) ->
  for_in_keys h (VRef f) = enumeration (keys fps).
Proof.
  intros Ef Hnd. unfold for_in_keys, properties_along.
  destruct (length h); simpl; rewrite Ef; simpl; rewrite app_nil_r;
    apply first_seen_NoDup; auto using NoDup_enumeration;
    intros k _; apply not_elem_of_nil.
Qed.

Lemma own_enumerable_frame (h h' : list cell) l :
  h' !! l = h !! l ->
  own_enumerable h' (VRef l) = own_enumerable h (VRef l).
Proof. intros E. unfold own_enumerable. now rewrite E. Qed.

Lemma own_enumerable_app h extra v :
  allocated h v -> own_enumerable (h ++ extra) v = own_enumerable h v.
Proof.
  destruct v as [| | | | |l]; try reflexivity. simpl. intros Hl.
  now rewrite lookup_app_l by exact Hl.
Qed.

Lemma allocated_default h k ps :
  Forall (fun kv => allocated h kv.2) ps ->
  allocated h (default VUndefined (assoc k ps)).
Proof.
  induction 1 as [|[k0 v0] ps Hv _ IH]; simpl; [exact I|].
  destruct (decide (k = k0)); [exact Hv | exact IH].
Qed.

Lemma is_object_lookup h v :
  is_object h v
  <-> exists l proto ps, v = VRef l /\ h !! l = Some (CObject proto ps).
Proof.
  unfold is_object. split.
  - destruct v as [| | | | |l]; try contradiction.
    destruct (h !! l) as [[proto ps|]|] eqn:E; try contradiction.
    intros _. now exists l, proto, ps.
  - intros (l & proto & ps & -> & ->). exact I.
Qed.

(** ** Lists *)

Lemma indexOf_absent x xs : x ∉ xs -> indexOf x xs = None.
Proof.
  induction xs as [|y xs IH]; intros Hx; simpl; [reflexivity|].
  apply not_elem_of_cons in Hx as [Hne Hx].
  destruct (decide (y = x)); [congruence|].
  now rewrite IH.
Qed.

Lemma indexOf_first x before after :
  x ∉ before -> indexOf x (before ++ x :: after) = Some (length before).
Proof.
  induction before as [|y before IH]; intros Hx; simpl.
  - destruct (decide (x = x)); [reflexivity | congruence].
  - apply not_elem_of_cons in Hx as [Hne Hx].
    destruct (decide (y = x)); [congruence|].
    now rewrite IH.
Qed.

Lemma splice1_middle (x : value) before after :
  splice1 (length before) (before ++ x :: after) = before ++ after.
Proof.
  unfold splice1.
  induction before as [|y before IH]; simpl; [reflexivity|].
  now rewrite IH.
Qed.

Lemma filterM_pure (f : value -> M bool) (P : value -> Prop)
    `{forall x, Decision (P x)} h xs :
  Forall (fun x => f x h = Ret (bool_decide (P x), h)) xs ->
  filterM f xs h = Ret (filter P xs, h).
Proof.
  induction 1 as [|x xs Hx _ IH]; simpl; [reflexivity|].
  rewrite (bind_Ret _ _ _ _ _ Hx), (bind_Ret _ _ _ _ _ IH).
  unfold ret. rewrite filter_cons.
  destruct (decide (P x)) as [HP|HP].
  - now rewrite bool_decide_eq_true_2.
  - now rewrite bool_decide_eq_false_2.
Qed.

Lemma filter_vacuous (P : value -> Prop) `{forall x, Decision (P x)}
    (xs : list value) :
  (forall x, P x) -> filter P xs = xs.
Proof.
  intros HP. induction xs as [|x xs IH]; [reflexivity|].
  rewrite filter_cons_True by apply HP. now f_equal.
Qed.

Lemma filter_agree {A} (P Q : A -> Prop)
    `{forall x, Decision (P x)} `{forall x, Decision (Q x)} (l : list A) :
  Forall (fun x => P x <-> Q x) l -> filter P l = filter Q l.
Proof.
  induction 1 as [|x l Hx _ IH]; [reflexivity|].
  rewrite (filter_cons P), (filter_cons Q), IH.
  destruct (decide (P x)), (decide (Q x)); tauto.
Qed.

Lemma filter_zip_snd (P : value -> Prop) `{forall x, Decision (P x)}
    (l : list (Z * value)) :
  (filter (fun a => P a.2) l).*2 = filter P l.*2.
Proof.
  induction l as [|[n x] l IH]; [reflexivity|].
  rewrite fmap_cons, (filter_cons P), (filter_cons (fun a => P a.2)).
  cbn [snd].
  destruct (decide (P x)); [rewrite fmap_cons|]; now rewrite IH.
Qed.

(** ** [destroyEntity] *)

(** C9. In a manager whose registry holds [es], [destroyEntity(entity)]
    returns normally in both cases: when [entity] is not in [es] the heap
    is left as it was; when it is, the registry loses the first entry
    that is identical to [entity], the entries before and after it stay,
    in their order, and nothing else in the heap changes. *)
Theorem destroyEntity_removes_first_occurrence h this a es entity :
  Get h this "entities" = Ret (VRef a) ->
  h !! a = Some (CArray es) ->
  (entity ∉ es -> EntityManager_destroyEntity this entity h = Ret (tt, h)) /\
  (forall before after,
      es = before ++ entity :: after -> entity ∉ before ->
      EntityManager_destroyEntity this entity h
      = Ret (tt, <[a := CArray (before ++ after)]> h)).
Proof.
  intros Hthis Ha. unfold EntityManager_destroyEntity.
  rewrite (bind_Ret _ _ _ _ _ (get_Ret _ _ _ _ Hthis)).
  rewrite (bind_Ret _ _ _ _ _ (read_array_Ret _ _ _ Ha)).
  split.
  - intros Habs. now rewrite (indexOf_absent _ _ Habs).
  - intros before after -> Hfirst.
    rewrite (indexOf_first _ _ after Hfirst).
    rewrite (bind_Ret _ _ _ _ _ (get_Ret _ _ _ _ Hthis)).
    rewrite (bind_Ret _ _ _ _ _ (read_array_Ret _ _ _ Ha)).
    rewrite splice1_middle.
    exact (write_array_Ret _ _ _ _ Ha).
Qed.

Lemma destroyEntity_removes_first_occurrence_witness :
  EntityManager_destroyEntity (VRef 0%nat) (VRef 3%nat) registry_heap
  = Ret (tt, <[1%nat := CArray [VRef 4%nat; VRef 3%nat]]> registry_heap)
  /\ EntityManager_destroyEntity (VRef 0%nat) (VRef 7%nat) registry_heap
     = Ret (tt, registry_heap).
Proof.
  split.
  - apply (proj2 (destroyEntity_removes_first_occurrence registry_heap
                    (VRef 0%nat) 1%nat [VRef 3%nat; VRef 4%nat; VRef 3%nat]
                    (VRef 3%nat) eq_refl eq_refl) [] [VRef 4%nat; VRef 3%nat]).
    + reflexivity.
    + apply not_elem_of_nil.
  - apply (proj1 (destroyEntity_removes_first_occurrence registry_heap
                    (VRef 0%nat) 1%nat [VRef 3%nat; VRef 4%nat; VRef 3%nat]
                    (VRef 7%nat) eq_refl eq_refl)).
    apply (bool_decide_unpack _). reflexivity.
Defined.

(** ** [getEntities] *)

Lemma forallb_includes ps names :
  forallb (includes (keys ps)) (VStr <$> names)
  = bool_decide (Forall (fun name => is_Some (assoc name ps)) names).
Proof.
  induction names as [|n names IH]; [reflexivity|].
  rewrite fmap_cons.
  change (includes (keys ps) (VStr n)
          && forallb (includes (keys ps)) (VStr <$> names)
          = bool_decide
              (Forall (fun name => is_Some (assoc name ps)) (n :: names))).
  rewrite IH. unfold includes.
  apply eq_true_iff_eq.
  rewrite andb_true_iff, !bool_decide_eq_true, Forall_cons, elem_of_keys.
  tauto.
Qed.

Lemma matches_owns h q names entity :
  h !! q = Some (CArray (VStr <$> names)) ->
  is_object h entity ->
  matches (VRef q) entity h
  = Ret (bool_decide (Forall (owns h entity) names), h).
Proof.
  intros Hq Hobj. unfold matches.
  destruct entity as [| | | | |l]; try contradiction.
  unfold is_object in Hobj.
  destruct (h !! l) as [[proto ps|]|] eqn:El; try contradiction.
  assert (Hn : getOwnPropertyNames h (VRef l) = Ret (keys ps)).
  { unfold getOwnPropertyNames, own_enumerable. now rewrite El. }
  rewrite (bind_Ret _ _ _ _ _ (lift_Ret _ _ _ Hn)).
  rewrite (bind_Ret _ _ _ _ _ (read_array_Ret _ _ _ Hq)).
  unfold ret. rewrite forallb_includes.
  unfold owns, own_field. now rewrite El.
Qed.

Lemma getEntities_eq h this a es q names :
  Get h this "entities" = Ret (VRef a) ->
  h !! a = Some (CArray es) ->
  h !! q = Some (CArray (VStr <$> names)) ->
  Forall (is_object h) es ->
  EntityManager_getEntities this (VRef q) h
  = Ret (filter (fun entity => Forall (owns h entity) names) es, h).
Proof.
  intros Hthis Ha Hq Hes. unfold EntityManager_getEntities.
  rewrite (bind_Ret _ _ _ _ _ (get_Ret _ _ _ _ Hthis)).
  rewrite (bind_Ret _ _ _ _ _ (read_array_Ret _ _ _ Ha)).
  apply filterM_pure.
  eapply Forall_impl; [exact Hes|].
  intros entity Hobj. now apply matches_owns.
Qed.

(** C1. In a manager whose registry holds the objects [es], for a query
    that lists the field names [names], [getEntities(query)] returns the
    entries of [es] that own every name of [names], in registry order and
    without touching the heap: an entry is selected if and only if it owns
    each of the names; owning is having the field, so a field that holds
    [undefined] counts; and an empty query selects the whole registry. *)
Theorem getEntities_selects_owners h this a es q names :
  Get h this "entities" = Ret (VRef a) ->
  h !! a = Some (CArray es) ->
  h !! q = Some (CArray (VStr <$> names)) ->
  Forall (is_object h) es ->
  let selected := filter (fun entity => Forall (owns h entity) names) es in
  EntityManager_getEntities this (VRef q) h = Ret (selected, h)
  /\ (forall entity, entity ∈ es ->
        entity ∈ selected <-> forall name, name ∈ names -> owns h entity name)
  /\ (forall entity name, own_field h entity name = Some VUndefined ->
        owns h entity name)
  /\ selected `sublist_of` es
  /\ (names = [] -> selected = es).
Proof.
  intros Hthis Ha Hq Hes selected. repeat split.
  - now apply getEntities_eq with a.
  - intros Hsel name Hname.
    apply list_elem_of_filter in Hsel as [Hall _].
    rewrite Forall_forall in Hall. now apply Hall.
  - intros Hall. apply list_elem_of_filter. split; [|assumption].
    now apply Forall_forall.
  - intros entity name E. unfold owns. rewrite E. eauto.
  - apply sublist_filter.
  - intros ->. subst selected. apply filter_vacuous. constructor.
Qed.

Lemma getEntities_selects_owners_witness :
  EntityManager_getEntities (VRef 0%nat) (VRef 5%nat) registry_heap
  = Ret ([VRef 4%nat], registry_heap)
  /\ EntityManager_getEntities (VRef 0%nat) (VRef 6%nat) registry_heap
     = Ret ([VRef 3%nat; VRef 4%nat; VRef 3%nat], registry_heap).
Proof.
  assert (Hes : Forall (is_object registry_heap)
                  [VRef 3%nat; VRef 4%nat; VRef 3%nat]).
  { repeat constructor. }
  split.
  - exact (proj1 (getEntities_selects_owners registry_heap (VRef 0%nat) 1%nat
                    _ 5%nat ["position"] eq_refl eq_refl eq_refl Hes)).
  - exact (proj1 (getEntities_selects_owners registry_heap (VRef 0%nat) 1%nat
                    _ 6%nat [] eq_refl eq_refl eq_refl Hes)).
Defined.

(** ** Systems and their manager *)

(** The state a constructor of systems leaves. *)
Lemma System_constructor_eq proto priority query h :
  System_constructor proto priority query h
  = Ret (VRef (length h),
         h ++ CObject proto
                [("entityManager", VNull);
                 ("priority", if ToBoolean priority then priority else VNum 0);
                 ("query",
                  if ToBoolean query then query else VRef (S (length h)))]
           :: (if ToBoolean query then [] else [CArray []])).
Proof.
  unfold System_constructor.
  rewrite (bind_Ret _ _ h (VRef (length h)) (h ++ [CObject proto []]))
    by reflexivity.
  erewrite bind_Ret by (apply put_fresh; discriminate).
  erewrite bind_Ret by (apply put_fresh; discriminate).
  destruct (ToBoolean query).
  - rewrite (bind_Ret _ _ _ query _ eq_refl).
    now erewrite bind_Ret by (apply put_fresh; discriminate).
  - unfold alloc at 1.
    erewrite bind_Ret by reflexivity.
    rewrite <- app_assoc. simpl.
    erewrite bind_Ret by (apply put_fresh; discriminate).
    unfold ret. rewrite length_app, Nat.add_1_r. reflexivity.
Qed.

Lemma registerSystem_inv this system h r h1 :
  EntityManager_registerSystem this system h = Ret (r, h1) ->
  exists l proto ps b ss,
    system = VRef l /\ r = system /\
    h !! l = Some (CObject proto ps) /\
    Get (<[l := CObject proto (set_prop "entityManager" this ps)]> h)
        this "systems" = Ret (VRef b) /\
    h !! b = Some (CArray ss) /\ b <> l /\
    h1 = <[b := CArray (ss ++ [system])]>
           (<[l := CObject proto (set_prop "entityManager" this ps)]> h).
Proof.
  unfold EntityManager_registerSystem. intros H.
  apply bind_inv in H as ([] & hA & Hput & H).
  apply put_inv in Hput as (l & proto & ps & -> & El & ->).
  apply bind_inv in H as (systems & hB & Hget & H).
  apply get_inv in Hget as [Hget ->].
  apply bind_inv in H as ([] & hC & Hpush & H).
  apply push_inv in Hpush as (b & ss & -> & Eb & ->).
  injection H as <- <-.
  assert (b <> l) as Hne.
  { intros ->. rewrite list_lookup_insert_eq in Eb
      by (eapply lookup_lt_Some; eauto). discriminate. }
  rewrite list_lookup_insert_ne in Eb by congruence.
  exists l, proto, ps, b, ss. auto 10.
Qed.

(** C8. A system that was just constructed, of any class and with any
    arguments, has no manager: its [getEntities()] throws a [TypeError].
    Once [registerSystem] has returned for it, its [getEntities()] is the
    [getEntities] of that manager on the query the system holds: the same
    outcome, result and heap alike. *)
Theorem System_getEntities_needs_registration :
  (forall proto priority query h system h0,
      System_constructor proto priority query h = Ret (system, h0) ->
      System_getEntities system h0 = Throw TypeError)
  /\ (forall this system h r h1,
        EntityManager_registerSystem this system h = Ret (r, h1) ->
        r = system /\
        exists query,
          Get h1 system "query" = Ret query /\
          System_getEntities system h1
          = EntityManager_getEntities this query h1).
Proof.
  split.
  - intros proto priority query h system h0.
    rewrite System_constructor_eq. intros [= <- <-].
    unfold System_getEntities.
    erewrite (bind_Ret _ _ _ VNull);
      [|apply get_Ret; eapply Get_own; [apply lookup_alloc | reflexivity]].
    reflexivity.
  - intros this system h r h1 Hreg.
    apply registerSystem_inv in Hreg
      as (l & proto & ps & b & ss & -> & -> & El & Hsys & Eb & Hne & ->).
    split; [reflexivity|].
    set (hA := <[l := CObject proto (set_prop "entityManager" this ps)]> h)
      in *.
    set (h1 := <[b := CArray (ss ++ [VRef l])]> hA).
    assert (E1 : h1 !! l
                 = Some (CObject proto (set_prop "entityManager" this ps))).
    { subst h1 hA. rewrite list_lookup_insert_ne by congruence.
      apply list_lookup_insert_eq. eapply lookup_lt_Some; eauto. }
    destruct (Get_returns h1 (VRef l) "query") as [query Hq];
      try discriminate.
    exists query. split; [exact Hq|].
    unfold System_getEntities.
    rewrite (bind_Ret _ _ h1 this h1).
    + destruct this; try discriminate Hsys;
        now rewrite (bind_Ret _ _ _ _ _ (get_Ret _ _ _ _ Hq)).
    + apply get_Ret. eapply Get_own; [exact E1|].
      apply assoc_set_prop_eq.
Qed.

Lemma System_getEntities_needs_registration_witness :
  System_getEntities (VRef 6%nat) unregistered_heap = Throw TypeError
  /\ exists h1,
       EntityManager_registerSystem (VRef 0%nat) (VRef 6%nat)
         unregistered_heap
       = Ret (VRef 6%nat, h1)
       /\ System_getEntities (VRef 6%nat) h1
          = EntityManager_getEntities (VRef 0%nat) (VRef 7%nat) h1.
Proof.
  split.
  - apply (proj1 System_getEntities_needs_registration
             None VUndefined VUndefined demo_heap).
    reflexivity.
  - eexists. split; [reflexivity|].
    destruct (proj2 System_getEntities_needs_registration
                (VRef 0%nat) (VRef 6%nat) unregistered_heap _ _ eq_refl)
      as [_ (query & Hq & Hsame)].
    injection Hq as <-. exact Hsame.
Defined.

(** C6. Take a class of systems whose prototype holds a query, and a
    manager whose registry holds the objects [es].
    [registerSystem(new C(priority))], with no query argument, returns the
    new system; the prototype keeps its query, but the system owns a
    [query] of its own, a new empty array, which is what [this.query]
    reads; and its [getEntities()] returns the whole registry. *)
Theorem prototype_query_is_shadowed
    h this a b es ss p proto pps declared priority :
  own_field h this "entities" = Some (VRef a) ->
  h !! a = Some (CArray es) ->
  own_field h this "systems" = Some (VRef b) ->
  h !! b = Some (CArray ss) ->
  a <> b ->
  Forall (is_object h) es ->
  h !! p = Some (CObject proto pps) ->
  assoc "query" pps = Some declared ->
  exists system q h1,
    (let! s := System_constructor (Some p) priority VUndefined in
     EntityManager_registerSystem this s) h = Ret (VRef system, h1)
    /\ own_field h1 (VRef p) "query" = Some declared
    /\ Get h1 (VRef system) "query" = Ret (VRef q)
    /\ h !! q = None
    /\ h1 !! q = Some (CArray [])
    /\ System_getEntities (VRef system) h1 = Ret (es, h1).
Proof.
  intros Hents Ha Hsys Hb Hab Hes Hp Hdecl.
  destruct this as [| | | | |m]; try discriminate.
  unfold own_field in Hents, Hsys.
  destruct (h !! m) as [[mproto mps|]|] eqn:Em; try discriminate.
  set (n := length h).
  set (sys := CObject (Some p)
                [("entityManager", VRef m);
                 ("priority", if ToBoolean priority then priority else VNum 0);
                 ("query", VRef (S n))]).
  set (h1 := <[b := CArray (ss ++ [VRef n])]> h ++ [sys; CArray []]).
  assert (Hlt : forall l c, h !! l = Some c -> (l < n)%nat)
    by (intros l c E; eapply lookup_lt_Some; eauto).
  assert (Hold : forall l, l <> b -> (l < n)%nat -> h1 !! l = h !! l).
  { intros l Hl Hn. subst h1.
    rewrite lookup_app_l by (rewrite length_insert; exact Hn).
    now apply list_lookup_insert_ne. }
  assert (Hn1 : h1 !! n = Some sys).
  { subst h1 n. apply list_lookup_middle. now rewrite length_insert. }
  assert (Hq1 : h1 !! S n = Some (CArray [])).
  { subst h1 n.
    rewrite lookup_app_r by (rewrite length_insert; lia).
    rewrite length_insert. now replace (S (length h) - length h)%nat with 1%nat by lia. }
  assert (Hm1 : h1 !! m = Some (CObject mproto mps)).
  { rewrite Hold; [assumption | congruence | eauto]. }
  exists n, (S n), h1. repeat split.
  - rewrite (bind_Ret _ _ _ _ _ (System_constructor_eq _ _ _ _)). simpl.
    unfold EntityManager_registerSystem.
    erewrite bind_Ret by (apply put_fresh; discriminate). simpl.
    erewrite (bind_Ret _ _ _ (VRef b));
      [|apply get_Ret; eapply Get_own; [|exact Hsys];
        rewrite lookup_app_l by eauto; exact Em].
    erewrite (bind_Ret (push _ _));
      [|apply push_Ret with (xs := ss);
        rewrite lookup_app_l by eauto; exact Hb].
    unfold ret. subst h1 sys n.
    now rewrite insert_app_l by eauto.
  - unfold own_field. rewrite Hold; [now rewrite Hp | congruence | eauto].
  - eapply Get_own; [exact Hn1 | reflexivity].
  - apply lookup_ge_None. subst n. lia.
  - exact Hq1.
  - unfold System_getEntities.
    erewrite (bind_Ret _ _ _ (VRef m));
      [|apply get_Ret; eapply Get_own; [exact Hn1 | reflexivity]].
    erewrite (bind_Ret _ _ _ (VRef (S n)));
      [|apply get_Ret; eapply Get_own; [exact Hn1 | reflexivity]].
    rewrite (getEntities_eq h1 (VRef m) a es (S n) []).
    + rewrite filter_vacuous; [reflexivity | constructor].
    + eapply Get_own; [exact Hm1 | exact Hents].
    + rewrite Hold; [assumption | assumption | eauto].
    + exact Hq1.
    + eapply Forall_impl; [exact Hes|]. intros e He.
      apply is_object_lookup in He as (l & lp & lps & -> & El).
      apply is_object_lookup. exists l, lp, lps. split; [reflexivity|].
      rewrite Hold; [assumption | congruence | eauto].
Qed.

Lemma prototype_query_is_shadowed_witness :
  exists h1,
    (let! s := System_constructor (Some 5%nat) VUndefined VUndefined in
     EntityManager_registerSystem (VRef 0%nat) s) demo_heap
    = Ret (VRef 6%nat, h1)
    /\ own_field h1 (VRef 5%nat) "query" = Some (VRef 4%nat)
    /\ System_getEntities (VRef 6%nat) h1 = Ret ([VRef 3%nat], h1).
Proof.
  destruct (prototype_query_is_shadowed demo_heap (VRef 0%nat) 1%nat 2%nat
              [VRef 3%nat] [] 5%nat None [("query", VRef 4%nat)]
              (VRef 4%nat) VUndefined eq_refl eq_refl eq_refl eq_refl)
    as (system & q & h1 & Hrun & Hproto & _ & _ & _ & Hall).
  - discriminate.
  - repeat constructor.
  - reflexivity.
  - reflexivity.
  - exists h1.
    assert (Hs : system = 6%nat) by (vm_compute in Hrun; congruence).
    subst system. auto.
Defined.

(** ** [update]: sorting by priority, then the tick *)

Lemma insert_by_perm x l : insert_by x l ≡ₚ x :: l.
Proof.
  induction l as [|y l IH]; simpl; [reflexivity|].
  destruct (decide (comparator x y ≤ 0)); [reflexivity|].
  rewrite IH. apply Permutation_swap.
Qed.

Lemma sort_by_perm l : sort_by l ≡ₚ l.
Proof.
  induction l as [|x l IH]; simpl; [reflexivity|].
  now rewrite insert_by_perm, IH.
Qed.

Lemma insert_by_sorted x l :
  StronglySorted (fun a b => a.1 ≤ b.1) l ->
  StronglySorted (fun a b => a.1 ≤ b.1) (insert_by x l).
Proof.
  induction 1 as [|y l Hl IH Hy]; simpl.
  - repeat constructor.
  - unfold comparator.
    destruct (decide (x.1 - y.1 ≤ 0)) as [Hle|Hgt].
    + constructor; [now constructor|].
      constructor; [lia|].
      eapply Forall_impl; [exact Hy|]. simpl. intros; lia.
    + constructor; [assumption|].
      rewrite insert_by_perm. constructor; [lia | assumption].
Qed.

Lemma sort_by_sorted l : StronglySorted (fun a b => a.1 ≤ b.1) (sort_by l).
Proof.
  induction l as [|x l IH]; simpl; [constructor|].
  now apply insert_by_sorted.
Qed.

(** Insertion passes only entries with a smaller key, so among the
    entries of one key the new one comes first and the others stay. *)
Lemma insert_by_stable (P : Z * value -> Prop) `{forall a, Decision (P a)}
    (n : Z) x l :
  (forall a, P a -> a.1 = n) ->
  filter P (insert_by x l) = filter P (x :: l).
Proof.
  intros HP. induction l as [|y l IH]; simpl; [reflexivity|].
  unfold comparator.
  destruct (decide (x.1 - y.1 ≤ 0)) as [Hle|Hgt]; [reflexivity|].
  rewrite (filter_cons P y), IH, !(filter_cons P x), (filter_cons P y).
  destruct (decide (P x)) as [Hx|Hx]; [|reflexivity].
  destruct (decide (P y)) as [Hy|Hy]; [|reflexivity].
  apply HP in Hx, Hy. lia.
Qed.

Lemma sort_by_stable (P : Z * value -> Prop) `{forall a, Decision (P a)}
    (n : Z) l :
  (forall a, P a -> a.1 = n) ->
  filter P (sort_by l) = filter P l.
Proof.
  intros HP. induction l as [|x l IH]; simpl; [reflexivity|].
  rewrite (insert_by_stable P n) by exact HP.
  now rewrite !(filter_cons P x), IH.
Qed.

Lemma priorities_Forall2 h xs ns :
  priorities h xs = Ret ns -> Forall2 (has_priority h) ns xs.
Proof.
  revert ns. induction xs as [|x xs IH]; simpl; intros ns.
  - intros [= <-]. constructor.
  - destruct (priority_of h x) as [n|e] eqn:Hx; [|discriminate].
    destruct (priorities h xs) as [ns'|e]; [|discriminate].
    intros [= <-]. constructor; [exact Hx | now apply IH].
Qed.

Lemma Forall2_priorities h xs ns :
  Forall2 (has_priority h) ns xs -> priorities h xs = Ret ns.
Proof.
  induction 1 as [|n x ns xs Hx _ IH]; simpl; [reflexivity|].
  unfold has_priority in Hx. now rewrite Hx, IH.
Qed.

Lemma has_priority_fun h n n' x :
  has_priority h n x -> has_priority h n' x -> n = n'.
Proof. unfold has_priority. congruence. Qed.

Lemma has_priority_ref h n x : has_priority h n x -> exists l, x = VRef l.
Proof.
  unfold has_priority, priority_of. destruct x; try discriminate. eauto.
Qed.

(** What sorting does to a registry whose entries have the priorities
    [ns]. *)
Lemma sorted_registry h ns ss :
  Forall2 (has_priority h) ns ss ->
  let order := (sort_by (zip ns ss)).*2 in
  order ≡ₚ ss
  /\ Forall2 (has_priority h) (sort_by (zip ns ss)).*1 order
  /\ StronglySorted Z.le (sort_by (zip ns ss)).*1
  /\ (forall n, filter (has_priority h n) order
                = filter (has_priority h n) ss).
Proof.
  intros Hns order.
  assert (Hlen : length ns = length ss) by (eapply Forall2_length; eauto).
  assert (Hzip : Forall (fun a => has_priority h a.1 a.2) (zip ns ss)).
  { clear order Hlen. induction Hns; simpl; constructor; auto. }
  assert (Hsorted : Forall (fun a => has_priority h a.1 a.2)
                      (sort_by (zip ns ss))).
  { now rewrite sort_by_perm. }
  repeat split.
  - subst order. rewrite sort_by_perm. rewrite snd_zip by lia. reflexivity.
  - subst order. clear -Hsorted.
    induction Hsorted as [|[n x] l Hx _ IH]; simpl; constructor; auto.
  - eapply StronglySorted_fmap; [|apply sort_by_sorted].
    intros a b Hab. exact Hab.
  - intros n. subst order.
    rewrite <- (snd_zip ns ss) at 2 by lia.
    rewrite <- !(filter_zip_snd (has_priority h n)).
    f_equal.
    rewrite (filter_agree (fun a => has_priority h n a.2)
               (fun a => a.1 = n /\ has_priority h n a.2) (sort_by _)).
    + rewrite (sort_by_stable _ n) by tauto.
      apply filter_agree.
      eapply Forall_impl; [exact Hzip|]. simpl. intros [k x] Hk. simpl in *.
      split; [tauto|]. intros Hn. split; [|assumption].
      eapply has_priority_fun; eauto.
    + eapply Forall_impl; [exact Hsorted|]. simpl. intros [k x] Hk. simpl in *.
      split; [|tauto]. intros Hn. split; [|assumption].
      eapply has_priority_fun; eauto.
Qed.

Lemma sort_by_priority_Ret h b xs ns :
  h !! b = Some (CArray xs) ->
  priorities h xs = Ret ns ->
  sort_by_priority (VRef b) h
  = Ret (tt, <[b := CArray (sort_by (zip ns xs)).*2]> h).
Proof.
  intros Hb Hns. unfold sort_by_priority.
  rewrite (bind_Ret _ _ _ _ _ (read_array_Ret _ _ _ Hb)).
  rewrite (bind_Ret _ _ _ _ _ (lift_Ret (fun h0 => priorities h0 xs) _ _ Hns)).
  exact (write_array_Ret _ _ _ _ Hb).
Qed.

(** The loop over an array, with a body that keeps an invariant under
    which the array is [xs]: it visits the entries from [i] on, once
    each and in order. *)
Lemma for_of_invariant {A} (Inv : heap -> Prop) (body : value -> M A)
    (f : value -> A) b xs :
  (forall h0, Inv h0 -> h0 !! b = Some (CArray xs)) ->
  (forall x h0, x ∈ xs -> Inv h0 ->
     exists h1, body x h0 = Ret (f x, h1) /\ Inv h1) ->
  forall fuel i h,
    Inv h ->
    (length xs - i <= fuel)%nat ->
    exists h', for_of fuel (VRef b) i body h = Ret (f <$> drop i xs, h')
               /\ Inv h'.
Proof.
  intros Hreg Hbody. induction fuel as [|fuel IH]; intros i h Hinv Hfuel.
  - exists h. split; [|assumption]. simpl.
    rewrite (bind_Ret _ _ _ _ _ (read_array_Ret _ _ _ (Hreg h Hinv))).
    rewrite (lookup_ge_None_2 xs i) by lia.
    now rewrite drop_ge by lia.
  - simpl. rewrite (bind_Ret _ _ _ _ _ (read_array_Ret _ _ _ (Hreg h Hinv))).
    destruct (xs !! i) as [x|] eqn:Hx.
    + destruct (Hbody x h (list_elem_of_lookup_2 _ _ _ Hx) Hinv)
        as (h1 & Hrun & Hinv1).
      destruct (IH (S i) h1 Hinv1) as (h' & Hrest & Hinv'); [lia|].
      exists h'. split; [|assumption].
      rewrite (bind_Ret _ _ _ _ _ Hrun), (bind_Ret _ _ _ _ _ Hrest).
      unfold ret. now rewrite (drop_S _ _ _ Hx).
    + exists h. split; [|assumption].
      apply lookup_ge_None in Hx. now rewrite drop_ge by lia.
Qed.

(** The tick, on a registry of systems with numeric priorities. The
    [update] methods are known by an invariant [Inv] of the state: it
    holds when the registry has been sorted, and from a state where it
    holds every [update] returns, in a state where it holds again and
    the registry is as it was. *)
Lemma update_run (Inv : heap -> Prop)
    update_method fuel h this b ss ns delta time :
  own_field h this "systems" = Some (VRef b) ->
  h !! b = Some (CArray ss) ->
  Forall2 (has_priority h) ns ss ->
  (length ss <= fuel)%nat ->
  Inv (<[b := CArray (sort_by (zip ns ss)).*2]> h) ->
  (forall system h0,
      system ∈ ss -> Inv h0 ->
      exists h1, update_method system delta time h0 = Ret (tt, h1)
                 /\ Inv h1 /\ h1 !! b = h0 !! b) ->
  exists h',
    EntityManager_update update_method fuel this delta time h
    = Ret ((fun system => Call system delta time)
             <$> (sort_by (zip ns ss)).*2, h')
    /\ h' !! b = Some (CArray (sort_by (zip ns ss)).*2)
    /\ Inv h'.
Proof.
  intros Hsys Hb Hns Hfuel Hinv Hrun.
  destruct (sorted_registry h ns ss Hns) as (Hperm & Hkeys & _).
  set (order := (sort_by (zip ns ss)).*2) in *.
  set (hs := <[b := CArray order]> h) in *.
  assert (Hbs : hs !! b = Some (CArray order)).
  { apply list_lookup_insert_eq. eapply lookup_lt_Some; eauto. }
  assert (Hsys' : own_field hs this "systems" = Some (VRef b)).
  { unfold own_field in *. destruct this as [| | | | |m]; try discriminate.
    destruct (decide (m = b)) as [->|Hne].
    - rewrite Hb in Hsys. discriminate.
    - subst hs. now rewrite list_lookup_insert_ne by congruence. }
  destruct (for_of_invariant
              (fun h0 => Inv h0 /\ h0 !! b = Some (CArray order))
              (fun system =>
                 System__update update_method system delta time ;;
                 ret (Call system delta time))
              (fun system => Call system delta time) b order)
    with (fuel := fuel) (i := 0%nat) (h := hs) as (h' & Hloop & Hinv' & Hb').
  - now intros h0 [_ Hb0].
  - intros x h0 Hx [Hinv0 Hb0].
    assert (Hin : x ∈ ss) by now rewrite <- Hperm.
    destruct (Hrun x h0 Hin Hinv0) as (h1 & Hx1 & Hinv1 & Hb1).
    exists h1. split; [|split; [assumption | congruence]].
    apply (list_elem_of_lookup_1 order) in Hx as [i Hi].
    destruct (Forall2_lookup_r _ _ _ _ _ Hkeys Hi) as (n & _ & Hn).
    apply has_priority_ref in Hn as [l ->].
    unfold System__update. now rewrite (bind_Ret _ _ _ _ _ Hx1).
  - now split.
  - rewrite (Permutation_length Hperm). lia.
  - exists h'. split; [|now split].
    unfold EntityManager_update.
    rewrite (bind_Ret _ _ _ _ _ (get_Ret _ _ _ _ (own_field_Get _ _ _ _ Hsys))).
    rewrite (bind_Ret _ _ _ _ _
               (sort_by_priority_Ret _ _ _ _ Hb (Forall2_priorities _ _ _ Hns))).
    fold order. fold hs.
    rewrite (bind_Ret _ _ _ _ _ (get_Ret _ _ _ _ (own_field_Get _ _ _ _ Hsys'))).
    rewrite Hloop. now rewrite drop_0.
Qed.

(** The states that [counting_update] reaches are closed under it, for
    systems that are registered in them. *)
Ltac counting_update_returns :=
  let system := fresh "system" in
  let h0 := fresh "h0" in
  let Hin := fresh "Hin" in
  let Hinv := fresh "Hinv" in
  intros system h0 Hin Hinv; cbv in Hinv;
  repeat (apply elem_of_cons in Hin as [->|Hin]);
  try (now apply elem_of_nil in Hin);
  repeat (destruct Hinv as [<-|Hinv]); try contradiction;
  (eexists; split; [vm_compute; reflexivity|];
   split; [cbv; repeat (first [left; reflexivity | right]) | reflexivity]).

(** C5, as amended. [update(delta, time)] invokes the systems of the
    registry once per entry, each with [delta] and [time] as given, in
    non-decreasing order of the priorities they have when [update]
    starts; systems of equal priority are invoked in the relative order
    they have in the registry at that moment; and the registry is left
    in the order of invocation. The systems have a number under
    [priority]; their [update] methods are any that return and leave the
    registry as it is, in the states of an invariant [Inv] that they
    keep and that holds once the registry is sorted. *)
Theorem update_runs_systems_by_priority
    (Inv : heap -> Prop) update_method fuel h this b ss ns delta time :
  own_field h this "systems" = Some (VRef b) ->
  h !! b = Some (CArray ss) ->
  Forall2 (has_priority h) ns ss ->
  (length ss <= fuel)%nat ->
  (forall hs, sort_by_priority (VRef b) h = Ret (tt, hs) -> Inv hs) ->
  (forall system h0,
      system ∈ ss -> Inv h0 ->
      exists h1, update_method system delta time h0 = Ret (tt, h1)
                 /\ Inv h1 /\ h1 !! b = h0 !! b) ->
  exists order keys h',
    EntityManager_update update_method fuel this delta time h
    = Ret ((fun system => Call system delta time) <$> order, h')
    /\ order ≡ₚ ss
    /\ Forall2 (has_priority h) keys order
    /\ StronglySorted Z.le keys
    /\ (forall n, filter (has_priority h n) order
                  = filter (has_priority h n) ss)
    /\ h' !! b = Some (CArray order).
Proof.
  intros Hsys Hb Hns Hfuel Hinv Hrun.
  destruct (sorted_registry h ns ss Hns) as (Hperm & Hkeys & Hsorted & Hstable).
  destruct (update_run Inv update_method fuel h this b ss ns delta time
              Hsys Hb Hns Hfuel) as (h' & Htick & Hb' & _).
  - apply Hinv.
    exact (sort_by_priority_Ret _ _ _ _ Hb (Forall2_priorities _ _ _ Hns)).
  - exact Hrun.
  - exists (sort_by (zip ns ss)).*2, (sort_by (zip ns ss)).*1, h'.
    repeat split; assumption.
Qed.

(** C5, the claim as stated fails: [first] was registered before [second]
    and both have priority 1 when the second tick starts, yet that tick
    invokes [second] before [first]. *)
Lemma update_ties_ignore_registration_order :
  priority_changed_after_tick []
  = Ret ((VRef 0%nat, VRef 3%nat, VRef 5%nat), second_tick_heap)
  /\ has_priority second_tick_heap 1 (VRef 3%nat)
  /\ has_priority second_tick_heap 1 (VRef 5%nat)
  /\ exists h',
       EntityManager_update System_update 2 (VRef 0%nat) (VNum 16) (VNum 32)
         second_tick_heap
       = Ret ([Call (VRef 5%nat) (VNum 16) (VNum 32);
               Call (VRef 3%nat) (VNum 16) (VNum 32)], h').
Proof.
  repeat split; try reflexivity.
  eexists. vm_compute. reflexivity.
Qed.

Lemma update_runs_systems_by_priority_witness :
  exists order keys h',
    EntityManager_update counting_update 2 (VRef 0%nat) (VNum 16) (VNum 32)
      second_tick_heap
    = Ret ((fun system => Call system (VNum 16) (VNum 32)) <$> order, h')
    /\ order ≡ₚ [VRef 5%nat; VRef 3%nat]
    /\ Forall2 (has_priority second_tick_heap) keys order
    /\ StronglySorted Z.le keys
    /\ (forall n, filter (has_priority second_tick_heap n) order
                  = filter (has_priority second_tick_heap n)
                      [VRef 5%nat; VRef 3%nat])
    /\ h' !! 2%nat = Some (CArray order).
Proof.
  apply (update_runs_systems_by_priority
           (fun h0 =>
              In h0 (counting_states second_tick_heap
                       [VRef 5%nat; VRef 3%nat]))
           counting_update 2 second_tick_heap
           (VRef 0%nat) 2%nat [VRef 5%nat; VRef 3%nat] [1; 1]
           (VNum 16) (VNum 32) eq_refl eq_refl).
  - repeat constructor.
  - simpl. lia.
  - intros hs [= <-]. left. reflexivity.
  - counting_update_returns.
Defined.

(** ** [assign] *)

Lemma elem_of_keys_set_prop k k' v ps :
  k ∈ keys (set_prop k' v ps) -> k = k' \/ k ∈ keys ps.
Proof.
  rewrite keys_set_prop. case decide; intros _; [now right|].
  rewrite elem_of_app, list_elem_of_singleton. tauto.
Qed.

Lemma elem_of_keys_overlay k dst src :
  k ∈ keys (overlay dst src) -> k ∈ keys dst \/ k ∈ keys src.
Proof.
  unfold overlay. revert dst.
  induction src as [|[k0 v0] src IH]; intros dst; simpl; [now left|].
  intros [Hk|Hk]%IH; [|right; now right].
  apply elem_of_keys_set_prop in Hk as [->|Hk]; [right; left | now left].
Qed.

Lemma not_elem_of_keys k ps : k ∉ keys ps <-> assoc k ps = None.
Proof.
  rewrite elem_of_keys. destruct (assoc k ps); split; try done.
  intros H. exfalso. apply H. eauto.
Qed.

Lemma index_props_no_proto i xs : "__proto__" ∉ keys (index_props_from i xs).
Proof.
  revert i. induction xs as [|x xs IH]; intros i; simpl.
  - apply not_elem_of_nil.
  - apply not_elem_of_cons. split; [|apply IH].
    intros H. now apply (index_name_digits i).
Qed.

Lemma own_enumerable_no_proto h v :
  no_own_proto h -> "__proto__" ∉ keys (own_enumerable h v).
Proof.
  intros Hh. unfold own_enumerable.
  destruct v as [| | | |s|l]; try apply not_elem_of_nil.
  - apply index_props_no_proto.
  - destruct (h !! l) as [[proto ps|xs]|] eqn:El.
    + exact (Forall_lookup_1 _ _ _ _ Hh El).
    + apply index_props_no_proto.
    + apply not_elem_of_nil.
Qed.

Lemma no_own_proto_insert h e proto ps :
  no_own_proto h -> "__proto__" ∉ keys ps ->
  no_own_proto (<[e := CObject proto ps]> h).
Proof. intros Hh Hps. now apply Forall_insert. Qed.

Lemma no_own_proto_alloc h proto ps :
  no_own_proto h -> "__proto__" ∉ keys ps ->
  no_own_proto (h ++ [CObject proto ps]).
Proof. intros Hh Hps. apply Forall_app. split; [exact Hh|]. now constructor. Qed.

Lemma no_own_proto_array h a xs :
  no_own_proto h -> no_own_proto (<[a := CArray xs]> h).
Proof. intros Hh. now apply Forall_insert. Qed.

Lemma no_proto_set_prop k v ps :
  k <> "__proto__" -> "__proto__" ∉ keys ps ->
  "__proto__" ∉ keys (set_prop k v ps).
Proof.
  intros Hk Hps [H|H]%elem_of_keys_set_prop; [congruence | contradiction].
Qed.

Lemma no_proto_overlay h a b :
  no_own_proto h ->
  "__proto__" ∉ keys (overlay (overlay [] (own_enumerable h a))
                        (own_enumerable h b)).
Proof.
  intros Hh [[H|H]%elem_of_keys_overlay|H]%elem_of_keys_overlay.
  - now apply elem_of_nil in H.
  - now apply (own_enumerable_no_proto h a).
  - now apply (own_enumerable_no_proto h b).
Qed.

Lemma assign_new_Ret h a b :
  no_own_proto h ->
  assign_new a b h
  = Ret (VRef (length h),
         h ++ [CObject None
                 (overlay (overlay [] (own_enumerable h a))
                    (own_enumerable h b))]).
Proof.
  intros Hh. unfold assign_new. rewrite decide_False; [reflexivity|].
  intros [H|H]; now apply own_enumerable_no_proto in H.
Qed.

(** On an object that has no field named [hasOwnProperty], the call of
    [hasOwnProperty] reaches the built-in method. *)
Lemma hasOwnProperty_plain h e ps key :
  h !! e = Some (CObject None ps) ->
  assoc "hasOwnProperty" ps = None ->
  hasOwnProperty (VRef e) key h
  = Ret (bool_decide (is_Some (assoc key ps)), h).
Proof.
  intros Ee Hown.
  unfold hasOwnProperty, properties_along, Object_prototype_hasOwnProperty,
    own_enumerable, own_length.
  destruct (length h); simpl; rewrite Ee; simpl; rewrite Hown;
    now rewrite andb_false_r, orb_false_r.
Qed.

(** A field named [hasOwnProperty] hides the method: the call throws. *)
Lemma hasOwnProperty_hidden h e proto ps v key :
  h !! e = Some (CObject proto ps) ->
  assoc "hasOwnProperty" ps = Some v ->
  hasOwnProperty (VRef e) key h = Throw TypeError.
Proof.
  intros Ee Hown. unfold hasOwnProperty, properties_along.
  destruct (chain_own (length h) h e proto ps Ee) as [rest ->].
  simpl. now rewrite Hown.
Qed.

Lemma replace_field_plain h e ps f fps key :
  h !! e = Some (CObject None ps) ->
  h !! f = Some (CObject None fps) ->
  e <> f ->
  assoc "hasOwnProperty" ps = None ->
  key <> "__proto__" ->
  exists extra,
    replace_field (VRef e) (VRef f) key h
    = Ret (tt, <[e := CObject None
                        (set_prop key (default VUndefined (assoc key fps)) ps)]>
                 h ++ extra)
    /\ (extra = [] \/ extra = [CObject None []]).
Proof.
  intros Ee Ef Hne Hown Hkey.
  assert (He : (e < length h)%nat) by (eapply lookup_lt_Some; eauto).
  assert (Hf : (f < length h)%nat) by (eapply lookup_lt_Some; eauto).
  unfold replace_field.
  rewrite (bind_Ret _ _ _ _ _ (hasOwnProperty_plain h e ps key Ee Hown)).
  destruct (bool_decide (is_Some (assoc key ps))).
  - exists []. split; [|now left].
    rewrite (bind_Ret _ _ h tt h) by reflexivity.
    rewrite (bind_Ret _ _ _ _ _
               (get_Ret _ _ _ _ (Get_plain _ _ _ _ Ef Hkey))).
    rewrite app_nil_r. exact (put_Ret _ _ _ _ _ _ Ee Hkey).
  - exists [CObject None []]. split; [|now right].
    erewrite (bind_Ret (let! placeholder := alloc _ in _));
      [|unfold alloc at 1; erewrite bind_Ret by reflexivity;
        exact (put_old _ _ _ _ _ _ _ Ee Hkey)].
    erewrite (bind_Ret (get _ _));
      [|apply get_Ret, Get_plain; [|exact Hkey];
        rewrite lookup_app_l by (rewrite length_insert; exact Hf);
        rewrite list_lookup_insert_ne by exact Hne; exact Ef].
    erewrite put_old;
      [|apply list_lookup_insert_eq; exact He | exact Hkey].
    now rewrite list_insert_insert_eq, set_prop_set_prop.
Qed.

Lemma assign_key_plain h e ps f fps key :
  h !! e = Some (CObject None ps) ->
  h !! f = Some (CObject None fps) ->
  e <> f ->
  no_own_proto h ->
  assoc "hasOwnProperty" ps = None ->
  key <> "__proto__" ->
  let incoming := default VUndefined (assoc key fps) in
  let current := default VUndefined (assoc key ps) in
  exists v extra,
    assign_key (VRef e) (VRef f) key h
    = Ret (tt, <[e := CObject None (set_prop key v ps)]> h ++ extra)
    /\ no_own_proto (<[e := CObject None (set_prop key v ps)]> h ++ extra)
    /\ ((typeof incoming = "object" /\ typeof current = "object" /\
         v = VRef (length h) /\
         extra = [CObject None
                    (overlay (overlay [] (own_enumerable h current))
                       (own_enumerable h incoming))])
        \/ (~ (typeof incoming = "object" /\ typeof current = "object") /\
            v = incoming /\ (extra = [] \/ extra = [CObject None []]))).
Proof.
  intros Ee Ef Hne Hh Hown Hkey incoming current.
  destruct (replace_field_plain h e ps f fps key Ee Ef Hne Hown Hkey)
    as (extra & Hrep & Hextra).
  assert (Hps : "__proto__" ∉ keys ps) by exact (Forall_lookup_1 _ _ _ _ Hh Ee).
  assert (Hcell : forall v, no_own_proto
                              (<[e := CObject None (set_prop key v ps)]> h)).
  { intros v. apply no_own_proto_insert; [exact Hh|].
    now apply no_proto_set_prop. }
  assert (Hreplaced : no_own_proto
                        (<[e := CObject None (set_prop key incoming ps)]> h
                         ++ extra)).
  { destruct Hextra as [->| ->].
    - now rewrite app_nil_r.
    - apply no_own_proto_alloc; [apply Hcell | apply not_elem_of_nil]. }
  unfold assign_key.
  rewrite (bind_Ret _ _ _ _ _
             (get_Ret _ _ _ _ (Get_plain _ _ _ _ Ef Hkey))).
  fold incoming.
  destruct (decide (typeof incoming = "object")) as [Hi|Hi].
  - rewrite (bind_Ret _ _ _ _ _
               (get_Ret _ _ _ _ (Get_plain _ _ _ _ Ee Hkey))).
    fold current.
    destruct (decide (typeof current = "object")) as [Hc|Hc].
    + eexists _, _. split; [|split; [|left; repeat split; assumption]].
      * rewrite (bind_Ret _ _ _ _ _ (assign_new_Ret h current incoming Hh)).
        exact (put_old _ _ _ _ _ _ _ Ee Hkey).
      * apply no_own_proto_alloc; [apply Hcell|].
        now apply no_proto_overlay.
    + exists incoming, extra. split; [exact Hrep|]. split; [exact Hreplaced|].
      right. split; [tauto | auto].
  - exists incoming, extra. split; [exact Hrep|]. split; [exact Hreplaced|].
    right. split; [tauto | auto].
Qed.

(** What a run over some keys of the fragment leaves in place: the
    entity is still a plain object, it has lost no field, the fields
    under other keys hold what they held, and every other cell that
    existed is as it was. *)
Lemma assign_keys_frame e f fps ks :
  e <> f ->
  "__proto__" ∉ ks ->
  "hasOwnProperty" ∉ ks ->
  forall h ps,
    h !! e = Some (CObject None ps) ->
    h !! f = Some (CObject None fps) ->
    no_own_proto h ->
    assoc "hasOwnProperty" ps = None ->
    exists h' ps',
      forM ks (assign_key (VRef e) (VRef f)) h = Ret (tt, h')
      /\ h' !! e = Some (CObject None ps')
      /\ (length h <= length h')%nat
      /\ (forall l, (l < length h)%nat -> l <> e -> h' !! l = h !! l)
      /\ (forall k, k ∉ ks -> assoc k ps' = assoc k ps)
      /\ (forall k, is_Some (assoc k ps) -> is_Some (assoc k ps'))
      /\ no_own_proto h'.
Proof.
  intros Hne. induction ks as [|key ks IH];
    intros Hproto Hhas h ps Ee Ef Hh Hown.
  - exists h, ps. simpl. repeat split; auto.
  - apply not_elem_of_cons in Hproto as [Hkey Hproto].
    apply not_elem_of_cons in Hhas as [Hkey' Hhas].
    destruct (assign_key_plain h e ps f fps key Ee Ef Hne Hh Hown)
      as (v & extra & Hstep & Hh1 & _); [congruence|].
    assert (He : (e < length h)%nat) by (eapply lookup_lt_Some; eauto).
    assert (Hf : (f < length h)%nat) by (eapply lookup_lt_Some; eauto).
    set (h1 := <[e := CObject None (set_prop key v ps)]> h ++ extra) in *.
    assert (Hold : forall l, (l < length h)%nat -> l <> e -> h1 !! l = h !! l).
    { intros l Hl Hle. subst h1.
      rewrite lookup_app_l by (now rewrite length_insert).
      now rewrite list_lookup_insert_ne by congruence. }
    assert (Ee1 : h1 !! e = Some (CObject None (set_prop key v ps))).
    { subst h1. rewrite lookup_app_l by (now rewrite length_insert).
      now apply list_lookup_insert_eq. }
    assert (Hlen : (length h <= length h1)%nat).
    { subst h1. rewrite length_app, length_insert. lia. }
    destruct (IH Hproto Hhas h1 _ Ee1)
      as (h' & ps' & Hrun & Ee' & Hlen' & Hold' & Hoth & Hkeep & Hh').
    { rewrite Hold; auto. }
    { exact Hh1. }
    { rewrite assoc_set_prop_ne by congruence. exact Hown. }
    exists h', ps'. simpl. rewrite (bind_Ret _ _ _ _ _ Hstep).
    repeat split; auto.
    + lia.
    + intros l Hl Hle. rewrite Hold' by (auto; lia). now apply Hold.
    + intros k Hk. apply not_elem_of_cons in Hk as [Hk1 Hk2].
      rewrite Hoth by assumption. now apply assoc_set_prop_ne.
    + intros k Hk. apply Hkeep.
      destruct (decide (key = k)) as [->|Hkk].
      * rewrite assoc_set_prop_eq. eauto.
      * now rewrite assoc_set_prop_ne.
Qed.

Lemma Entity_assign_one this component h :
  Entity_assign this [component] h
  = (forM (for_in_keys h component) (assign_key this component) ;; ret this) h.
Proof.
  unfold Entity_assign, assign_component. simpl.
  unfold bind, lift, ret.
  destruct (forM (for_in_keys h component) (assign_key this component) h)
    as [[[] h1]|err]; reflexivity.
Qed.

(** The whole of [assign] for one plain fragment, as far as the other
    keys and the other cells go. *)
Lemma assign_fragment_frame h e eps f fps :
  h !! e = Some (CObject None eps) ->
  h !! f = Some (CObject None fps) ->
  e <> f ->
  NoDup (keys fps) ->
  no_own_proto h ->
  "hasOwnProperty" ∉ keys eps ->
  "hasOwnProperty" ∉ keys fps ->
  exists h' eps',
    Entity_assign (VRef e) [VRef f] h = Ret (VRef e, h')
    /\ h' !! e = Some (CObject None eps')
    /\ (length h <= length h')%nat
    /\ (forall l, (l < length h)%nat -> l <> e -> h' !! l = h !! l)
    /\ (forall k, k ∉ keys fps -> assoc k eps' = assoc k eps)
    /\ (forall k, is_Some (assoc k eps) -> is_Some (assoc k eps'))
    /\ no_own_proto h'.
Proof.
  intros Ee Ef Hne Hnd Hh Hown Hhas.
  destruct (assign_keys_frame e f fps (enumeration (keys fps)) Hne)
    with (h := h) (ps := eps)
    as (h' & eps' & Hrun & Ee' & Hlen & Hold & Hoth & Hkeep & Hh');
    try assumption.
  - rewrite elem_of_enumeration. exact (Forall_lookup_1 _ _ _ _ Hh Ef).
  - now rewrite elem_of_enumeration.
  - now apply not_elem_of_keys.
  - exists h', eps'. repeat split; auto.
    + rewrite Entity_assign_one, (for_in_keys_plain _ _ _ Ef Hnd).
      now rewrite (bind_Ret _ _ _ _ _ Hrun).
    + intros k Hk. apply Hoth. now rewrite elem_of_enumeration.
Qed.

(** The field under one key [k] of a plain fragment, after [assign]:
    [h1] is the heap in which the loop reaches [k]. *)
Lemma assign_fragment_key h e eps f fps k :
  h !! e = Some (CObject None eps) ->
  h !! f = Some (CObject None fps) ->
  e <> f ->
  NoDup (keys fps) ->
  no_own_proto h ->
  "hasOwnProperty" ∉ keys eps ->
  "hasOwnProperty" ∉ keys fps ->
  k ∈ keys fps ->
  let incoming := default VUndefined (assoc k fps) in
  let current := default VUndefined (assoc k eps) in
  exists h' eps' h1,
    Entity_assign (VRef e) [VRef f] h = Ret (VRef e, h')
    /\ h' !! e = Some (CObject None eps')
    /\ (forall l, (l < length h)%nat -> l <> e -> h' !! l = h !! l)
    /\ (length h <= length h1)%nat
    /\ (forall l, (l < length h)%nat -> l <> e -> h1 !! l = h !! l)
    /\ ((typeof incoming = "object" /\ typeof current = "object" /\
         assoc k eps' = Some (VRef (length h1)) /\
         h' !! (length h1)
         = Some (CObject None
                   (overlay (overlay [] (own_enumerable h1 current))
                      (own_enumerable h1 incoming))))
        \/ (~ (typeof incoming = "object" /\ typeof current = "object") /\
            assoc k eps' = Some incoming)).
Proof.
  intros Ee Ef Hne Hnd Hh Hown Hhas Hk incoming current.
  assert (Hfproto : "__proto__" ∉ keys fps)
    by exact (Forall_lookup_1 _ _ _ _ Hh Ef).
  apply elem_of_enumeration, list_elem_of_split in Hk
    as (before & after & Hsplit).
  assert (Hall : forall k', k' ∈ before ++ k :: after -> k' ∈ keys fps).
  { intros k'. rewrite <- Hsplit. apply elem_of_enumeration. }
  assert (Hkb : (k ∉ before) /\ (k ∉ after)).
  { apply NoDup_enumeration in Hnd. rewrite Hsplit in Hnd.
    apply NoDup_app in Hnd as (_ & Hb & Ha).
    apply NoDup_cons in Ha as [Ha _]. split; [|assumption].
    intros Hin. apply (Hb k Hin). left. }
  destruct Hkb as [Hkb Hka].
  assert (Hordinary : forall name, name ∉ keys fps ->
            (name ∉ before) /\ name <> k /\ (name ∉ after)).
  { intros name Hname. repeat split; intros H; apply Hname, Hall.
    - apply elem_of_app. now left.
    - subst name. apply elem_of_app. right. left.
    - apply elem_of_app. right. now right. }
  destruct (Hordinary _ Hfproto) as (Hpb & Hpk & Hpa).
  destruct (Hordinary _ Hhas) as (Hhb & Hhk & Hha).
  assert (He : (e < length h)%nat) by (eapply lookup_lt_Some; eauto).
  assert (Hf : (f < length h)%nat) by (eapply lookup_lt_Some; eauto).
  apply not_elem_of_keys in Hown.
  destruct (assign_keys_frame e f fps before Hne Hpb Hhb h eps Ee Ef Hh Hown)
    as (h1 & eps1 & Hrun1 & Ee1 & Hlen1 & Hold1 & Hoth1 & _ & Hh1).
  assert (Ef1 : h1 !! f = Some (CObject None fps)) by (rewrite Hold1; auto).
  assert (Hown1 : assoc "hasOwnProperty" eps1 = None)
    by now rewrite Hoth1.
  destruct (assign_key_plain h1 e eps1 f fps k Ee1 Ef1 Hne Hh1 Hown1)
    as (v & extra & Hstep & Hh2 & Hcase); [congruence|].
  rewrite (Hoth1 k Hkb) in Hcase. fold incoming current in Hcase.
  set (h2 := <[e := CObject None (set_prop k v eps1)]> h1 ++ extra) in *.
  assert (He1 : (e < length h1)%nat) by lia.
  assert (Ee2 : h2 !! e = Some (CObject None (set_prop k v eps1))).
  { subst h2. rewrite lookup_app_l by (now rewrite length_insert).
    now apply list_lookup_insert_eq. }
  assert (Hold2 : forall l, (l < length h1)%nat -> l <> e -> h2 !! l = h1 !! l).
  { intros l Hl Hle. subst h2.
    rewrite lookup_app_l by (now rewrite length_insert).
    now rewrite list_lookup_insert_ne by congruence. }
  assert (Hlen2 : (length h2 = length h1 + length extra)%nat).
  { subst h2. now rewrite length_app, length_insert. }
  destruct (assign_keys_frame e f fps after Hne Hpa Hha h2 _ Ee2)
    as (h' & eps' & Hrun3 & Ee' & Hlen3 & Hold3 & Hoth3 & _).
  { rewrite Hold2; auto; lia. }
  { exact Hh2. }
  { rewrite assoc_set_prop_ne by congruence. exact Hown1. }
  exists h', eps', h1.
  split; [|split; [exact Ee'|split; [|split; [exact Hlen1|split; [exact Hold1|]]]]].
  - rewrite Entity_assign_one, (for_in_keys_plain _ _ _ Ef Hnd), Hsplit.
    unfold bind at 1. rewrite forM_app.
    rewrite (bind_Ret _ _ _ _ _ Hrun1). simpl.
    rewrite (bind_Ret _ _ _ _ _ Hstep). fold h2. now rewrite Hrun3.
  - intros l Hl Hle.
    rewrite Hold3, Hold2, Hold1; auto; lia.
  - rewrite (Hoth3 k Hka), assoc_set_prop_eq.
    destruct Hcase as [(Hi & Hc & -> & ->)|(Hnot & -> & _)].
    + left. repeat split; auto.
      rewrite Hold3; [| rewrite Hlen2; simpl; lia | lia].
      subst h2. rewrite lookup_app_r by (now rewrite length_insert).
      now rewrite length_insert, Nat.sub_diag.
    + right. auto.
Qed.



(** When the test of [assign] fails for a key of the fragment (the
    incoming value or the current one has a [typeof] other than
    ["object"]), the field holds the incoming value afterwards. A value
    other than [null] has the [typeof] ["object"] exactly when it is a
    container. *)
Lemma assign_replaces_otherwise h e eps f fps k incoming :
  h !! e = Some (CObject None eps) ->
  h !! f = Some (CObject None fps) ->
  e <> f ->
  NoDup (keys fps) ->
  no_own_proto h ->
  "hasOwnProperty" ∉ keys eps ->
  "hasOwnProperty" ∉ keys fps ->
  assoc k fps = Some incoming ->
  ~ (typeof incoming = "object"
     /\ typeof (default VUndefined (assoc k eps)) = "object") ->
  exists h',
    Entity_assign (VRef e) [VRef f] h = Ret (VRef e, h')
    /\ own_field h' (VRef e) k = Some incoming.
Proof.
  intros Ee Ef Hne Hnd Hh Hown Hhas Hinc Hnot.
  assert (Hk : k ∈ keys fps) by (apply elem_of_keys; rewrite Hinc; eauto).
  destruct (assign_fragment_key h e eps f fps k Ee Ef Hne Hnd Hh Hown Hhas Hk)
    as (h' & eps' & h1 & Hrun & Ee' & _ & _ & _ & Hcase).
  rewrite Hinc in Hcase. cbn [from_option id] in Hcase.
  destruct Hcase as [(Hi & Hc & _)|[_ Hfield]]; [tauto|].
  exists h'. split; [exact Hrun|].
  unfold own_field. now rewrite Ee'.
Qed.

(** [assign(c, ...cs)] is [assign(c)] and then [assign(...cs)]. *)
Lemma Entity_assign_cons this component components h :
  Entity_assign this (component :: components) h
  = (Entity_assign this [component] ;; Entity_assign this components) h.
Proof.
  unfold Entity_assign. simpl. unfold bind, ret.
  destruct (assign_component this component h) as [[[] h1]|e]; reflexivity.
Qed.

(** [assign] returns its receiver. *)
Lemma assign_returns_this this components h r h' :
  Entity_assign this components h = Ret (r, h') -> r = this.
Proof.
  unfold Entity_assign. intros H.
  apply bind_inv in H as ([] & h1 & _ & H). now injection H as <- _.
Qed.

(** C3, where the code departs from the claim: the incoming value [null]
    is not a container, yet assigning [{k: null}] to an entity that owns
    [{a: 1}] under [k] does not make the field [null]; the field refers
    to a new object [{a: 1}]. The entity is returned. *)
Lemma assign_null_onto_container :
  exists h',
    Entity_assign (VRef 1%nat) [VRef 2%nat] null_onto_container_heap
    = Ret (VRef 1%nat, h')
    /\ own_field h' (VRef 1%nat) "k" = Some (VRef 3%nat)
    /\ h' !! 3%nat = Some (CObject None [("a", VNum 1)])
    /\ own_field h' (VRef 1%nat) "k" <> Some VNull.
Proof.
  eexists. split; [reflexivity|].
  split; [reflexivity|]. split; [reflexivity | discriminate].
Qed.

(** Apart from [null], assigning a fragment again changes nothing that
    can be seen: for a fragment with distinct keys none of whose values
    is [null] (or the entity itself), the second [assign] returns too,
    the entity has the same fields after it as after the first, each
    holding a value alike the one it held, and no other existing cell
    changes. A field whose incoming value is a container refers to a
    new object after each call. *)
Lemma assign_twice_without_null h e eps f fps :
  h !! e = Some (CObject None eps) ->
  h !! f = Some (CObject None fps) ->
  e <> f ->
  NoDup (keys fps) ->
  no_own_proto h ->
  "hasOwnProperty" ∉ keys eps ->
  "hasOwnProperty" ∉ keys fps ->
  Forall (fun kv => kv.2 <> VNull /\ kv.2 <> VRef e /\ allocated h kv.2
                    /\ NoDup (keys (own_enumerable h kv.2))) fps ->
  exists h1 h2 eps1 eps2,
    Entity_assign (VRef e) [VRef f] h = Ret (VRef e, h1)
    /\ Entity_assign (VRef e) [VRef f] h1 = Ret (VRef e, h2)
    /\ h1 !! e = Some (CObject None eps1)
    /\ h2 !! e = Some (CObject None eps2)
    /\ (forall l, (l < length h1)%nat -> l <> e -> h2 !! l = h1 !! l)
    /\ (forall k, is_Some (assoc k eps1) <-> is_Some (assoc k eps2))
    /\ (forall k v1, assoc k eps1 = Some v1 ->
          exists v2, assoc k eps2 = Some v2 /\ alike h1 h2 v1 v2)
    /\ (forall k i, assoc k fps = Some (VRef i) ->
          exists m, assoc k eps2 = Some (VRef m) /\ h1 !! m = None).
Proof.
  intros Ee Ef Hne Hnd Hh Hown Hhas Hfps.
  assert (He : (e < length h)%nat) by (eapply lookup_lt_Some; eauto).
  assert (Hf : (f < length h)%nat) by (eapply lookup_lt_Some; eauto).
  destruct (assign_fragment_frame h e eps f fps Ee Ef Hne Hnd Hh Hown Hhas)
    as (h1 & eps1 & Hrun1 & Ee1 & Hlen1 & Hold1 & Hoth1 & Hown1 & Hh1).
  assert (Ef1 : h1 !! f = Some (CObject None fps)) by (rewrite Hold1; auto).
  assert (Hhas1 : "hasOwnProperty" ∉ keys eps1).
  { apply not_elem_of_keys. rewrite Hoth1 by assumption.
    now apply not_elem_of_keys. }
  destruct (assign_fragment_frame h1 e eps1 f fps Ee1 Ef1 Hne Hnd
              Hh1 Hhas1 Hhas)
    as (h2 & eps2 & Hrun2 & Ee2 & Hlen2 & Hold2 & Hoth2 & Hown2 & _).
  (* the field under a key of the fragment, after each call *)
  assert (Hkey : forall k incoming,
             assoc k fps = Some incoming ->
             exists v1 v2,
               assoc k eps1 = Some v1 /\ assoc k eps2 = Some v2
               /\ alike h1 h2 v1 v2
               /\ (forall i, incoming = VRef i ->
                     exists m, v2 = VRef m /\ h1 !! m = None)).
  { intros k incoming Hinc.
    assert (Hk : k ∈ keys fps) by (apply elem_of_keys; rewrite Hinc; eauto).
    rewrite Forall_forall in Hfps.
    destruct (Hfps _ (assoc_elem_of _ _ _ Hinc)) as (Hnull & Hself & Hal & Hndi).
    cbn [snd] in Hnull, Hself, Hal, Hndi.
    destruct (assign_fragment_key h e eps f fps k Ee Ef Hne Hnd
                Hh Hown Hhas Hk)
      as (h1' & eps1' & hm1 & Hrun1' & Ee1' & _ & Hlm1 & Holdm1 & Hcase1).
    rewrite Hrun1 in Hrun1'. injection Hrun1' as <-.
    rewrite Ee1 in Ee1'. injection Ee1' as <-.
    destruct (assign_fragment_key h1 e eps1 f fps k Ee1 Ef1 Hne Hnd
                Hh1 Hhas1 Hhas Hk)
      as (h2' & eps2' & hm2 & Hrun2' & Ee2' & _ & Hlm2 & Holdm2 & Hcase2).
    rewrite Hrun2 in Hrun2'. injection Hrun2' as <-.
    rewrite Ee2 in Ee2'. injection Ee2' as <-.
    rewrite Hinc in Hcase1, Hcase2. cbn [from_option id] in Hcase1, Hcase2.
    destruct incoming as [| | | | |i]; try congruence.
    1-4: (destruct Hcase1 as [(Hobj & _)|[_ Hv1]]; [discriminate|];
          destruct Hcase2 as [(Hobj & _)|[_ Hv2]]; [discriminate|];
          eexists _, _; split; [exact Hv1|]; split; [exact Hv2|];
          split; [now left | discriminate]).
    (* an incoming container *)
    assert (Hi : (i < length h)%nat) by exact Hal.
    assert (Hie : i <> e) by congruence.
    assert (HI : forall h0, h0 !! i = h !! i ->
                   own_enumerable h0 (VRef i) = own_enumerable h (VRef i))
      by (intros h0 E; now apply own_enumerable_frame).
    set (I := own_enumerable h (VRef i)) in *.
    assert (Hi1 : h1 !! i = h !! i) by (apply Hold1; auto).
    assert (Him1 : hm1 !! i = h !! i) by (apply Holdm1; auto).
    assert (Him2 : hm2 !! i = h !! i)
      by (rewrite Holdm2 by (auto; lia); exact Hi1).
    destruct Hcase1 as [(_ & _ & Hv1 & Hcell1)|[_ Hv1]].
    - (* merged by the first call *)
      rewrite Hv1 in Hcase2. cbn [from_option id] in Hcase2.
      destruct Hcase2 as [(_ & _ & Hv2 & Hcell2)|[Hnot _]];
        [|exfalso; apply Hnot; split; reflexivity].
      assert (Hm1 : (length hm1 < length h1)%nat)
        by (eapply lookup_lt_Some; eauto).
      assert (Em1 : hm2 !! length hm1 = h1 !! length hm1)
        by (apply Holdm2; lia).
      rewrite (HI hm1 Him1) in Hcell1.
      assert (HP1 : own_enumerable h1 (VRef (length hm1))
                    = overlay
                        (overlay []
                           (own_enumerable hm1
                              (default VUndefined (assoc k eps)))) I)
        by (simpl; now rewrite Hcell1).
      rewrite (own_enumerable_frame h1 hm2 _ Em1), HP1 in Hcell2.
      rewrite (HI hm2 Him2) in Hcell2.
      eexists _, _. split; [exact Hv1|]. split; [exact Hv2|]. split.
      + right. eexists _, _. split; [reflexivity|]. split; [reflexivity|].
        intros sub. rewrite HP1. simpl. rewrite Hcell2.
        symmetry. now apply overlay_twice.
      + intros i' _. eexists. split; [reflexivity|].
        apply lookup_ge_None. lia.
    - (* replaced by the first call *)
      rewrite Hv1 in Hcase2. cbn [from_option id] in Hcase2.
      destruct Hcase2 as [(_ & _ & Hv2 & Hcell2)|[Hnot _]];
        [|exfalso; apply Hnot; split; reflexivity].
      rewrite (HI hm2 Him2) in Hcell2.
      eexists _, _. split; [exact Hv1|]. split; [exact Hv2|]. split.
      + right. eexists _, _. split; [reflexivity|]. split; [reflexivity|].
        intros sub. rewrite (HI h1 Hi1). simpl. rewrite Hcell2.
        symmetry. now apply overlay_onto_itself.
      + intros i' _. eexists. split; [reflexivity|].
        apply lookup_ge_None. lia. }
  exists h1, h2, eps1, eps2.
  split; [exact Hrun1|]. split; [exact Hrun2|].
  split; [exact Ee1|]. split; [exact Ee2|]. split; [exact Hold2|].
  split; [|split].
  - intros k. split; [apply Hown2|].
    destruct (assoc k fps) as [incoming|] eqn:Hinc.
    + destruct (Hkey k incoming Hinc) as (v1 & _ & -> & _). eauto.
    + rewrite Hoth2; [auto|].
      intros Hk. apply elem_of_keys in Hk as [? Hk]. congruence.
  - intros k v1 Hv1.
    destruct (assoc k fps) as [incoming|] eqn:Hinc.
    + destruct (Hkey k incoming Hinc) as (v1' & v2 & Hv1' & Hv2 & Hal & _).
      exists v2. split; [exact Hv2|]. congruence.
    + exists v1. split; [|now left].
      rewrite Hoth2; [exact Hv1|].
      intros Hk. apply elem_of_keys in Hk as [? Hk]. congruence.
  - intros k i Hinc.
    destruct (Hkey k _ Hinc) as (v1 & v2 & _ & Hv2 & _ & Hnew).
    destruct (Hnew i eq_refl) as (m & -> & Hm). eauto.
Qed.

(** C7, where the code departs from the claim: on a new entity,
    [assign({k: null})] once leaves [null] under [k]; the same call again
    leaves a new empty object there. *)
Lemma assign_null_twice :
  exists h1 h2,
    Entity_assign (VRef 0%nat) [VRef 1%nat] null_fragment_heap
    = Ret (VRef 0%nat, h1)
    /\ own_field h1 (VRef 0%nat) "k" = Some VNull
    /\ Entity_assign (VRef 0%nat) [VRef 1%nat] h1 = Ret (VRef 0%nat, h2)
    /\ own_field h2 (VRef 0%nat) "k" = Some (VRef 3%nat)
    /\ h2 !! 3%nat = Some (CObject None []).
Proof.
  eexists. eexists. split; [reflexivity|].
  split; [reflexivity|]. split; [reflexivity|].
  split; reflexivity.
Qed.

(** ** [compute] *)

(** One step of the first loop of [compute]: [c], the copy of the
    defaults, sits right after the heap [h] that [compute] was called in,
    followed by the objects made so far. *)
Lemma compute_key_step h o ops d dps cps news key :
  h !! o = Some (CObject None ops) ->
  h !! d = Some (CObject None dps) ->
  key <> "__proto__" ->
  (key ∈ Object_prototype -> is_Some (assoc key cps)) ->
  let H := h ++ CObject None cps :: news in
  let incoming := default VUndefined (assoc key ops) in
  let dflt := default VUndefined (assoc key dps) in
  compute_key (VRef o) (VRef d) (VRef (length h)) key H
  = Ret (tt,
         if bool_decide (is_Some (assoc key cps)) then
           if decide (typeof incoming = "object") then
             h ++ CObject None (set_prop key (VRef (length H)) cps)
               :: news
               ++ [CObject None
                     (overlay (overlay [] (own_enumerable H dflt))
                        (own_enumerable H incoming))]
           else h ++ CObject None (set_prop key incoming cps) :: news
         else H).
Proof.
  intros Eo Ed Hkey Hinherited H incoming dflt.
  assert (Ho : (o < length h)%nat) by (eapply lookup_lt_Some; eauto).
  assert (Hd : (d < length h)%nat) by (eapply lookup_lt_Some; eauto).
  assert (Ec : H !! length h = Some (CObject None cps))
    by apply lookup_alloc.
  assert (Hpresent : bool_decide (is_Some (assoc key cps))
                     || bool_decide (key ∈ Object_prototype)
                     = bool_decide (is_Some (assoc key cps))).
  { destruct (bool_decide (is_Some (assoc key cps))) eqn:Hown;
      [reflexivity|]. simpl.
    apply bool_decide_eq_false in Hown. apply bool_decide_eq_false. auto. }
  assert (EoH : H !! o = Some (CObject None ops))
    by (subst H; now rewrite lookup_app_l).
  assert (EdH : H !! d = Some (CObject None dps))
    by (subst H; now rewrite lookup_app_l).
  unfold compute_key.
  rewrite (bind_Ret _ _ _ _ _
             (lift_Ret (fun h0 => HasProperty h0 (VRef (length h)) key) _ _
                (HasProperty_plain _ _ _ key Ec))).
  rewrite Hpresent.
  destruct (bool_decide (is_Some (assoc key cps))); [|reflexivity].
  rewrite (bind_Ret _ _ _ _ _
             (get_Ret _ _ _ _ (Get_plain _ _ _ key EoH Hkey))).
  fold incoming.
  destruct (decide (typeof incoming = "object")).
  - rewrite (bind_Ret _ _ _ _ _
               (get_Ret _ _ _ _ (Get_plain _ _ _ key EdH Hkey))).
    fold dflt. unfold spread_new2, alloc.
    erewrite bind_Ret by reflexivity.
    subst H. rewrite <- app_assoc, <- app_comm_cons.
    now apply put_fresh.
  - subst H. now apply put_fresh.
Qed.

(** The first loop of [compute] over the keys [ks]. *)
Lemma compute_keys h o ops d dps :
  h !! o = Some (CObject None ops) ->
  h !! d = Some (CObject None dps) ->
  Forall (fun kv => allocated h kv.2) ops ->
  Forall (fun kv => allocated h kv.2) dps ->
  forall ks cps news,
    NoDup ks ->
    Forall (fun k => k <> "__proto__"
                     /\ (k ∈ Object_prototype -> k ∈ keys cps)) ks ->
    exists cps' news',
      forM ks (compute_key (VRef o) (VRef d) (VRef (length h)))
        (h ++ CObject None cps :: news)
      = Ret (tt, h ++ CObject None cps' :: news ++ news')
      /\ keys cps' = keys cps
      /\ (forall k, k ∉ ks -> assoc k cps' = assoc k cps)
      /\ (forall k, k ∈ ks -> is_Some (assoc k cps) ->
            let incoming := default VUndefined (assoc k ops) in
            let dflt := default VUndefined (assoc k dps) in
            if decide (typeof incoming = "object") then
              exists m,
                assoc k cps' = Some (VRef m)
                /\ (length h < m)%nat
                /\ (h ++ CObject None cps' :: news ++ news') !! m
                   = Some (CObject None
                             (overlay (overlay [] (own_enumerable h dflt))
                                (own_enumerable h incoming)))
            else assoc k cps' = Some incoming).
Proof.
  intros Eo Ed Hops Hdps.
  induction ks as [|key ks IH]; intros cps news Hnd Hks.
  - exists cps, []. rewrite app_nil_r. simpl.
    repeat split; auto. intros k Hk. inversion Hk.
  - apply NoDup_cons in Hnd as [Hkey Hnd].
    apply Forall_cons in Hks as [[Hproto Hinherited] Hks].
    assert (Hset : forall v, is_Some (assoc key cps) ->
              Forall (fun k => k <> "__proto__"
                               /\ (k ∈ Object_prototype
                                   -> k ∈ keys (set_prop key v cps))) ks).
    { intros v Hsome. now rewrite keys_set_prop_present. }
    pose proof (compute_key_step h o ops d dps cps news key Eo Ed Hproto)
      as Hstep.
    cbv zeta in Hstep.
    specialize (Hstep (fun Hb => proj1 (elem_of_keys _ _) (Hinherited Hb))).
    rewrite !own_enumerable_app in Hstep by (now apply allocated_default).
    set (incoming := default VUndefined (assoc key ops)) in *.
    set (dflt := default VUndefined (assoc key dps)) in *.
    set (merged := CObject None
                     (overlay (overlay [] (own_enumerable h dflt))
                        (own_enumerable h incoming))) in *.
    set (m := length (h ++ CObject None cps :: news)) in *.
    simpl. rewrite (bind_Ret _ _ _ _ _ Hstep). clear Hstep.
    destruct (bool_decide (is_Some (assoc key cps))) eqn:Hpresent.
    + apply bool_decide_eq_true in Hpresent.
      destruct (decide (typeof incoming = "object")) as [Hobj|Hobj].
      * destruct (IH (set_prop key (VRef m) cps) (news ++ [merged]) Hnd
                    (Hset _ Hpresent))
          as (cps' & news' & Hrun & Hkeys & Hoth & Hin).
        exists cps', ([merged] ++ news').
        rewrite app_assoc. split; [exact Hrun|].
        split; [now rewrite Hkeys, keys_set_prop_present|].
        split.
        -- intros k [Hk1 Hk2]%not_elem_of_cons.
           rewrite Hoth by assumption. now apply assoc_set_prop_ne.
        -- intros k [->|Hk]%elem_of_cons Hsome.
           ++ cbv zeta. fold incoming dflt. rewrite decide_True by assumption.
              exists m. rewrite (Hoth key Hkey), assoc_set_prop_eq.
              split; [reflexivity|]. split.
              ** subst m. rewrite length_app. simpl. lia.
              ** rewrite <- app_assoc.
                 change (h ++ CObject None cps' :: news ++ [merged] ++ news')
                   with (h ++ (CObject None cps' :: news)
                           ++ merged :: news').
                 rewrite app_assoc. apply list_lookup_middle.
                 subst m. now rewrite !length_app.
           ++ apply (Hin k Hk).
              destruct (decide (key = k)) as [->|Hne].
              ** rewrite assoc_set_prop_eq. eauto.
              ** now rewrite assoc_set_prop_ne.
      * destruct (IH (set_prop key incoming cps) news Hnd
                    (Hset _ Hpresent))
          as (cps' & news' & Hrun & Hkeys & Hoth & Hin).
        exists cps', news'. split; [exact Hrun|].
        split; [now rewrite Hkeys, keys_set_prop_present|].
        split.
        -- intros k [Hk1 Hk2]%not_elem_of_cons.
           rewrite Hoth by assumption. now apply assoc_set_prop_ne.
        -- intros k [->|Hk]%elem_of_cons Hsome.
           ++ cbv zeta. fold incoming. rewrite decide_False by assumption.
              rewrite (Hoth key Hkey). apply assoc_set_prop_eq.
           ++ apply (Hin k Hk).
              destruct (decide (key = k)) as [->|Hne].
              ** rewrite assoc_set_prop_eq. eauto.
              ** now rewrite assoc_set_prop_ne.
    + apply bool_decide_eq_false in Hpresent.
      destruct (IH cps news Hnd Hks)
        as (cps' & news' & Hrun & Hkeys & Hoth & Hin).
      exists cps', news'. split; [exact Hrun|]. split; [exact Hkeys|].
      split.
      * intros k [Hk1 Hk2]%not_elem_of_cons. now apply Hoth.
      * intros k [->|Hk]%elem_of_cons Hsome; [contradiction|].
        now apply Hin.
Qed.

Lemma explode_eq h cps ks :
  Forall (fun k => k ∈ keys cps) ks ->
  forall rest,
    explode (VRef (length h)) ks (h ++ CObject None cps :: rest)
    = Ret (VRef <$> seq (length h + 1 + length rest) (length ks),
           h ++ CObject None cps
             :: rest
             ++ ((fun k => CObject None
                             [(k, default VUndefined (assoc k cps))]) <$> ks)).
Proof.
  induction 1 as [|k ks Hk _ IH]; intros rest; simpl.
  - unfold ret. now rewrite app_nil_r.
  - apply elem_of_keys in Hk as [v Hv]. rewrite Hv. cbn [from_option id].
    rewrite (bind_Ret _ _ _ _ _
               (get_Ret _ _ _ _
                  (Get_own _ _ _ _ _ _ (lookup_alloc _ _ _) Hv))).
    unfold alloc at 1. erewrite bind_Ret by reflexivity.
    rewrite <- app_assoc, <- app_comm_cons.
    rewrite (bind_Ret _ _ _ _ _ (IH _)). unfold ret.
    rewrite !length_app. simpl.
    rewrite <- app_assoc. simpl.
    replace (length h + S (length rest))%nat
      with (length h + 1 + length rest)%nat by lia.
    replace (length h + 1 + (length rest + 1))%nat
      with (S (length h + 1 + length rest)) by lia.
    reflexivity.
Qed.

Lemma enumerated_plain ps :
  NoDup (keys ps) ->
  Forall (fun k => array_index k = None) (keys ps) ->
  enumerated ps = ps.
Proof.
  intros Hnd Hplain. unfold enumerated. rewrite (enumeration_plain _ Hplain).
  unfold keys. rewrite <- list_fmap_compose.
  apply list_eq. intros i. rewrite list_lookup_fmap.
  destruct (ps !! i) as [[k v]|] eqn:Hi; [|reflexivity].
  simpl. now rewrite (assoc_lookup ps i k v Hnd Hi).
Qed.

(** C4, as amended. For options and defaults that are objects of the heap
    (no option being [null], and no key of the options naming a
    member of [Object.prototype] that the defaults lack),
    [compute(options, defaults)] returns one new single-key object per
    key of the defaults, in the order in which the defaults are
    enumerated, which is the order of their declaration when no key is
    an array index, and leaves every existing object as it was. The
    fragment of a key that the options lack holds the default; the one of
    a key whose incoming value is a scalar holds that value; the one of a
    key whose incoming value is a container holds a new container, the
    fields of the default value overlaid, one level deep, with the
    incoming ones. Keys of the options that the defaults lack have no
    fragment. *)
Theorem compute_fragments h o ops d dps :
  h !! o = Some (CObject None ops) ->
  h !! d = Some (CObject None dps) ->
  NoDup (keys ops) ->
  NoDup (keys dps) ->
  Forall (fun kv => allocated h kv.2 /\ kv.2 <> VNull) ops ->
  Forall (fun kv => allocated h kv.2) dps ->
  Forall (fun k => k ∈ Object_prototype -> k ∈ keys dps) (keys ops) ->
  "__proto__" ∉ keys ops ->
  exists fragments h',
    compute (VRef o) (VRef d) h = Ret (fragments, h')
    /\ (forall l, (l < length h)%nat -> h' !! l = h !! l)
    /\ Forall2 (fragment_for h h' ops) (enumerated dps) fragments
    /\ (Forall (fun k => array_index k = None) (keys dps) ->
        enumerated dps = dps).
Proof.
  intros Eo Ed Hndo Hndd Hops Hdps Hinherited Hproto.
  assert (Hops' : Forall (fun kv => allocated h kv.2) ops).
  { eapply Forall_impl; [exact Hops|]. simpl. tauto. }
  destruct (compute_keys h o ops d dps Eo Ed Hops' Hdps
              (enumeration (keys ops)) dps [] (NoDup_enumeration _ Hndo))
    as (cps & news & Hloop & Hkeys & Hoth & Hin).
  { apply Forall_forall. intros k Hk%elem_of_enumeration_1. split.
    - intros Heq. apply Hproto. now rewrite <- Heq.
    - rewrite Forall_forall in Hinherited. now apply Hinherited. }
  simpl in Hloop.
  set (eks := enumeration (keys dps)).
  set (cells := (fun k => CObject None
                            [(k, default VUndefined (assoc k cps))])
                <$> eks).
  set (h2 := h ++ CObject None cps :: news) in *.
  set (h' := h ++ CObject None cps :: news ++ cells).
  assert (Ho : (o < length h)%nat) by (eapply lookup_lt_Some; eauto).
  exists (VRef <$> seq (length h + 1 + length news) (length eks)), h'.
  split; [|split; [|split]].
  - unfold compute, spread_new, alloc.
    erewrite bind_Ret by reflexivity.
    simpl. rewrite Ed, (overlay_nil _ Hndd).
    rewrite (bind_Ret _ _ _ (enumeration (keys ops))
               (h ++ [CObject None dps])).
    2:{ apply lift_Ret. f_equal. apply for_in_keys_plain; [|assumption].
        now rewrite lookup_app_l. }
    rewrite (bind_Ret _ _ _ _ _ Hloop).
    rewrite (bind_Ret _ _ _ eks h2).
    2:{ apply lift_Ret. f_equal. subst eks. rewrite <- Hkeys.
        apply for_in_keys_plain; [apply lookup_alloc | now rewrite Hkeys]. }
    apply (explode_eq h cps eks).
    apply Forall_forall. intros k Hk%elem_of_enumeration_1. now rewrite Hkeys.
  - intros l Hl. subst h'. now rewrite lookup_app_l.
  - apply Forall2_same_length_lookup_2.
    { unfold enumerated. now rewrite !length_fmap, length_seq. }
    intros i [k dv] frag Hi Hfrag.
    unfold enumerated in Hi. rewrite list_lookup_fmap in Hi.
    fold eks in Hi.
    destruct (eks !! i) as [k'|] eqn:Hki; [|discriminate].
    injection Hi as -> <-.
    assert (Hk : k ∈ keys dps).
    { apply elem_of_enumeration. exact (list_elem_of_lookup_2 _ _ _ Hki). }
    apply elem_of_keys in Hk as [dv Hdv]. rewrite Hdv. cbn [from_option id].
    rewrite list_lookup_fmap in Hfrag.
    destruct (seq _ _ !! i) as [l|] eqn:Hl; [|discriminate].
    injection Hfrag as <-.
    apply lookup_seq in Hl as [-> Hlen].
    set (v := default VUndefined (assoc k cps)).
    assert (Hcell : h' !! (length h + 1 + length news + i)%nat
                    = Some (CObject None [(k, v)])).
    { subst h'.
      change (h ++ CObject None cps :: news ++ cells)
        with (h ++ (CObject None cps :: news) ++ cells).
      rewrite app_assoc, lookup_app_r
        by (rewrite length_app; simpl; lia).
      rewrite length_app. simpl.
      replace (length h + 1 + length news + i
               - (length h + S (length news)))%nat with i by lia.
      subst cells. now rewrite list_lookup_fmap, Hki. }
    exists (length h + 1 + length news + i)%nat, v. cbn [fst snd].
    split; [reflexivity|]. split; [apply lookup_ge_None; lia|].
    split; [exact Hcell|].
    destruct (assoc k ops) as [incoming|] eqn:Hinc.
    + assert (Hk : k ∈ enumeration (keys ops)).
      { apply elem_of_enumeration, elem_of_keys. rewrite Hinc. eauto. }
      pose proof (Hin k Hk (ex_intro _ dv Hdv)) as Hres.
      cbv zeta in Hres. rewrite Hinc, Hdv in Hres.
      cbn [from_option id] in Hres.
      assert (Hnn : incoming <> VNull).
      { rewrite Forall_forall in Hops.
        exact (proj2 (Hops _ (assoc_elem_of _ _ _ Hinc))). }
      destruct (decide (typeof incoming = "object")) as [Hobj|Hobj].
      * destruct incoming as [| | | | |inc]; try discriminate; [congruence|].
        destruct Hres as (m & Hm & Hlt & Hmcell).
        exists m, (overlay (overlay [] (own_enumerable h dv))
                     (own_enumerable h (VRef inc))).
        subst v. rewrite Hm. split; [reflexivity|].
        split; [apply lookup_ge_None; lia|]. split.
        -- replace h' with (h2 ++ cells)
             by (subst h' h2; now rewrite <- app_assoc).
           apply lookup_app_l_Some. exact Hmcell.
        -- intros Hnd1 Hnd2 sub.
           rewrite assoc_overlay by assumption.
           rewrite (assoc_overlay sub []) by assumption.
           destruct (assoc sub (own_enumerable h (VRef inc)));
             [reflexivity|].
           now destruct (assoc sub (own_enumerable h dv)).
      * subst v. rewrite Hres.
        destruct incoming; try reflexivity; simpl in Hobj; congruence.
    + subst v. rewrite Hoth, Hdv; [reflexivity|].
      intros Hk%elem_of_enumeration_1. apply elem_of_keys in Hk as [? Hk].
      congruence.
  - now apply enumerated_plain.
Qed.

(** C4, the claim as stated fails, in three ways. In
    [compute({x: 5}, {x: {p: 0}})] the default value is a container, yet
    the fragment holds the scalar 5, not a container made from the
    default's. In [compute({}, {b: 1, 1: 2})] the fragment of the key
    [1], an array index, comes before the one of [b], which was declared
    first. And in [compute({toString: 5}, {x: 1})] the key [toString],
    which the defaults lack, is not ignored: [toString in computedOptions]
    holds in every object, and a second fragment [{toString: 5}] is
    returned. *)
Lemma compute_decides_on_incoming :
  (exists h',
     compute (VRef 0%nat) (VRef 2%nat) scalar_over_container_heap
     = Ret ([VRef 4%nat], h')
     /\ h' !! 4%nat = Some (CObject None [("x", VNum 5)])
     /\ ~ specified_value scalar_over_container_heap h'
            (VRef 1%nat) (VNum 5) (VNum 5))
  /\ (exists h',
        compute (VRef 0%nat) (VRef 1%nat) index_key_heap
        = Ret ([VRef 3%nat; VRef 4%nat], h')
        /\ h' !! 3%nat = Some (CObject None [("1", VNum 2)])
        /\ h' !! 4%nat = Some (CObject None [("b", VNum 1)]))
  /\ (exists h',
        compute (VRef 0%nat) (VRef 1%nat) inherited_name_heap
        = Ret ([VRef 6%nat; VRef 7%nat], h')
        /\ h' !! 6%nat = Some (CObject None [("x", VNum 1)])
        /\ h' !! 7%nat = Some (CObject None [("toString", VNum 5)])).
Proof.
  split; [|split].
  - eexists. split; [reflexivity|]. split; [reflexivity|].
    intros (m & mps & Hm & _). discriminate.
  - eexists. split; [vm_compute; reflexivity|]. split; reflexivity.
  - eexists. split; [vm_compute; reflexivity|]. split; reflexivity.
Qed.

Lemma compute_fragments_witness :
  exists h',
    compute (VRef 1%nat) (VRef 3%nat) compute_example_heap
    = Ret ([VRef 6%nat; VRef 7%nat], h')
    /\ h' !! 6%nat = Some (CObject None [("x", VRef 5%nat)])
    /\ h' !! 5%nat = Some (CObject None [("p", VNum 9); ("q", VNum 0)])
    /\ h' !! 7%nat = Some (CObject None [("y", VNum 1)])
    /\ Forall2 (fragment_for compute_example_heap h' [("x", VRef 0%nat)])
         [("x", VRef 2%nat); ("y", VNum 1)] [VRef 6%nat; VRef 7%nat].
Proof.
  destruct (compute_fragments compute_example_heap 1%nat _ 3%nat _
              eq_refl eq_refl)
    as (fragments & h' & Hrun & _ & Hall & Horder).
  - apply (bool_decide_unpack _). reflexivity.
  - apply (bool_decide_unpack _). reflexivity.
  - constructor; [split; [simpl; lia | discriminate] | constructor].
  - constructor; [simpl; lia|]. constructor; [exact I | constructor].
  - constructor; [|constructor].
    intros Hx. revert Hx. apply (bool_decide_unpack _). reflexivity.
  - apply (bool_decide_unpack _). reflexivity.
  - exists h'. vm_compute in Hrun. injection Hrun as <- <-.
    split; [reflexivity|]. repeat (split; [reflexivity|]).
    rewrite Horder in Hall; [exact Hall|].
    repeat constructor.
Defined.

(** ** No operation removes a field *)

Lemma grows_refl h : grows h h.
Proof. intros l proto ps E. eauto. Qed.

Lemma grows_trans h1 h2 h3 : grows h1 h2 -> grows h2 h3 -> grows h1 h3.
Proof.
  intros H12 H23 l proto ps E.
  destruct (H12 l proto ps E) as (ps2 & E2 & Hk2).
  destruct (H23 l proto ps2 E2) as (ps3 & E3 & Hk3).
  eauto.
Qed.

Lemma grows_owns h h' entity name :
  grows h h' -> owns h entity name -> owns h' entity name.
Proof.
  intros Hg. unfold owns, own_field.
  destruct entity as [| | | | |l]; try (intros [? ?]; discriminate).
  destruct (h !! l) as [[proto ps|]|] eqn:El;
    try (intros [? ?]; discriminate).
  destruct (Hg l proto ps El) as (ps' & -> & Hk). apply Hk.
Qed.

Lemma owns_is_object h entity name : owns h entity name -> is_object h entity.
Proof.
  unfold owns, own_field, is_object.
  destruct entity as [| | | | |l]; try (intros [? ?]; discriminate).
  destruct (h !! l) as [[proto ps|]|]; try (intros [? ?]; discriminate).
  auto.
Qed.

Lemma monotone_ret {A} (a : A) : monotone (ret a).
Proof. intros h a' h' [= _ <-]. apply grows_refl. Qed.

Lemma monotone_throw {A} e : monotone (@throw A e).
Proof. intros h a h' [=]. Qed.

Lemma monotone_bind {A B} (c : M A) (k : A -> M B) :
  monotone c -> (forall a, monotone (k a)) -> monotone (bind c k).
Proof.
  intros Hc Hk h b h2 Hrun.
  apply bind_inv in Hrun as (a & h1 & Hc1 & Hk1).
  eapply grows_trans; [eapply Hc | eapply Hk]; eauto.
Qed.

Lemma monotone_lift {A} (f : list cell -> outcome A) : monotone (lift f).
Proof.
  intros h a h' Hrun. apply lift_inv in Hrun as [_ ->]. apply grows_refl.
Qed.

Lemma monotone_alloc c : monotone (alloc c).
Proof.
  intros h a h' [= _ <-] l proto ps E.
  exists ps. split; [now apply lookup_app_l_Some | auto].
Qed.

Lemma monotone_put o k v : monotone (put o k v).
Proof.
  intros h [] h' Hrun.
  apply put_inv in Hrun as (l & proto & ps & -> & El & ->).
  intros l' proto' ps' E.
  destruct (decide (l = l')) as [<-|Hne].
  - rewrite El in E. injection E as <- <-.
    exists (set_prop k v ps). split.
    + apply list_lookup_insert_eq. eapply lookup_lt_Some; eauto.
    + intros k' Hk'. destruct (decide (k = k')) as [<-|Hkk].
      * rewrite assoc_set_prop_eq. eauto.
      * now rewrite assoc_set_prop_ne.
  - exists ps'. split; [now rewrite list_lookup_insert_ne | auto].
Qed.

Lemma monotone_read_array a : monotone (read_array a).
Proof.
  intros h xs h' Hrun.
  apply read_array_inv in Hrun as (l & _ & _ & ->). apply grows_refl.
Qed.

Lemma monotone_write_array a xs : monotone (write_array a xs).
Proof.
  intros h [] h'. unfold write_array.
  destruct a as [| | | | |l]; try discriminate.
  destruct (h !! l) as [[|ys]|] eqn:El; try discriminate.
  intros [= <-] l' proto ps E.
  exists ps. split; [|auto].
  rewrite list_lookup_insert_ne; [assumption|]. congruence.
Qed.

Lemma monotone_forM {A} (xs : list A) body :
  (forall x, monotone (body x)) -> monotone (forM xs body).
Proof.
  intros Hbody. induction xs as [|x xs IH]; simpl.
  - apply monotone_ret.
  - apply monotone_bind; auto.
Qed.

Lemma monotone_filterM f xs :
  (forall x, monotone (f x)) -> monotone (filterM f xs).
Proof.
  intros Hf. induction xs as [|x xs IH]; simpl.
  - apply monotone_ret.
  - apply monotone_bind; [apply Hf|]. intros keep.
    apply monotone_bind; [exact IH|]. intros rest. apply monotone_ret.
Qed.

Lemma monotone_for_of {A} fuel a (body : value -> M A) :
  (forall x, monotone (body x)) -> forall i, monotone (for_of fuel a i body).
Proof.
  intros Hbody. induction fuel as [|fuel IH]; intros i; simpl.
  - apply monotone_bind; [apply monotone_read_array|]. intros xs.
    destruct (xs !! i); [apply monotone_throw | apply monotone_ret].
  - apply monotone_bind; [apply monotone_read_array|]. intros xs.
    destruct (xs !! i); [|apply monotone_ret].
    apply monotone_bind; [apply Hbody|]. intros r.
    apply monotone_bind; [apply IH|]. intros rs. apply monotone_ret.
Qed.

Lemma monotone_explode c ks : monotone (explode c ks).
Proof.
  induction ks as [|k ks IH]; simpl; [apply monotone_ret|].
  apply monotone_bind; [apply monotone_lift|]. intros v.
  apply monotone_bind; [apply monotone_alloc|]. intros fragment.
  apply monotone_bind; [exact IH|]. intros rest. apply monotone_ret.
Qed.

Create HintDb monotone.

#[local] Hint Resolve monotone_ret monotone_throw monotone_lift
  monotone_alloc monotone_put monotone_read_array monotone_write_array
  monotone_forM monotone_filterM monotone_for_of monotone_explode
  : monotone.

#[local] Hint Extern 2 (monotone (bind _ _)) =>
  apply monotone_bind; [|intros ?] : monotone.

#[local] Hint Extern 3 (monotone (match ?x with _ => _ end)) =>
  destruct x : monotone.

Ltac monotone_by_parts := unfold get; auto 20 with monotone.

Lemma monotone_push a x : monotone (push a x).
Proof. unfold push. monotone_by_parts. Qed.

Lemma monotone_spread_new2 a b : monotone (spread_new2 a b).
Proof. intros h r h' Hrun. exact (monotone_alloc _ h r h' Hrun). Qed.

Lemma monotone_assign_new a b : monotone (assign_new a b).
Proof.
  intros h r h'. unfold assign_new. case decide; [discriminate|].
  intros _. apply monotone_spread_new2.
Qed.

Lemma monotone_hasOwnProperty o k : monotone (hasOwnProperty o k).
Proof.
  intros h r h'. unfold hasOwnProperty.
  destruct o; try discriminate;
    (destruct (find_prop _ _); [discriminate|]);
    intros [= _ <-]; apply grows_refl.
Qed.

Lemma monotone_spread_new a : monotone (spread_new a).
Proof. intros h r h' Hrun. exact (monotone_alloc _ h r h' Hrun). Qed.

Lemma monotone_sort_by_priority a : monotone (sort_by_priority a).
Proof. unfold sort_by_priority. monotone_by_parts. Qed.

Lemma monotone_set_length_0 a : monotone (set_length_0 a).
Proof.
  intros h u h'. unfold set_length_0.
  destruct a as [| | | | |l]; try apply monotone_put.
  destruct (h !! l) as [[|xs]|];
    [apply monotone_put | apply monotone_write_array | apply monotone_put].
Qed.

#[local] Hint Resolve monotone_push monotone_assign_new monotone_spread_new
  monotone_spread_new2 monotone_hasOwnProperty
  monotone_sort_by_priority monotone_set_length_0 : monotone.

Lemma monotone_getEntities this query :
  monotone (EntityManager_getEntities this query).
Proof. unfold EntityManager_getEntities, matches. monotone_by_parts. Qed.

Lemma monotone_assign this components :
  monotone (Entity_assign this components).
Proof.
  unfold Entity_assign, assign_component, assign_key, replace_field.
  monotone_by_parts.
Qed.

Lemma monotone_compute options defaults : monotone (compute options defaults).
Proof. unfold compute, compute_key. monotone_by_parts. Qed.

Lemma monotone_run update_method op :
  (forall system delta time, monotone (update_method system delta time)) ->
  monotone (run update_method op).
Proof.
  intros Hupdate. pose proof monotone_getEntities.
  pose proof monotone_assign. pose proof monotone_compute.
  destruct op; unfold run, EntityManager_constructor,
    EntityManager_registerSystem, EntityManager_update, System__update,
    EntityManager_createEntity, EntityManager_destroyEntity,
    EntityManager_sortEntities, EntityManager_pause, Entity_constructor,
    System_constructor, System_getEntities;
    monotone_by_parts.
Qed.

Lemma Entity_constructor_eq priority h :
  Entity_constructor priority h
  = Ret (VRef (length h),
         h ++ [CObject None
                 [("entityManager", VNull);
                  ("priority",
                   if ToBoolean priority then priority else VNum 0)]]).
Proof.
  unfold Entity_constructor.
  rewrite (bind_Ret _ _ h (VRef (length h)) (h ++ [CObject None []]))
    by reflexivity.
  erewrite bind_Ret by (apply put_fresh; discriminate).
  now erewrite bind_Ret by (apply put_fresh; discriminate).
Qed.

(** What [createEntity] leaves: the new entity, linked to the manager,
    last in the registry. *)
Lemma createEntity_inv this priority h entity h1 :
  EntityManager_createEntity this priority h = Ret (entity, h1) ->
  exists a es,
    entity = VRef (length h)
    /\ h !! a = Some (CArray es)
    /\ h1 = <[a := CArray (es ++ [entity])]>
              (h ++ [CObject None
                       [("entityManager", this);
                        ("priority",
                         if ToBoolean priority then priority else VNum 0)]]).
Proof.
  unfold EntityManager_createEntity. intros H.
  rewrite (bind_Ret _ _ _ _ _ (Entity_constructor_eq _ _)) in H.
  erewrite bind_Ret in H by (apply put_fresh; discriminate).
  apply bind_inv in H as (entities & h2 & Hget & H).
  apply get_inv in Hget as [_ ->].
  apply bind_inv in H as ([] & h3 & Hpush & H).
  injection H as <- <-.
  apply push_inv in Hpush as (a & es & -> & Ea & ->).
  exists a, es. split; [reflexivity|]. split; [|reflexivity].
  destruct (decide (a = length h)) as [->|Hne].
  - rewrite lookup_alloc in Ea. discriminate.
  - apply lookup_lt_Some in Ea as Hlt.
    rewrite length_app in Hlt. simpl in Hlt.
    rewrite lookup_app_l in Ea by lia. exact Ea.
Qed.

(** C10. An entity made by [createEntity] owns [priority] and
    [entityManager] when the call returns. It still owns both after any
    sequence of operations of the engine, whatever their arguments,
    provided the systems that [update] runs remove no field themselves;
    so in any such state every query whose names are among these two
    matches the entity, and [getEntities] for such a query selects it
    from every registry of objects that lists it. *)
Theorem created_entity_keeps_bookkeeping_fields
    update_method this priority h entity h1 :
  (forall system delta time, monotone (update_method system delta time)) ->
  EntityManager_createEntity this priority h = Ret (entity, h1) ->
  (owns h1 entity "priority" /\ owns h1 entity "entityManager")
  /\ forall ops h2,
       forM ops (run update_method) h1 = Ret (tt, h2) ->
       owns h2 entity "priority" /\ owns h2 entity "entityManager"
       /\ forall q names,
            h2 !! q = Some (CArray (VStr <$> names)) ->
            names ⊆ ["priority"; "entityManager"] ->
            matches (VRef q) entity h2 = Ret (true, h2)
            /\ forall manager a es,
                 Get h2 manager "entities" = Ret (VRef a) ->
                 h2 !! a = Some (CArray es) ->
                 Forall (is_object h2) es ->
                 entity ∈ es ->
                 exists selected,
                   EntityManager_getEntities manager (VRef q) h2
                   = Ret (selected, h2)
                   /\ entity ∈ selected.
Proof.
  intros Hupdate Hcreate.
  apply createEntity_inv in Hcreate as (a & es & -> & Ea & Hh1).
  set (n := length h) in *.
  assert (Hne : a <> n).
  { intros ->. apply lookup_lt_Some in Ea. subst n. lia. }
  assert (Hown1 : owns h1 (VRef n) "priority"
                  /\ owns h1 (VRef n) "entityManager").
  { unfold owns, own_field.
    rewrite Hh1, list_lookup_insert_ne by exact Hne.
    subst n. rewrite lookup_alloc. simpl. eauto. }
  split; [exact Hown1|].
  intros ops h2 Hrun.
  assert (Hg : grows h1 h2).
  { eapply (monotone_forM ops (run update_method)); [|exact Hrun].
    intros op. now apply monotone_run. }
  destruct Hown1 as [Hp1 Hm1].
  pose proof (grows_owns _ _ _ _ Hg Hp1) as Hp2.
  pose proof (grows_owns _ _ _ _ Hg Hm1) as Hm2.
  split; [exact Hp2|]. split; [exact Hm2|].
  intros q names Hq Hnames.
  assert (Hall : Forall (owns h2 (VRef n)) names).
  { apply Forall_forall. intros name Hin.
    apply Hnames in Hin.
    apply elem_of_cons in Hin as [->|Hin]; [exact Hp2|].
    apply elem_of_cons in Hin as [->|Hin]; [exact Hm2|].
    inversion Hin. }
  split.
  - rewrite (matches_owns h2 q names (VRef n) Hq (owns_is_object _ _ _ Hp2)).
    now rewrite bool_decide_eq_true_2.
  - intros manager b entries Hget Hb Hobj Hin.
    eexists. split;
      [exact (getEntities_eq h2 manager b entries q names Hget Hb Hq Hobj)|].
    apply list_elem_of_filter. auto.
Qed.

Lemma created_entity_keeps_bookkeeping_fields_witness :
  exists h1 h2,
    EntityManager_createEntity (VRef 0%nat) VUndefined demo_heap
    = Ret (VRef 6%nat, h1)
    /\ forM after_creation (run System_update) h1 = Ret (tt, h2)
    /\ owns h2 (VRef 6%nat) "priority"
    /\ owns h2 (VRef 6%nat) "entityManager".
Proof.
  eexists. eexists. split; [reflexivity|]. split; [reflexivity|].
  refine (let H := proj2 (created_entity_keeps_bookkeeping_fields
                            System_update (VRef 0%nat) VUndefined demo_heap
                            (VRef 6%nat) _ _ eq_refl)
                     after_creation _ eq_refl in
          conj (proj1 H) (proj1 (proj2 H))).
  intros system delta time. apply monotone_ret.
Defined.

(** * More of the engine *)

(** ** Writing to an array leaves the objects alone *)

Lemma own_field_write_array h a xs ys v k :
  h !! a = Some (CArray xs) ->
  own_field (<[a := CArray ys]> h) v k = own_field h v k.
Proof.
  intros Ea. unfold own_field. destruct v as [| | | | |l]; try reflexivity.
  destruct (decide (a = l)) as [<-|Hne].
  - rewrite list_lookup_insert_eq by (eapply lookup_lt_Some; eauto).
    now rewrite Ea.
  - now rewrite list_lookup_insert_ne.
Qed.

Lemma owns_write_array h a xs ys v k :
  h !! a = Some (CArray xs) ->
  owns (<[a := CArray ys]> h) v k <-> owns h v k.
Proof. intros Ea. unfold owns. now rewrite (own_field_write_array h a xs). Qed.

Lemma is_object_write_array h a xs ys v :
  h !! a = Some (CArray xs) ->
  is_object (<[a := CArray ys]> h) v <-> is_object h v.
Proof.
  intros Ea. unfold is_object. destruct v as [| | | | |l]; try reflexivity.
  destruct (decide (a = l)) as [<-|Hne].
  - rewrite list_lookup_insert_eq by (eapply lookup_lt_Some; eauto).
    now rewrite Ea.
  - now rewrite list_lookup_insert_ne.
Qed.

Lemma lookup_write_array (h : list cell) a ys :
  (a < length h)%nat -> <[a := CArray ys]> h !! a = Some (CArray ys).
Proof. apply list_lookup_insert_eq. Qed.

(** ** [getEntities]: what it needs of its arguments *)


Lemma read_array_not_array h v :
  ~ is_array h v -> read_array v h = Throw TypeError.
Proof.
  unfold is_array, read_array. destruct v as [| | | | |l]; try reflexivity.
  destruct (h !! l) as [[|xs]|]; try reflexivity. intros H. now destruct H.
Qed.

Lemma filterM_throws (f : value -> M bool) (P : value -> Prop)
    `{forall x, Decision (P x)} h before bad after e :
  Forall (fun x => f x h = Ret (bool_decide (P x), h)) before ->
  f bad h = Throw e ->
  filterM f (before ++ bad :: after) h = Throw e.
Proof.
  intros Hbefore Hbad.
  induction Hbefore as [|x xs Hx _ IH]; simpl.
  - now rewrite (bind_Throw _ _ _ _ Hbad).
  - rewrite (bind_Ret _ _ _ _ _ Hx). now rewrite (bind_Throw _ _ _ _ IH).
Qed.

(** X1. [getEntities] looks at the query only when it tests an entity: on an
    empty registry every argument, [undefined] too, gives the empty
    result; on a registry that starts with an object, a query that is
    not an array throws; and so does an entry [null] or [undefined] that
    follows objects, whatever the array of names asked for. *)
Theorem getEntities_type_errors h this a es :
  Get h this "entities" = Ret (VRef a) ->
  h !! a = Some (CArray es) ->
  (es = [] -> forall query,
      EntityManager_getEntities this query h = Ret ([], h))
  /\ (forall first rest query,
        es = first :: rest -> is_object h first -> ~ is_array h query ->
        EntityManager_getEntities this query h = Throw TypeError)
  /\ (forall before bad after q names,
        es = before ++ bad :: after ->
        Forall (is_object h) before ->
        bad = VNull \/ bad = VUndefined ->
        h !! q = Some (CArray (VStr <$> names)) ->
        EntityManager_getEntities this (VRef q) h = Throw TypeError).
Proof.
  intros Hthis Ha.
  assert (Hrun : forall query,
             EntityManager_getEntities this query h
             = filterM (matches query) es h).
  { intros query. unfold EntityManager_getEntities.
    rewrite (bind_Ret _ _ _ _ _ (get_Ret _ _ _ _ Hthis)).
    now rewrite (bind_Ret _ _ _ _ _ (read_array_Ret _ _ _ Ha)). }
  split; [|split].
  - intros -> query. now rewrite Hrun.
  - intros first rest query -> Hobj Hq. rewrite Hrun. simpl.
    apply bind_Throw. unfold matches.
    apply is_object_lookup in Hobj as (l & proto & ps & -> & El).
    erewrite (bind_Ret (lift _));
      [|apply lift_Ret; unfold getOwnPropertyNames; rewrite El; reflexivity].
    apply bind_Throw. now apply read_array_not_array.
  - intros before bad after q names -> Hbefore Hbad Hq. rewrite Hrun.
    apply (filterM_throws _ (fun entity => Forall (owns h entity) names)).
    + eapply Forall_impl; [exact Hbefore|].
      intros entity Hobj. now apply matches_owns.
    + unfold matches. apply bind_Throw. now destruct Hbad as [-> | ->].
Qed.

Lemma getEntities_type_errors_witness :
  EntityManager_getEntities (VRef 0%nat) VUndefined
    (<[1%nat := CArray []]> demo_heap)
  = Ret ([], <[1%nat := CArray []]> demo_heap)
  /\ EntityManager_getEntities (VRef 0%nat) VUndefined demo_heap
     = Throw TypeError
  /\ EntityManager_getEntities (VRef 0%nat) (VRef 4%nat)
       (<[1%nat := CArray [VRef 3%nat; VNull]]> demo_heap)
     = Throw TypeError.
Proof.
  split; [|split].
  - refine (proj1 (getEntities_type_errors (<[1%nat := CArray []]> demo_heap)
                     (VRef 0%nat) 1%nat [] _ _) eq_refl VUndefined);
      reflexivity.
  - refine (proj1 (proj2 (getEntities_type_errors demo_heap
                            (VRef 0%nat) 1%nat [VRef 3%nat] _ _))
              (VRef 3%nat) [] VUndefined eq_refl _ _);
      first [reflexivity | exact I | intros H; exact H].
  - refine (proj2 (proj2 (getEntities_type_errors
                            (<[1%nat := CArray [VRef 3%nat; VNull]]> demo_heap)
                            (VRef 0%nat) 1%nat [VRef 3%nat; VNull] _ _))
              [VRef 3%nat] VNull [] 4%nat ["position"; "velocity"]
              eq_refl _ _ _);
      first [reflexivity | now left | repeat constructor].
Defined.

(** ** [createEntity], [destroyEntity] and [pause] *)

Lemma own_field_app h extra v k x :
  own_field h v k = Some x -> own_field (h ++ extra) v k = Some x.
Proof.
  unfold own_field. destruct v as [| | | | |l]; try discriminate.
  destruct (h !! l) as [c|] eqn:El; [|discriminate].
  now rewrite (lookup_app_l_Some _ _ _ _ El).
Qed.

Lemma createEntity_eq h this a es priority :
  own_field h this "entities" = Some (VRef a) ->
  h !! a = Some (CArray es) ->
  EntityManager_createEntity this priority h
  = Ret (VRef (length h),
         <[a := CArray (es ++ [VRef (length h)])]> h
           ++ [CObject None
                 [("entityManager", this);
                  ("priority",
                   if ToBoolean priority then priority else VNum 0)]]).
Proof.
  intros Hents Ha.
  assert (Hlt : (a < length h)%nat) by (eapply lookup_lt_Some; eauto).
  unfold EntityManager_createEntity.
  rewrite (bind_Ret _ _ _ _ _ (Entity_constructor_eq _ _)).
  erewrite bind_Ret by (apply put_fresh; discriminate). simpl.
  erewrite (bind_Ret (get _ _));
    [|apply get_Ret, own_field_Get, own_field_app; exact Hents].
  erewrite (bind_Ret (push _ _));
    [|apply push_Ret with (xs := es); now apply lookup_app_l_Some].
  unfold ret. now rewrite insert_app_l.
Qed.

(** X2. [createEntity(priority)] returns an object that did not exist, puts
    it last in the registry and changes nothing else. The entity is
    linked to the manager; its priority is the number given, zero
    included, and 0 when the argument is missing or [null]. *)
Theorem createEntity_appends_new_entity h this a es priority :
  own_field h this "entities" = Some (VRef a) ->
  h !! a = Some (CArray es) ->
  exists entity h',
    EntityManager_createEntity this priority h = Ret (entity, h')
    /\ entity = VRef (length h)
    /\ own_field h entity "priority" = None
    /\ h' !! a = Some (CArray (es ++ [entity]))
    /\ (forall l, (l < length h)%nat -> l <> a -> h' !! l = h !! l)
    /\ own_field h' entity "entityManager" = Some this
    /\ (forall n, priority = VNum n ->
          own_field h' entity "priority" = Some (VNum n))
    /\ (priority = VUndefined \/ priority = VNull ->
        own_field h' entity "priority" = Some (VNum 0)).
Proof.
  intros Hents Ha.
  assert (Hlt : (a < length h)%nat) by (eapply lookup_lt_Some; eauto).
  eexists _, _.
  split; [exact (createEntity_eq h this a es priority Hents Ha)|].
  split; [reflexivity|].
  assert (Hcell : forall c : cell,
             (<[a := CArray (es ++ [VRef (length h)])]> h ++ [c]) !! length h
             = Some c).
  { intros c. apply list_lookup_middle. now rewrite length_insert. }
  split; [|split; [|split; [|split; [|split]]]].
  - unfold own_field. now rewrite lookup_ge_None_2.
  - rewrite lookup_app_l by now rewrite length_insert.
    now apply list_lookup_insert_eq.
  - intros l Hl Hne. rewrite lookup_app_l by now rewrite length_insert.
    now apply list_lookup_insert_ne.
  - unfold own_field. now rewrite Hcell.
  - intros n ->. unfold own_field. rewrite Hcell. simpl.
    destruct (Z.eqb_spec n 0) as [->|]; reflexivity.
  - intros [-> | ->]; unfold own_field; now rewrite Hcell.
Qed.

Lemma createEntity_appends_new_entity_witness :
  exists h',
    EntityManager_createEntity (VRef 0%nat) (VNum 0) demo_heap
    = Ret (VRef 6%nat, h')
    /\ h' !! 1%nat = Some (CArray [VRef 3%nat; VRef 6%nat])
    /\ own_field h' (VRef 6%nat) "priority" = Some (VNum 0).
Proof.
  destruct (createEntity_appends_new_entity demo_heap (VRef 0%nat) 1%nat
              [VRef 3%nat] (VNum 0) eq_refl eq_refl)
    as (entity & h' & Hrun & -> & _ & Hreg & _ & _ & Hprio & _).
  exists h'. split; [exact Hrun|]. split; [exact Hreg|].
  now apply Hprio.
Defined.

Lemma destroyEntity_first h this a entity before after :
  Get h this "entities" = Ret (VRef a) ->
  h !! a = Some (CArray (before ++ entity :: after)) ->
  entity ∉ before ->
  EntityManager_destroyEntity this entity h
  = Ret (tt, <[a := CArray (before ++ after)]> h).
Proof.
  intros Hthis Ha Hfirst. unfold EntityManager_destroyEntity.
  rewrite (bind_Ret _ _ _ _ _ (get_Ret _ _ _ _ Hthis)).
  rewrite (bind_Ret _ _ _ _ _ (read_array_Ret _ _ _ Ha)).
  rewrite (indexOf_first _ _ after Hfirst).
  rewrite (bind_Ret _ _ _ _ _ (get_Ret _ _ _ _ Hthis)).
  rewrite (bind_Ret _ _ _ _ _ (read_array_Ret _ _ _ Ha)).
  rewrite splice1_middle.
  exact (write_array_Ret _ _ _ _ Ha).
Qed.

(** X3. [destroyEntity] undoes [createEntity]: creating an entity and
    destroying it at once leaves the registry, and every cell that
    existed, as they were; the entity is still there as an object, out of
    the registry. *)
Theorem createEntity_then_destroyEntity h this a es priority :
  own_field h this "entities" = Some (VRef a) ->
  h !! a = Some (CArray es) ->
  Forall (allocated h) es ->
  exists entity h2,
    (let! e := EntityManager_createEntity this priority in
     EntityManager_destroyEntity this e ;; ret e) h = Ret (entity, h2)
    /\ h2 !! a = Some (CArray es)
    /\ (forall l, (l < length h)%nat -> h2 !! l = h !! l)
    /\ is_object h2 entity
    /\ entity ∉ es.
Proof.
  intros Hents Ha Hall.
  assert (Hlt : (a < length h)%nat) by (eapply lookup_lt_Some; eauto).
  set (n := length h).
  set (cell := CObject None
                 [("entityManager", this);
                  ("priority",
                   if ToBoolean priority then priority else VNum 0)]).
  set (h1 := <[a := CArray (es ++ [VRef n])]> h ++ [cell]).
  assert (Hnew : VRef n ∉ es).
  { intros Hin. rewrite Forall_forall in Hall.
    specialize (Hall _ Hin). simpl in Hall. subst n. lia. }
  assert (Ha1 : h1 !! a = Some (CArray (es ++ [VRef n]))).
  { subst h1. rewrite lookup_app_l by now rewrite length_insert.
    now apply list_lookup_insert_eq. }
  assert (Hents1 : own_field h1 this "entities" = Some (VRef a)).
  { subst h1. apply own_field_app.
    now rewrite (own_field_write_array h a es). }
  exists (VRef n), (h ++ [cell]).
  split; [|split; [|split; [|split]]].
  - rewrite (bind_Ret _ _ _ _ _ (createEntity_eq _ _ _ _ priority Hents Ha)).
    fold n cell h1.
    pose proof (destroyEntity_first h1 this a (VRef n) es []
                  (own_field_Get _ _ _ _ Hents1) Ha1 Hnew) as Hd.
    rewrite (bind_Ret _ _ _ _ _ Hd). unfold ret. do 2 f_equal.
    subst h1. rewrite app_nil_r, <- insert_app_l by exact Hlt.
    rewrite list_insert_insert_eq. rewrite insert_app_l by exact Hlt.
    now rewrite list_insert_id.
  - now apply lookup_app_l_Some.
  - intros l Hl. now rewrite lookup_app_l.
  - unfold is_object. subst n. now rewrite lookup_alloc.
  - exact Hnew.
Qed.

Lemma createEntity_then_destroyEntity_witness :
  exists h2,
    (let! e := EntityManager_createEntity (VRef 0%nat) VUndefined in
     EntityManager_destroyEntity (VRef 0%nat) e ;; ret e) demo_heap
    = Ret (VRef 6%nat, h2)
    /\ h2 !! 1%nat = Some (CArray [VRef 3%nat]).
Proof.
  destruct (createEntity_then_destroyEntity demo_heap (VRef 0%nat) 1%nat
              [VRef 3%nat] VUndefined eq_refl eq_refl)
    as (entity & h2 & Hrun & Hreg & _).
  - constructor; [simpl; lia | constructor].
  - exists h2. split; [|exact Hreg].
    rewrite Hrun. f_equal. f_equal.
    vm_compute in Hrun. now injection Hrun as <- _.
Defined.

Lemma filter_vacuous_on {A} (P : A -> Prop) `{forall x, Decision (P x)}
    (xs : list A) :
  (forall x, x ∈ xs -> P x) -> filter P xs = xs.
Proof.
  induction xs as [|x xs IH]; intros HP; [reflexivity|].
  rewrite filter_cons_True by (apply HP; left).
  f_equal. apply IH. intros y Hy. apply HP. now right.
Qed.

(** X4. After [destroyEntity(entity)] the entity is out of every selection
    and the others are selected as before: in a registry of objects that
    lists [entity] once, [getEntities(query)] returns what it returned
    before, less [entity]. *)
Theorem destroyed_entity_is_not_selected h this a before entity after q names :
  own_field h this "entities" = Some (VRef a) ->
  h !! a = Some (CArray (before ++ entity :: after)) ->
  Forall (is_object h) (before ++ entity :: after) ->
  entity ∉ before -> entity ∉ after ->
  h !! q = Some (CArray (VStr <$> names)) ->
  exists selected h1 selected1,
    EntityManager_getEntities this (VRef q) h = Ret (selected, h)
    /\ EntityManager_destroyEntity this entity h = Ret (tt, h1)
    /\ EntityManager_getEntities this (VRef q) h1 = Ret (selected1, h1)
    /\ selected1 = filter (fun e => e <> entity) selected
    /\ entity ∉ selected1.
Proof.
  intros Hents Ha Hobj Hb Haf Hq.
  assert (Hlt : (a < length h)%nat) by (eapply lookup_lt_Some; eauto).
  set (owner := fun e => Forall (owns h e) names).
  set (h1 := <[a := CArray (before ++ after)]> h).
  assert (Hqa : q <> a).
  { intros ->. rewrite Ha in Hq. injection Hq as Hq.
    rewrite Forall_forall in Hobj.
    assert (Hin : entity ∈ before ++ entity :: after)
      by (apply elem_of_app; right; left).
    pose proof (Hobj _ Hin) as He. rewrite Hq in Hin.
    apply list_elem_of_fmap in Hin as (s & -> & _). exact He. }
  assert (Hobj1 : Forall (is_object h1) (before ++ after)).
  { apply Forall_app in Hobj as [H1 H2]. apply Forall_cons in H2 as [_ H2].
    apply Forall_app. split; (eapply Forall_impl; [eassumption|]);
      intros e He; now apply (is_object_write_array h a _ _ e Ha). }
  exists (filter owner (before ++ entity :: after)), h1,
    (filter owner (before ++ after)).
  split; [|split; [|split; [|split]]].
  - exact (getEntities_eq h this a _ q names
             (own_field_Get _ _ _ _ Hents) Ha Hq Hobj).
  - exact (destroyEntity_first h this a entity before after
             (own_field_Get _ _ _ _ Hents) Ha Hb).
  - rewrite (getEntities_eq h1 this a (before ++ after) q names).
    + f_equal. f_equal. apply filter_agree.
      apply Forall_forall. intros e _. unfold owner.
      rewrite !Forall_forall. split; intros H name Hname;
        [apply (proj1 (owns_write_array h a _ (before ++ after) e name Ha))
        |apply (proj2 (owns_write_array h a _ (before ++ after) e name Ha))];
        auto.
    + apply own_field_Get. subst h1.
      now rewrite (own_field_write_array h a _ _ _ _ Ha).
    + now apply lookup_write_array.
    + subst h1. now rewrite list_lookup_insert_ne.
    + exact Hobj1.
  - rewrite !filter_app, filter_cons.
    destruct (decide (owner entity)).
    + rewrite filter_cons_False by tauto.
      rewrite !(filter_vacuous_on (fun e => e <> entity));
        [reflexivity | |].
      * intros e [_ He]%list_elem_of_filter ->. contradiction.
      * intros e [_ He]%list_elem_of_filter ->. contradiction.
    + rewrite !(filter_vacuous_on (fun e => e <> entity));
        [reflexivity | |].
      * intros e [_ He]%list_elem_of_filter ->. contradiction.
      * intros e [_ He]%list_elem_of_filter ->. contradiction.
  - intros [_ Hin]%list_elem_of_filter.
    apply elem_of_app in Hin as [?|?]; contradiction.
Qed.


Lemma destroyed_entity_is_not_selected_witness :
  exists h1,
    EntityManager_getEntities (VRef 0%nat) (VRef 5%nat) two_entities_heap
    = Ret ([VRef 3%nat; VRef 4%nat], two_entities_heap)
    /\ EntityManager_destroyEntity (VRef 0%nat) (VRef 3%nat) two_entities_heap
       = Ret (tt, h1)
    /\ EntityManager_getEntities (VRef 0%nat) (VRef 5%nat) h1
       = Ret ([VRef 4%nat], h1).
Proof.
  destruct (destroyed_entity_is_not_selected two_entities_heap (VRef 0%nat)
              1%nat [] (VRef 3%nat) [VRef 4%nat] 5%nat ["position"]
              eq_refl eq_refl)
    as (selected & h1 & selected1 & Hsel & Hdes & Hsel1 & Heq & _).
  - repeat constructor.
  - apply not_elem_of_nil.
  - apply (bool_decide_unpack _). reflexivity.
  - reflexivity.
  - exists h1.
    assert (selected = [VRef 3%nat; VRef 4%nat])
      by (vm_compute in Hsel; congruence).
    subst selected. split; [exact Hsel|]. split; [exact Hdes|].
    rewrite Hsel1, Heq. reflexivity.
Defined.

(** X5. [pause()] empties the registry where it is: the array of the
    registry is the same array, now empty, and no other cell changes.
    Afterwards [getEntities] returns the empty result for every argument,
    and [createEntity] works as on a new manager: the registry holds the
    new entity alone. *)
Theorem pause_empties_registry h this a es :
  own_field h this "entities" = Some (VRef a) ->
  h !! a = Some (CArray es) ->
  exists h1,
    EntityManager_pause this h = Ret (tt, h1)
    /\ h1 = <[a := CArray []]> h
    /\ (forall query, EntityManager_getEntities this query h1 = Ret ([], h1))
    /\ forall priority,
         exists entity h2,
           EntityManager_createEntity this priority h1 = Ret (entity, h2)
           /\ h2 !! a = Some (CArray [entity]).
Proof.
  intros Hents Ha.
  assert (Hlt : (a < length h)%nat) by (eapply lookup_lt_Some; eauto).
  set (h1 := <[a := CArray []]> h).
  assert (Ha1 : h1 !! a = Some (CArray [])) by now apply lookup_write_array.
  assert (Hents1 : own_field h1 this "entities" = Some (VRef a)).
  { subst h1. now rewrite (own_field_write_array h a es). }
  exists h1. split; [|split; [reflexivity|split]].
  - unfold EntityManager_pause.
    rewrite (bind_Ret _ _ _ _ _ (get_Ret _ _ _ _ (own_field_Get _ _ _ _ Hents))).
    unfold set_length_0. rewrite Ha.
    exact (write_array_Ret _ _ _ _ Ha).
  - intros query. unfold EntityManager_getEntities.
    rewrite (bind_Ret _ _ _ _ _
               (get_Ret _ _ _ _ (own_field_Get _ _ _ _ Hents1))).
    now rewrite (bind_Ret _ _ _ _ _ (read_array_Ret _ _ _ Ha1)).
  - intros priority. eexists _, _.
    split; [exact (createEntity_eq h1 this a [] priority Hents1 Ha1)|].
    rewrite lookup_app_l by (now rewrite length_insert; subst h1;
                             rewrite length_insert).
    apply list_lookup_insert_eq. subst h1. now rewrite length_insert.
Qed.

Lemma pause_empties_registry_witness :
  exists h1,
    EntityManager_pause (VRef 0%nat) two_entities_heap = Ret (tt, h1)
    /\ EntityManager_getEntities (VRef 0%nat) VUndefined h1 = Ret ([], h1).
Proof.
  destruct (pause_empties_registry two_entities_heap (VRef 0%nat) 1%nat
              [VRef 3%nat; VRef 4%nat] eq_refl eq_refl)
    as (h1 & Hrun & _ & Hget & _).
  exists h1. split; [exact Hrun | apply Hget].
Defined.

(** ** [sortEntities] *)


Lemma StronglySorted_priority_le h keys order :
  Forall2 (has_priority h) keys order ->
  StronglySorted Z.le keys ->
  StronglySorted (priority_le h) order.
Proof.
  induction 1 as [|n x keys order Hx Hrest IH]; intros Hs; [constructor|].
  apply StronglySorted_inv in Hs as [Hs Hn].
  constructor; [now apply IH|].
  clear IH Hs. induction Hrest as [|m y keys order Hy _ IH]; [constructor|].
  apply Forall_cons in Hn as [Hnm Hn].
  constructor; [now exists n, m | now apply IH].
Qed.

Lemma StronglySorted_filter {A} (R : relation A) (P : A -> Prop)
    `{forall x, Decision (P x)} (l : list A) :
  StronglySorted R l -> StronglySorted R (filter P l).
Proof.
  induction 1 as [|x l Hl IH Hx]; [constructor|].
  rewrite filter_cons. destruct (decide (P x)); [|exact IH].
  constructor; [exact IH|].
  apply Forall_forall. intros y [_ Hy]%list_elem_of_filter.
  rewrite Forall_forall in Hx. now apply Hx.
Qed.

Lemma sortEntities_eq h this a es ns :
  Get h this "entities" = Ret (VRef a) ->
  h !! a = Some (CArray es) ->
  Forall2 (has_priority h) ns es ->
  EntityManager_sortEntities this h
  = Ret (tt, <[a := CArray (sort_by (zip ns es)).*2]> h).
Proof.
  intros Hthis Ha Hns. unfold EntityManager_sortEntities.
  rewrite (bind_Ret _ _ _ _ _ (get_Ret _ _ _ _ Hthis)).
  exact (sort_by_priority_Ret _ _ _ _ Ha (Forall2_priorities _ _ _ Hns)).
Qed.

(** X6. [sortEntities()] on a registry whose entities all have a number
    under [priority] reorders the registry and nothing else: the new
    registry has the same entries, in non-decreasing order of priority,
    and entities of equal priority keep their relative order. *)
Theorem sortEntities_sorts_registry h this a es ns :
  Get h this "entities" = Ret (VRef a) ->
  h !! a = Some (CArray es) ->
  Forall2 (has_priority h) ns es ->
  exists order,
    EntityManager_sortEntities this h = Ret (tt, <[a := CArray order]> h)
    /\ order ≡ₚ es
    /\ StronglySorted (priority_le h) order
    /\ (forall n, filter (has_priority h n) order
                  = filter (has_priority h n) es).
Proof.
  intros Hthis Ha Hns.
  destruct (sorted_registry h ns es Hns) as (Hperm & Hkeys & Hsorted & Hstable).
  exists (sort_by (zip ns es)).*2.
  split; [now apply sortEntities_eq|].
  split; [exact Hperm|]. split; [|exact Hstable].
  now apply StronglySorted_priority_le with (sort_by (zip ns es)).*1.
Qed.

Lemma sortEntities_sorts_registry_witness :
  exists order,
    EntityManager_sortEntities (VRef 0%nat) two_entities_heap
    = Ret (tt, <[1%nat := CArray order]> two_entities_heap)
    /\ order ≡ₚ [VRef 3%nat; VRef 4%nat].
Proof.
  destruct (sortEntities_sorts_registry two_entities_heap (VRef 0%nat) 1%nat
              [VRef 3%nat; VRef 4%nat] [5; 2] eq_refl eq_refl)
    as (order & Hrun & Hperm & _).
  - repeat constructor.
  - exists order. split; [exact Hrun | exact Hperm].
Defined.

(** X7. After [sortEntities()] every selection comes in priority order: for a
    registry of objects with numeric priorities, [getEntities(query)]
    then returns the same entities as before the sort, in non-decreasing
    order of priority. *)
Theorem getEntities_after_sortEntities h this a es ns q names :
  own_field h this "entities" = Some (VRef a) ->
  h !! a = Some (CArray es) ->
  Forall2 (has_priority h) ns es ->
  Forall (is_object h) es ->
  h !! q = Some (CArray (VStr <$> names)) ->
  q <> a ->
  exists h1 selected selected1,
    EntityManager_getEntities this (VRef q) h = Ret (selected, h)
    /\ EntityManager_sortEntities this h = Ret (tt, h1)
    /\ EntityManager_getEntities this (VRef q) h1 = Ret (selected1, h1)
    /\ selected1 ≡ₚ selected
    /\ StronglySorted (priority_le h) selected1.
Proof.
  intros Hents Ha Hns Hobj Hq Hqa.
  assert (Hlt : (a < length h)%nat) by (eapply lookup_lt_Some; eauto).
  destruct (sorted_registry h ns es Hns) as (Hperm & Hkeys & Hsorted & _).
  set (order := (sort_by (zip ns es)).*2) in *.
  set (owner := fun e => Forall (owns h e) names).
  exists (<[a := CArray order]> h), (filter owner es), (filter owner order).
  split; [|split; [|split; [|split]]].
  - exact (getEntities_eq h this a _ q names
             (own_field_Get _ _ _ _ Hents) Ha Hq Hobj).
  - exact (sortEntities_eq h this a es ns (own_field_Get _ _ _ _ Hents) Ha Hns).
  - rewrite (getEntities_eq (<[a := CArray order]> h) this a order q names).
    + f_equal. f_equal. apply filter_agree.
      apply Forall_forall. intros e _. unfold owner.
      rewrite !Forall_forall. split; intros H name Hname;
        [apply (proj1 (owns_write_array h a _ order e name Ha))
        |apply (proj2 (owns_write_array h a _ order e name Ha))];
        auto.
    + apply own_field_Get.
      now rewrite (own_field_write_array h a _ _ _ _ Ha).
    + now apply lookup_write_array.
    + now rewrite list_lookup_insert_ne.
    + apply Forall_forall. intros e He.
      apply (is_object_write_array h a _ order e Ha).
      rewrite Forall_forall in Hobj. apply Hobj.
      now rewrite <- Hperm.
  - now apply filter_Permutation.
  - apply StronglySorted_filter.
    now apply StronglySorted_priority_le with (sort_by (zip ns es)).*1.
Qed.

Lemma getEntities_after_sortEntities_witness :
  exists h1,
    EntityManager_sortEntities (VRef 0%nat) two_entities_heap = Ret (tt, h1)
    /\ EntityManager_getEntities (VRef 0%nat) (VRef 5%nat) h1
       = Ret ([VRef 4%nat; VRef 3%nat], h1).
Proof.
  destruct (getEntities_after_sortEntities two_entities_heap (VRef 0%nat)
              1%nat [VRef 3%nat; VRef 4%nat] [5; 2] 5%nat ["position"]
              eq_refl eq_refl)
    as (h1 & selected & selected1 & _ & Hsort & Hsel & _).
  - repeat constructor.
  - repeat constructor.
  - reflexivity.
  - discriminate.
  - exists h1. split; [exact Hsort|].
    rewrite Hsel. f_equal. f_equal.
    vm_compute in Hsort. injection Hsort as <-.
    vm_compute in Hsel. congruence.
Defined.

(** ** [registerSystem] and a new manager *)

Lemma registerSystem_eq h this b ss l proto ps :
  own_field h this "systems" = Some (VRef b) ->
  h !! b = Some (CArray ss) ->
  h !! l = Some (CObject proto ps) ->
  EntityManager_registerSystem this (VRef l) h
  = Ret (VRef l,
         <[b := CArray (ss ++ [VRef l])]>
           (<[l := CObject proto (set_prop "entityManager" this ps)]> h)).
Proof.
  intros Hsys Hb Hl.
  assert (Hne : b <> l) by (intros ->; congruence).
  set (hA := <[l := CObject proto (set_prop "entityManager" this ps)]> h).
  assert (HbA : hA !! b = Some (CArray ss)).
  { subst hA. now rewrite list_lookup_insert_ne by congruence. }
  assert (HsysA : own_field hA this "systems" = Some (VRef b)).
  { unfold own_field in *. destruct this as [| | | | |m]; try discriminate.
    subst hA. destruct (decide (m = l)) as [->|Hm].
    - rewrite Hl in Hsys.
      rewrite list_lookup_insert_eq by (eapply lookup_lt_Some; eauto).
      now rewrite assoc_set_prop_ne by discriminate.
    - now rewrite list_lookup_insert_ne by congruence. }
  unfold EntityManager_registerSystem.
  rewrite (bind_Ret _ _ _ _ _ (put_Ret _ _ _ _ "entityManager" _ Hl ltac:(discriminate))). fold hA.
  rewrite (bind_Ret _ _ _ _ _
             (get_Ret _ _ _ _ (own_field_Get _ _ _ _ HsysA))).
  now rewrite (bind_Ret _ _ _ _ _ (push_Ret _ _ _ _ HbA)).
Qed.

(** X8. [registerSystem(system)] of a manager with a registry of systems:
    for an object it returns the system, stores the manager in the
    system's field [entityManager], leaving its other fields, and appends
    the system to the registry, leaving every other cell. It does not look
    for the system in the registry: registering it again appends it
    again. A system that is not an object is refused with a [TypeError],
    whatever the state. *)
Theorem registerSystem_appends_and_links h this b ss l proto ps :
  own_field h this "systems" = Some (VRef b) ->
  h !! b = Some (CArray ss) ->
  h !! l = Some (CObject proto ps) ->
  (exists h1 h2,
     EntityManager_registerSystem this (VRef l) h = Ret (VRef l, h1)
     /\ own_field h1 (VRef l) "entityManager" = Some this
     /\ (forall k, k <> "entityManager" ->
           own_field h1 (VRef l) k = own_field h (VRef l) k)
     /\ h1 !! b = Some (CArray (ss ++ [VRef l]))
     /\ (forall m, m <> l -> m <> b -> h1 !! m = h !! m)
     /\ EntityManager_registerSystem this (VRef l) h1 = Ret (VRef l, h2)
     /\ h2 !! b = Some (CArray (ss ++ [VRef l; VRef l])))
  /\ (forall system h0,
        (forall m, system <> VRef m) ->
        EntityManager_registerSystem this system h0 = Throw TypeError).
Proof.
  intros Hsys Hb Hl.
  assert (Hne : b <> l) by (intros ->; congruence).
  assert (Hlb : (b < length h)%nat) by (eapply lookup_lt_Some; eauto).
  assert (Hll : (l < length h)%nat) by (eapply lookup_lt_Some; eauto).
  set (ps1 := set_prop "entityManager" this ps).
  set (h1 := <[b := CArray (ss ++ [VRef l])]> (<[l := CObject proto ps1]> h)).
  assert (Hl1 : h1 !! l = Some (CObject proto ps1)).
  { subst h1. rewrite list_lookup_insert_ne by congruence.
    now apply list_lookup_insert_eq. }
  assert (Hb1 : h1 !! b = Some (CArray (ss ++ [VRef l]))).
  { subst h1. apply list_lookup_insert_eq. now rewrite length_insert. }
  assert (Hsys1 : own_field h1 this "systems" = Some (VRef b)).
  { unfold own_field in *. destruct this as [| | | | |m]; try discriminate.
    destruct (decide (m = l)) as [->|Hm].
    - rewrite Hl in Hsys. rewrite Hl1. subst ps1.
      now rewrite assoc_set_prop_ne by discriminate.
    - destruct (decide (m = b)) as [->|Hmb]; [rewrite Hb in Hsys; discriminate|].
      subst h1. now rewrite !list_lookup_insert_ne by congruence. }
  split.
  - exists h1,
      (<[b := CArray ((ss ++ [VRef l]) ++ [VRef l])]>
         (<[l := CObject proto (set_prop "entityManager" this ps1)]> h1)).
    split; [exact (registerSystem_eq h this b ss l proto ps Hsys Hb Hl)|].
    split; [unfold own_field; rewrite Hl1; apply assoc_set_prop_eq|].
    split.
    { intros k Hk. unfold own_field. rewrite Hl1, Hl. subst ps1.
      now apply assoc_set_prop_ne. }
    split; [exact Hb1|].
    split.
    { intros m Hml Hmb. subst h1.
      now rewrite !list_lookup_insert_ne by congruence. }
    split; [exact (registerSystem_eq h1 this b _ l proto ps1 Hsys1 Hb1 Hl1)|].
    rewrite list_lookup_insert_eq
      by (rewrite length_insert; eapply lookup_lt_Some; eauto).
    now rewrite <- app_assoc.
  - intros system h0 Hprim. unfold EntityManager_registerSystem.
    apply bind_Throw. unfold put.
    destruct system as [| | | | |m]; try reflexivity.
    now destruct (Hprim m).
Qed.

Lemma registerSystem_appends_and_links_witness :
  exists h1,
    EntityManager_registerSystem (VRef 0%nat) (VRef 6%nat) unregistered_heap
    = Ret (VRef 6%nat, h1)
    /\ own_field h1 (VRef 6%nat) "entityManager" = Some (VRef 0%nat)
    /\ EntityManager_registerSystem (VRef 0%nat) VNull unregistered_heap
       = Throw TypeError.
Proof.
  destruct (registerSystem_appends_and_links unregistered_heap (VRef 0%nat)
              2%nat [] 6%nat None
              [("entityManager", VNull); ("priority", VNum 0);
               ("query", VRef 7%nat)]
              eq_refl eq_refl eq_refl)
    as [(h1 & _ & Hrun & Hlink & _) Herr].
  exists h1. split; [exact Hrun|]. split; [exact Hlink|].
  apply Herr. discriminate.
Defined.

Lemma EntityManager_constructor_eq h :
  EntityManager_constructor h
  = Ret (VRef (length h),
         h ++ [CObject None [("entities", VRef (S (length h)));
                             ("systems", VRef (S (S (length h))))];
               CArray []; CArray []]).
Proof.
  unfold EntityManager_constructor.
  rewrite (bind_Ret _ _ h (VRef (length h)) (h ++ [CObject None []]))
    by reflexivity.
  rewrite (bind_Ret _ _ _ (VRef (S (length h)))
             (h ++ [CObject None []; CArray []])).
  2:{ unfold alloc. rewrite <- app_assoc, length_app, Nat.add_1_r.
      reflexivity. }
  erewrite bind_Ret by (apply put_fresh; discriminate).
  rewrite (bind_Ret _ _ _ (VRef (S (S (length h))))
             (h ++ [CObject None [("entities", VRef (S (length h)))];
                    CArray []; CArray []])).
  2:{ unfold alloc. rewrite <- app_assoc, length_app. simpl.
      do 2 f_equal. f_equal. lia. }
  now erewrite bind_Ret by (apply put_fresh; discriminate).
Qed.

(** X9. [new EntityManager()] makes three new cells and touches no other: the
    manager, which owns [entities] and [systems], and two distinct empty
    arrays for them. On the new manager [getEntities] returns nothing,
    whatever the query is, and a tick invokes nothing, whatever the
    systems would do, both without a change of state. *)
Theorem new_manager_is_empty h :
  exists this a b h1,
    EntityManager_constructor h = Ret (this, h ++ h1)
    /\ length h1 = 3%nat
    /\ is_object (h ++ h1) this
    /\ ~ allocated h this
    /\ own_field (h ++ h1) this "entities" = Some (VRef a)
    /\ own_field (h ++ h1) this "systems" = Some (VRef b)
    /\ a <> b
    /\ (h ++ h1) !! a = Some (CArray [])
    /\ (h ++ h1) !! b = Some (CArray [])
    /\ (forall query,
          EntityManager_getEntities this query (h ++ h1) = Ret ([], h ++ h1))
    /\ (forall update_method fuel delta time,
          EntityManager_update update_method fuel this delta time (h ++ h1)
          = Ret ([], h ++ h1)).
Proof.
  set (a := S (length h)). set (b := S (S (length h))).
  set (h1 := [CObject None [("entities", VRef a); ("systems", VRef b)];
              CArray []; CArray []]).
  assert (H0 : (h ++ h1) !! length h
               = Some (CObject None [("entities", VRef a);
                                     ("systems", VRef b)])).
  { apply lookup_alloc. }
  assert (Ha : (h ++ h1) !! a = Some (CArray [])).
  { subst a. rewrite lookup_app_r by lia.
    now replace (S (length h) - length h)%nat with 1%nat by lia. }
  assert (Hb : (h ++ h1) !! b = Some (CArray [])).
  { subst b. rewrite lookup_app_r by lia.
    now replace (S (S (length h)) - length h)%nat with 2%nat by lia. }
  assert (Hents : own_field (h ++ h1) (VRef (length h)) "entities"
                  = Some (VRef a)).
  { unfold own_field. now rewrite H0. }
  assert (Hsys : own_field (h ++ h1) (VRef (length h)) "systems"
                 = Some (VRef b)).
  { unfold own_field. now rewrite H0. }
  exists (VRef (length h)), a, b, h1.
  split; [apply EntityManager_constructor_eq|].
  split; [reflexivity|].
  split; [unfold is_object; now rewrite H0|].
  split; [simpl; lia|].
  split; [exact Hents|]. split; [exact Hsys|].
  split; [subst a b; lia|].
  split; [exact Ha|]. split; [exact Hb|].
  split.
  - intros query. unfold EntityManager_getEntities.
    rewrite (bind_Ret _ _ _ _ _
               (get_Ret _ _ _ _ (own_field_Get _ _ _ _ Hents))).
    now rewrite (bind_Ret _ _ _ _ _ (read_array_Ret _ _ _ Ha)).
  - intros update_method fuel delta time. unfold EntityManager_update.
    rewrite (bind_Ret _ _ _ _ _
               (get_Ret _ _ _ _ (own_field_Get _ _ _ _ Hsys))).
    rewrite (bind_Ret _ _ _ _ _
               (sort_by_priority_Ret _ _ [] [] Hb eq_refl)).
    change ((sort_by (zip [] [])).*2) with (@nil value).
    rewrite (list_insert_id _ _ _ Hb).
    rewrite (bind_Ret _ _ _ _ _
               (get_Ret _ _ _ _ (own_field_Get _ _ _ _ Hsys))).
    destruct fuel; simpl;
      now rewrite (bind_Ret _ _ _ _ _ (read_array_Ret _ _ _ Hb)).
Qed.

(** ** [update] on a registry that is in order *)

Lemma sort_by_sorted_id l :
  StronglySorted (fun a b : Z * value => a.1 ≤ b.1) l -> sort_by l = l.
Proof.
  induction 1 as [|x l Hl IH Hx]; [reflexivity|].
  change (sort_by (x :: l)) with (insert_by x (sort_by l)). rewrite IH.
  destruct l as [|y l']; [reflexivity|]. simpl.
  apply Forall_cons in Hx as [Hxy _].
  unfold comparator. now rewrite decide_True by lia.
Qed.

Lemma zip_sorted (ns : list Z) (ss : list value) :
  StronglySorted Z.le ns ->
  StronglySorted (fun a b : Z * value => a.1 ≤ b.1) (zip ns ss).
Proof.
  intros Hs. revert ss.
  induction Hs as [|n ns Hns IH Hn]; intros [|s ss]; try constructor.
  - apply IH.
  - apply Forall_forall. intros [m x] Hmx.
    apply elem_of_zip_l in Hmx. rewrite Forall_forall in Hn.
    now apply Hn.
Qed.

Lemma own_priority h n system :
  own_field h system "priority" = Some (VNum n) -> has_priority h n system.
Proof.
  intros Hp. unfold has_priority, priority_of.
  rewrite (own_field_Get _ _ _ _ Hp).
  unfold own_field in Hp. now destruct system.
Qed.

Lemma sorted_order (ns : list Z) (ss : list value) :
  length ns = length ss ->
  StronglySorted Z.le ns ->
  (sort_by (zip ns ss)).*2 = ss.
Proof.
  intros Hlen Hs. rewrite (sort_by_sorted_id _ (zip_sorted ns ss Hs)).
  apply snd_zip. lia.
Qed.

(** X10. When the registry of systems is already in non-decreasing order of
    priority, as it is when every system has the same priority, a tick
    invokes the systems in the order of the registry, once per entry and
    with [delta] and [time] as given, and leaves the registry in that
    order. The [update] methods are any that return and leave the
    registry as it is, in the states of an invariant [Inv] that they
    keep and that holds when the tick starts; it holds when the tick
    ends. *)
Theorem update_keeps_sorted_registry
    (Inv : heap -> Prop) update_method fuel h this b ss ns delta time :
  own_field h this "systems" = Some (VRef b) ->
  h !! b = Some (CArray ss) ->
  Forall2 (has_priority h) ns ss ->
  StronglySorted Z.le ns ->
  (length ss <= fuel)%nat ->
  Inv h ->
  (forall system h0,
      system ∈ ss -> Inv h0 ->
      exists h1, update_method system delta time h0 = Ret (tt, h1)
                 /\ Inv h1 /\ h1 !! b = h0 !! b) ->
  exists h',
    EntityManager_update update_method fuel this delta time h
    = Ret ((fun system => Call system delta time) <$> ss, h')
    /\ h' !! b = Some (CArray ss)
    /\ Inv h'.
Proof.
  intros Hsys Hb Hns Hsorted Hfuel Hinv Hrun.
  assert (Horder : (sort_by (zip ns ss)).*2 = ss).
  { apply sorted_order; [eapply Forall2_length; eauto | assumption]. }
  destruct (update_run Inv update_method fuel h this b ss ns delta time
              Hsys Hb Hns Hfuel) as (h' & Htick & Hb' & Hinv').
  - rewrite Horder. now rewrite (list_insert_id h b (CArray ss) Hb).
  - exact Hrun.
  - rewrite Horder in Htick, Hb'. now exists h'.
Qed.

Lemma update_keeps_sorted_registry_witness :
  exists h',
    EntityManager_update counting_update 2 (VRef 0%nat) (VNum 16) (VNum 32)
      idle_systems_heap
    = Ret ([Call (VRef 3%nat) (VNum 16) (VNum 32);
            Call (VRef 5%nat) (VNum 16) (VNum 32)], h')
    /\ own_field h' (VRef 3%nat) "selected" = Some (VNum 0).
Proof.
  destruct (update_keeps_sorted_registry
              (fun h0 =>
                 In h0 (counting_states idle_systems_heap
                          [VRef 3%nat; VRef 5%nat]))
              counting_update 2 idle_systems_heap
              (VRef 0%nat) 2%nat [VRef 3%nat; VRef 5%nat] [0; 0]
              (VNum 16) (VNum 32) eq_refl eq_refl)
    as (h' & Htick & _).
  - repeat constructor.
  - repeat constructor; lia.
  - simpl. lia.
  - left. reflexivity.
  - counting_update_returns.
  - exists h'. split; [exact Htick|].
    vm_compute in Htick. injection Htick as <-. reflexivity.
Defined.

(** ** Systems that keep the [update] of the base class *)

(** The loop over an array whose body leaves the state alone. *)
Lemma for_of_pure {A} (body : value -> M A) (f : value -> A) b xs h :
  h !! b = Some (CArray xs) ->
  (forall x, x ∈ xs -> body x h = Ret (f x, h)) ->
  forall fuel i,
    (length xs - i <= fuel)%nat ->
    for_of fuel (VRef b) i body h = Ret (f <$> drop i xs, h).
Proof.
  intros Hb Hbody. induction fuel as [|fuel IH]; intros i Hfuel.
  - simpl. rewrite (bind_Ret _ _ _ _ _ (read_array_Ret _ _ _ Hb)).
    rewrite (lookup_ge_None_2 xs i) by lia.
    now rewrite drop_ge by lia.
  - simpl. rewrite (bind_Ret _ _ _ _ _ (read_array_Ret _ _ _ Hb)).
    destruct (xs !! i) as [x|] eqn:Hx.
    + rewrite (bind_Ret _ _ _ _ _
                 (Hbody x (list_elem_of_lookup_2 _ _ _ Hx))).
      rewrite (bind_Ret _ _ _ _ _ (IH (S i) ltac:(lia))).
      unfold ret. now rewrite (drop_S _ _ _ Hx).
    + apply lookup_ge_None in Hx. now rewrite drop_ge by lia.
Qed.

Lemma update_of_base_systems fuel h this b ss ns delta time :
  own_field h this "systems" = Some (VRef b) ->
  h !! b = Some (CArray ss) ->
  Forall2 (has_priority h) ns ss ->
  (length ss <= fuel)%nat ->
  EntityManager_update System_update fuel this delta time h
  = Ret ((fun system => Call system delta time) <$> (sort_by (zip ns ss)).*2,
         <[b := CArray (sort_by (zip ns ss)).*2]> h).
Proof.
  intros Hsys Hb Hns Hfuel.
  destruct (sorted_registry h ns ss Hns) as (Hperm & Hkeys & _).
  set (order := (sort_by (zip ns ss)).*2) in *.
  set (hs := <[b := CArray order]> h).
  assert (Hbs : hs !! b = Some (CArray order)).
  { apply list_lookup_insert_eq. eapply lookup_lt_Some; eauto. }
  assert (Hsys' : own_field hs this "systems" = Some (VRef b)).
  { subst hs. now rewrite (own_field_write_array h b ss order _ _ Hb). }
  unfold EntityManager_update.
  rewrite (bind_Ret _ _ _ _ _ (get_Ret _ _ _ _ (own_field_Get _ _ _ _ Hsys))).
  rewrite (bind_Ret _ _ _ _ _
             (sort_by_priority_Ret _ _ _ _ Hb (Forall2_priorities _ _ _ Hns))).
  fold order. fold hs.
  rewrite (bind_Ret _ _ _ _ _ (get_Ret _ _ _ _ (own_field_Get _ _ _ _ Hsys'))).
  rewrite (for_of_pure _ (fun system => Call system delta time) b order hs Hbs).
  - now rewrite drop_0.
  - intros x Hx.
    apply (list_elem_of_lookup_1 order) in Hx as [i Hi].
    destruct (Forall2_lookup_r _ _ _ _ _ Hkeys Hi) as (n & _ & Hn).
    now apply has_priority_ref in Hn as [l ->].
  - rewrite (Permutation_length Hperm). lia.
Qed.

Lemma has_priority_write_array h b ss ys keys xs :
  h !! b = Some (CArray ss) ->
  Forall2 (has_priority h) keys xs ->
  Forall (fun s => exists n, own_field h s "priority" = Some (VNum n)) xs ->
  Forall2 (has_priority (<[b := CArray ys]> h)) keys xs.
Proof.
  intros Hb Hkeys Hall.
  induction Hkeys as [|n s keys rest Hn _ IH]; [constructor|].
  apply Forall_cons in Hall as [[m Hm] Hall].
  constructor; [|now apply IH].
  rewrite (has_priority_fun h n m s Hn (own_priority _ _ _ Hm)).
  apply own_priority.
  now rewrite (own_field_write_array h b ss ys _ _ Hb).
Qed.

(** X11. In a world whose systems all keep the empty [update] of the base
    class and own a number under [priority], a tick invokes every system
    of the registry once and changes nothing but the order of the
    registry; the next tick, whatever its [delta] and [time], invokes
    them in the same order as the first and changes nothing at all. *)
Theorem tick_of_base_systems_repeats fuel h this b ss ns delta time :
  own_field h this "systems" = Some (VRef b) ->
  h !! b = Some (CArray ss) ->
  Forall2 (fun n system => own_field h system "priority" = Some (VNum n))
    ns ss ->
  (length ss <= fuel)%nat ->
  exists order,
    order ≡ₚ ss
    /\ EntityManager_update System_update fuel this delta time h
       = Ret ((fun system => Call system delta time) <$> order,
              <[b := CArray order]> h)
    /\ forall delta' time',
         EntityManager_update System_update fuel this delta' time'
           (<[b := CArray order]> h)
         = Ret ((fun system => Call system delta' time') <$> order,
                <[b := CArray order]> h).
Proof.
  intros Hsys Hb Hown Hfuel.
  assert (Hns : Forall2 (has_priority h) ns ss).
  { eapply Forall2_impl; [exact Hown|]. intros n s. apply own_priority. }
  destruct (sorted_registry h ns ss Hns) as (Hperm & Hkeys & _).
  set (sorted := sort_by (zip ns ss)) in *.
  set (order := sorted.*2) in *.
  set (hs := <[b := CArray order]> h).
  assert (Hbs : hs !! b = Some (CArray order)).
  { apply list_lookup_insert_eq. eapply lookup_lt_Some; eauto. }
  assert (Hsys' : own_field hs this "systems" = Some (VRef b)).
  { subst hs. now rewrite (own_field_write_array h b ss order _ _ Hb). }
  assert (Hkeys' : Forall2 (has_priority hs) sorted.*1 order).
  { assert (Hall : Forall (fun s => exists n,
                             own_field h s "priority" = Some (VNum n)) order).
    { apply Forall_forall. intros s Hs. rewrite Hperm in Hs.
      apply (list_elem_of_lookup_1 ss) in Hs as [i Hi].
      destruct (Forall2_lookup_r _ _ _ _ _ Hown Hi) as (n & _ & Hn).
      now exists n. }
    exact (has_priority_write_array h b ss order _ _ Hb Hkeys Hall). }
  assert (Hagain : (sort_by (zip sorted.*1 order)).*2 = order).
  { subst order. rewrite zip_fst_snd. subst sorted.
    now rewrite (sort_by_sorted_id _ (sort_by_sorted (zip ns ss))). }
  exists order. split; [exact Hperm|]. split.
  - now apply update_of_base_systems.
  - intros delta' time'.
    pose proof (update_of_base_systems fuel hs this b order sorted.*1
                  delta' time' Hsys' Hbs Hkeys') as Htick.
    rewrite Hagain, (list_insert_id _ _ _ Hbs) in Htick.
    apply Htick. rewrite (Permutation_length Hperm). lia.
Qed.

Lemma tick_of_base_systems_repeats_witness :
  exists order,
    order ≡ₚ [VRef 3%nat; VRef 5%nat]
    /\ EntityManager_update System_update 2 (VRef 0%nat) (VNum 16) (VNum 32)
         idle_systems_heap
       = Ret ((fun system => Call system (VNum 16) (VNum 32)) <$> order,
              <[2%nat := CArray order]> idle_systems_heap).
Proof.
  destruct (tick_of_base_systems_repeats 2 idle_systems_heap (VRef 0%nat)
              2%nat [VRef 3%nat; VRef 5%nat] [0; 0] (VNum 16) (VNum 32)
              eq_refl eq_refl)
    as (order & Hperm & Htick & _).
  - repeat constructor.
  - simpl. lia.
  - exists order. split; [exact Hperm | exact Htick].
Defined.

(** ** Registering new systems, then the first tick *)





(** ** A system with a query of its own *)

(** X13. [registerSystem(new C(priority, query))] with a query that lists the
    field names [names]: the system holds the very array it was given,
    and its [getEntities()] returns the entries of the registry that own
    every one of the names, in registry order, without a change of
    state. *)
Theorem system_with_query_selects_owners
    h this a b es ss q names proto priority :
  own_field h this "entities" = Some (VRef a) ->
  h !! a = Some (CArray es) ->
  own_field h this "systems" = Some (VRef b) ->
  h !! b = Some (CArray ss) ->
  a <> b -> q <> b ->
  Forall (is_object h) es ->
  h !! q = Some (CArray (VStr <$> names)) ->
  exists system h1,
    (let! s := System_constructor proto priority (VRef q) in
     EntityManager_registerSystem this s) h = Ret (system, h1)
    /\ own_field h1 system "query" = Some (VRef q)
    /\ h1 !! q = Some (CArray (VStr <$> names))
    /\ System_getEntities system h1
       = Ret (filter (fun entity => Forall (owns h entity) names) es, h1).
Proof.
  intros Hents Ha Hsys Hb Hab Hqb Hobj Hq.
  assert (Hla : (a < length h)%nat) by (eapply lookup_lt_Some; eauto).
  assert (Hlb : (b < length h)%nat) by (eapply lookup_lt_Some; eauto).
  assert (Hlq : (q < length h)%nat) by (eapply lookup_lt_Some; eauto).
  set (p := if ToBoolean priority then priority else VNum 0).
  set (ps := [("entityManager", VNull); ("priority", p); ("query", VRef q)]).
  set (l := length h).
  set (h0 := h ++ [CObject proto ps]).
  set (ps1 := set_prop "entityManager" this ps).
  set (hA := <[l := CObject proto ps1]> h0).
  set (h1 := <[b := CArray (ss ++ [VRef l])]> hA).
  assert (Hl0 : h0 !! l = Some (CObject proto ps)) by apply lookup_alloc.
  assert (Hold : forall m, (m < length h)%nat -> m <> b -> h1 !! m = h !! m).
  { intros m Hm Hne. subst h1 hA h0 l.
    rewrite !list_lookup_insert_ne by lia. now rewrite lookup_app_l. }
  assert (Hl1 : h1 !! l = Some (CObject proto ps1)).
  { subst h1 hA. rewrite list_lookup_insert_ne by (subst l; lia).
    apply list_lookup_insert_eq. eapply lookup_lt_Some; eauto. }
  assert (Hown : forall e k, is_object h e ->
                   own_field h1 e k = own_field h e k).
  { intros e k He. unfold own_field, is_object in *.
    destruct e as [| | | | |m]; try reflexivity.
    destruct (h !! m) as [[pr mps|]|] eqn:Em; try contradiction.
    rewrite Hold; [now rewrite Em| eapply lookup_lt_Some; eauto|].
    intros ->. congruence. }
  exists (VRef l), h1.
  split.
  { rewrite (bind_Ret _ _ _ _ _ (System_constructor_eq _ _ _ _)).
    simpl ToBoolean. cbv iota.
    apply (registerSystem_eq h0 this b ss l proto ps).
    - now apply own_field_app.
    - subst h0. now rewrite lookup_app_l.
    - exact Hl0. }
  split; [unfold own_field; now rewrite Hl1|].
  split; [now rewrite Hold|].
  unfold System_getEntities.
  rewrite (bind_Ret _ _ h1 this h1).
  2:{ apply get_Ret. eapply Get_own; [exact Hl1|]. reflexivity. }
  assert (Hthis : is_object h this).
  { unfold own_field, is_object in *.
    destruct this as [| | | | |m]; try discriminate.
    now destruct (h !! m) as [[]|]. }
  rewrite <- (Hown this "entities" Hthis) in Hents.
  destruct this as [| | | | |m]; try contradiction.
  rewrite (bind_Ret _ _ h1 (VRef q) h1).
  2:{ apply get_Ret. eapply Get_own; [exact Hl1|]. reflexivity. }
  rewrite (getEntities_eq h1 (VRef m) a es q names).
  - f_equal. f_equal. apply filter_agree.
    apply Forall_forall. intros e He. rewrite Forall_forall in Hobj.
    unfold owns. rewrite !Forall_forall.
    split; intros H name Hname.
    + rewrite <- (Hown e name (Hobj e He)). now apply H.
    + rewrite (Hown e name (Hobj e He)). now apply H.
  - now apply own_field_Get.
  - now rewrite Hold.
  - now rewrite Hold.
  - eapply Forall_impl; [exact Hobj|]. intros e He.
    unfold is_object in *. destruct e as [| | | | |k]; try contradiction.
    destruct (h !! k) as [[pr kps|]|] eqn:Ek; try contradiction.
    rewrite Hold; [now rewrite Ek | eapply lookup_lt_Some; eauto|].
    intros ->. congruence.
Qed.

Lemma system_with_query_selects_owners_witness :
  exists system h1,
    (let! s := System_constructor None (VNum 1) (VRef 5%nat) in
     EntityManager_registerSystem (VRef 0%nat) s) two_entities_heap
    = Ret (system, h1)
    /\ System_getEntities system h1 = Ret ([VRef 3%nat; VRef 4%nat], h1).
Proof.
  destruct (system_with_query_selects_owners two_entities_heap (VRef 0%nat)
              1%nat 2%nat [VRef 3%nat; VRef 4%nat] [] 5%nat ["position"]
              None (VNum 1) eq_refl eq_refl eq_refl eq_refl)
    as (system & h1 & Hrun & _ & _ & Hsel).
  - discriminate.
  - discriminate.
  - repeat constructor.
  - reflexivity.
  - exists system, h1. split; [exact Hrun|]. rewrite Hsel.
    f_equal.
Defined.

(** ** [assign] with several components *)

(** X14. Components that have nothing to enumerate ([undefined], [null], a
    number, a boolean, an object without fields) are passed over:
    [assign] returns its receiver and changes nothing, whatever the
    receiver is. So does [assign()] without components. *)
Theorem assign_passes_over_empty_components h this components :
  Forall (fun component => for_in_keys h component = []) components ->
  Entity_assign this components h = Ret (this, h).
Proof.
  intros Hempty. unfold Entity_assign.
  assert (Hloop : forM components (assign_component this) h = Ret (tt, h)).
  { induction Hempty as [|component components Hc _ IH]; [reflexivity|].
    simpl. erewrite bind_Ret; [exact IH|].
    unfold assign_component.
    erewrite bind_Ret by (apply lift_Ret; reflexivity).
    now rewrite Hc. }
  now rewrite (bind_Ret _ _ _ _ _ Hloop).
Qed.

Lemma assign_passes_over_empty_components_witness :
  Entity_assign (VRef 1%nat) [VUndefined; VNull; VNum 3; VBool true]
    merge_heap
  = Ret (VRef 1%nat, merge_heap).
Proof.
  apply (assign_passes_over_empty_components merge_heap (VRef 1%nat)).
  repeat constructor.
Defined.

Lemma assign_fragment_owned h e eps f fps h' eps' :
  h !! e = Some (CObject None eps) ->
  h !! f = Some (CObject None fps) ->
  e <> f ->
  NoDup (keys fps) ->
  no_own_proto h ->
  "hasOwnProperty" ∉ keys eps ->
  "hasOwnProperty" ∉ keys fps ->
  Entity_assign (VRef e) [VRef f] h = Ret (VRef e, h') ->
  h' !! e = Some (CObject None eps') ->
  forall k, is_Some (assoc k eps')
            <-> is_Some (assoc k eps) \/ k ∈ keys fps.
Proof.
  intros He Hf Hne Hnd Hh Hown Hhas Hrun He' k.
  destruct (assign_fragment_frame h e eps f fps He Hf Hne Hnd Hh Hown Hhas)
    as (h1 & eps1 & Hrun1 & He1 & _ & _ & Hother & Hkeep & _).
  rewrite Hrun in Hrun1. injection Hrun1 as <-.
  rewrite He' in He1. injection He1 as <-.
  split.
  - intros Hk. destruct (decide (k ∈ keys fps)) as [Hin|Hout];
      [now right|left]. now rewrite <- (Hother k Hout).
  - intros [Hk|Hin]; [now apply Hkeep|].
    destruct (assign_fragment_key h e eps f fps k He Hf Hne Hnd
                Hh Hown Hhas Hin)
      as (h2 & eps2 & h3 & Hrun2 & He2 & _ & _ & _ & Hcase).
    rewrite Hrun in Hrun2. injection Hrun2 as <-.
    rewrite He' in He2. injection He2 as <-.
    destruct Hcase as [(_ & _ & -> & _)|[_ ->]]; eauto.
Qed.

(** [assign(f1, ..., fn)] for plain fragments, on the properties of the
    entity. *)
Lemma assign_plain_fragments h e eps (frs : list (loc * props)) :
  h !! e = Some (CObject None eps) ->
  no_own_proto h ->
  "hasOwnProperty" ∉ keys eps ->
  Forall (fun fr => fr.1 <> e /\ h !! fr.1 = Some (CObject None fr.2)
                    /\ NoDup (keys fr.2)
                    /\ "hasOwnProperty" ∉ keys fr.2) frs ->
  exists h' eps',
    Entity_assign (VRef e) ((fun fr => VRef fr.1) <$> frs) h
    = Ret (VRef e, h')
    /\ h' !! e = Some (CObject None eps')
    /\ (forall l, (l < length h)%nat -> l <> e -> h' !! l = h !! l)
    /\ (forall k, is_Some (assoc k eps')
                  <-> is_Some (assoc k eps)
                      \/ exists fr, fr ∈ frs /\ k ∈ keys fr.2).
Proof.
  intros He Hh Hown Hfrs. revert h eps He Hh Hown Hfrs.
  induction frs as [|[f fps] frs IH]; intros h eps He Hh Hown Hfrs.
  - exists h, eps. split; [reflexivity|]. split; [exact He|].
    split; [reflexivity|]. intros k. split; [now left|].
    intros [Hk|(fr & Hin & _)]; [exact Hk|]. now apply elem_of_nil in Hin.
  - apply Forall_cons in Hfrs as [(Hne & Hf & Hnd & Hhas) Hfrs]. simpl in *.
    destruct (assign_fragment_frame h e eps f fps He Hf
                (not_eq_sym Hne) Hnd Hh Hown Hhas)
      as (h1 & eps1 & Hrun1 & He1 & Hlen & Hold & Hother & _ & Hh1).
    pose proof (assign_fragment_owned h e eps f fps h1 eps1 He Hf
                  (not_eq_sym Hne) Hnd Hh Hown Hhas Hrun1 He1) as Hkeys1.
    destruct (IH h1 eps1 He1 Hh1) as (h' & eps' & Hrun & He' & Hold' & Hkeys).
    { apply not_elem_of_keys. rewrite Hother by assumption.
      now apply not_elem_of_keys. }
    { eapply Forall_impl; [exact Hfrs|].
      intros [g gps] (Hg & Hgl & Hgn & Hgh).
      simpl in *. repeat split; try assumption.
      rewrite Hold; [assumption| eapply lookup_lt_Some; eauto |assumption]. }
    exists h', eps'.
    split.
    { rewrite Entity_assign_cons.
      now rewrite (bind_Ret _ _ _ _ _ Hrun1). }
    split; [exact He'|].
    split.
    { intros l Hl Hle. rewrite Hold' by (try lia; assumption).
      now apply Hold. }
    intros k. rewrite Hkeys, Hkeys1. split.
    + intros [[Hk|Hk]|(fr & Hin & Hk)]; [now left| |].
      * right. exists (f, fps). split; [left|exact Hk].
      * right. exists fr. split; [now right|exact Hk].
    + intros [Hk|(fr & Hin & Hk)]; [now left; left|].
      apply elem_of_cons in Hin as [->|Hin]; [left; now right|].
      right. now exists fr.
Qed.

(** X15. [assign(f1, ..., fn)] for fragments that are plain objects other
    than the entity, when no field of the entity or of a fragment is
    named [hasOwnProperty] and no object owns a field named [__proto__]:
    the call returns the entity, which is still an object and owns
    exactly the fields it owned before and the keys of the fragments;
    every other cell that existed, the fragments among them, is as it
    was. *)
Theorem assign_collects_keys h e eps (frs : list (loc * props)) :
  h !! e = Some (CObject None eps) ->
  no_own_proto h ->
  "hasOwnProperty" ∉ keys eps ->
  Forall (fun fr => fr.1 <> e /\ h !! fr.1 = Some (CObject None fr.2)
                    /\ NoDup (keys fr.2)
                    /\ "hasOwnProperty" ∉ keys fr.2) frs ->
  exists h',
    Entity_assign (VRef e) ((fun fr => VRef fr.1) <$> frs) h
    = Ret (VRef e, h')
    /\ is_object h' (VRef e)
    /\ (forall l, (l < length h)%nat -> l <> e -> h' !! l = h !! l)
    /\ (forall k, owns h' (VRef e) k
                  <-> owns h (VRef e) k
                      \/ exists fr, fr ∈ frs /\ k ∈ keys fr.2).
Proof.
  intros He Hh Hown Hfrs.
  destruct (assign_plain_fragments h e eps frs He Hh Hown Hfrs)
    as (h' & eps' & Hrun & He' & Hold & Hkeys).
  exists h'. split; [exact Hrun|].
  split; [unfold is_object; now rewrite He'|].
  split; [exact Hold|].
  intros k. unfold owns, own_field. rewrite He, He'. apply Hkeys.
Qed.

Lemma assign_collects_keys_witness :
  exists h',
    Entity_assign (VRef 1%nat) [VRef 3%nat; VRef 2%nat] merge_heap
    = Ret (VRef 1%nat, h')
    /\ owns h' (VRef 1%nat) "k" /\ owns h' (VRef 1%nat) "c"
    /\ ~ owns h' (VRef 1%nat) "a".
Proof.
  destruct (assign_collects_keys merge_heap 1%nat
              [("entityManager", VNull); ("priority", VNum 0);
               ("k", VRef 0%nat)]
              [(3%nat, [("k", VRef 2%nat)]);
               (2%nat, [("b", VNum 3); ("c", VNum 4)])] eq_refl)
    as (h' & Hrun & _ & _ & Hkeys).
  - repeat constructor; apply (bool_decide_unpack _); reflexivity.
  - apply (bool_decide_unpack _). reflexivity.
  - repeat constructor; simpl; try discriminate;
      apply (bool_decide_unpack _); reflexivity.
  - exists h'. split; [exact Hrun|].
    split; [|split].
    + apply Hkeys. left. now eexists.
    + apply Hkeys. right. exists (2%nat, [("b", VNum 3); ("c", VNum 4)]).
      split; apply (bool_decide_unpack _); reflexivity.
    + intros [Ha|(fr & Hin & Ha)]%Hkeys.
      * now apply is_Some_None in Ha.
      * apply elem_of_cons in Hin as [->|Hin];
          [|apply elem_of_cons in Hin as [->|Hin]].
        -- revert Ha. apply (bool_decide_unpack _). reflexivity.
        -- revert Ha. apply (bool_decide_unpack _). reflexivity.
        -- now apply elem_of_nil in Hin.
Defined.

(** The code itself, where a field [hasOwnProperty] hides the method: a
    fragment [{hasOwnProperty: 1, a: 2}] stores 1 under that name, and
    the call of the method for the next key throws. *)
Lemma assign_throws_once_hasOwnProperty_is_hidden :
  Entity_assign (VRef 0%nat) [VRef 1%nat] hidden_method_heap
  = Throw TypeError.
Proof. reflexivity. Qed.

(** X16. A container that comes in under a key the entity does not own is
    stored as it is, by reference: two entities that are assigned the
    same fragment hold the same container under that key, and the
    container itself is as it was. (Only when the entity already holds a
    container under the key is a new one made.) No field of the
    entities or the fragment is named [hasOwnProperty], and no object
    owns a field named [__proto__], so that the key is not [__proto__]
    either. *)
Theorem assign_shares_incoming_container
    h e1 e2 eps1 eps2 f fps k c :
  h !! e1 = Some (CObject None eps1) ->
  h !! e2 = Some (CObject None eps2) ->
  h !! f = Some (CObject None fps) ->
  e1 <> e2 -> e1 <> f -> e2 <> f ->
  NoDup (keys fps) ->
  no_own_proto h ->
  "hasOwnProperty" ∉ keys eps1 ->
  "hasOwnProperty" ∉ keys eps2 ->
  "hasOwnProperty" ∉ keys fps ->
  assoc k fps = Some (VRef c) ->
  assoc k eps1 = None ->
  assoc k eps2 = None ->
  exists h1 h2,
    Entity_assign (VRef e1) [VRef f] h = Ret (VRef e1, h1)
    /\ Entity_assign (VRef e2) [VRef f] h1 = Ret (VRef e2, h2)
    /\ own_field h2 (VRef e1) k = Some (VRef c)
    /\ own_field h2 (VRef e2) k = Some (VRef c)
    /\ ((c < length h)%nat -> c <> e1 -> c <> e2 -> h2 !! c = h !! c).
Proof.
  intros He1 He2 Hf H12 H1f H2f Hnd Hh Hown1 Hown2 Hhas Hk Hk1 Hk2.
  assert (Hl1 : (e1 < length h)%nat) by (eapply lookup_lt_Some; eauto).
  assert (Hl2 : (e2 < length h)%nat) by (eapply lookup_lt_Some; eauto).
  assert (Hlf : (f < length h)%nat) by (eapply lookup_lt_Some; eauto).
  destruct (assign_fragment_frame h e1 eps1 f fps He1 Hf H1f Hnd
              Hh Hown1 Hhas)
    as (h1 & eps1' & Hrun1 & He1' & Hlen1 & Hold1 & _ & _ & Hh1).
  destruct (assign_replaces_otherwise h e1 eps1 f fps k (VRef c)
              He1 Hf H1f Hnd Hh Hown1 Hhas Hk) as (h1' & Hrun1' & Hfield1).
  { rewrite Hk1. simpl. intros [_ ?]. discriminate. }
  rewrite Hrun1 in Hrun1'. injection Hrun1' as <-.
  assert (He2' : h1 !! e2 = Some (CObject None eps2)).
  { now rewrite Hold1 by (try lia; congruence). }
  assert (Hf' : h1 !! f = Some (CObject None fps)).
  { now rewrite Hold1 by (try lia; congruence). }
  destruct (assign_fragment_frame h1 e2 eps2 f fps He2' Hf' H2f Hnd
              Hh1 Hown2 Hhas)
    as (h2 & eps2' & Hrun2 & He2'' & Hlen2 & Hold2 & _).
  destruct (assign_replaces_otherwise h1 e2 eps2 f fps k (VRef c)
              He2' Hf' H2f Hnd Hh1 Hown2 Hhas Hk)
    as (h2' & Hrun2' & Hfield2).
  { rewrite Hk2. simpl. intros [_ ?]. discriminate. }
  rewrite Hrun2 in Hrun2'. injection Hrun2' as <-.
  exists h1, h2. split; [exact Hrun1|]. split; [exact Hrun2|].
  split.
  { unfold own_field in *. now rewrite Hold2 by (try lia; congruence). }
  split; [exact Hfield2|].
  intros Hc Hc1 Hc2. rewrite Hold2 by (try lia; congruence).
  now apply Hold1.
Qed.


Lemma assign_shares_incoming_container_witness :
  exists h1 h2,
    Entity_assign (VRef 0%nat) [VRef 3%nat] shared_scale_heap
    = Ret (VRef 0%nat, h1)
    /\ Entity_assign (VRef 1%nat) [VRef 3%nat] h1 = Ret (VRef 1%nat, h2)
    /\ own_field h2 (VRef 0%nat) "scale" = Some (VRef 2%nat)
    /\ own_field h2 (VRef 1%nat) "scale" = Some (VRef 2%nat).
Proof.
  destruct (assign_shares_incoming_container shared_scale_heap
              0%nat 1%nat _ _ 3%nat _ "scale" 2%nat
              eq_refl eq_refl eq_refl)
    as (h1 & h2 & Hrun1 & Hrun2 & Hfield1 & Hfield2 & _);
    try discriminate; try reflexivity;
    try (apply (bool_decide_unpack _); reflexivity).
  - repeat constructor; apply (bool_decide_unpack _); reflexivity.
  - now exists h1, h2.
Defined.

(** ** [compute] on any arguments *)

Lemma first_seen_spec seen ks :
  NoDup (first_seen seen ks)
  /\ forall k, k ∈ first_seen seen ks -> (k ∉ seen) /\ k ∈ ks.
Proof.
  revert seen. induction ks as [|k ks IH]; intros seen; simpl.
  - split; [constructor|]. intros k Hk. now apply elem_of_nil in Hk.
  - destruct (decide (k ∈ seen)) as [Hin|Hout].
    + destruct (IH seen) as [Hnd Hspec]. split; [exact Hnd|].
      intros k' Hk'. destruct (Hspec k' Hk') as [H1 H2].
      split; [exact H1|now right].
    + destruct (IH (k :: seen)) as [Hnd Hspec]. split.
      * constructor; [|exact Hnd]. intros Hk.
        destruct (Hspec k Hk) as [H1 _]. apply H1. left.
      * intros k' [->|Hk']%elem_of_cons.
        -- split; [exact Hout|left].
        -- destruct (Hspec k' Hk') as [H1 H2]. split; [|now right].
           intros Hs. apply H1. now right.
Qed.

Lemma NoDup_for_in_keys h o : NoDup (for_in_keys h o).
Proof. apply first_seen_spec. Qed.

(** The keys of a simple value are the same in every heap that keeps its
    cell. *)
Lemma for_in_keys_simple h h' o :
  simple_value h o ->
  (forall l, o = VRef l -> h' !! l = h !! l) ->
  for_in_keys h' o = for_in_keys h o.
Proof.
  intros Ho Hsame. destruct o as [| | | | |l]; try reflexivity.
  destruct Ho as (ops & Hl & Hnd).
  rewrite (for_in_keys_plain h l ops Hl Hnd).
  apply for_in_keys_plain; [|exact Hnd]. now rewrite Hsame.
Qed.

Lemma simple_value_frame h h' o :
  simple_value h o ->
  (forall l, o = VRef l -> h' !! l = h !! l) ->
  simple_value h' o.
Proof.
  intros Ho Hsame. destruct o as [| | | | |l]; try exact I.
  destruct Ho as (ops & Hl & Hnd). exists ops.
  split; [|exact Hnd]. now rewrite Hsame.
Qed.

Lemma simple_value_app h extra o :
  simple_value h o ->
  simple_value (h ++ extra) o
  /\ for_in_keys (h ++ extra) o = for_in_keys h o.
Proof.
  intros Ho.
  assert (Hsame : forall l, o = VRef l -> (h ++ extra) !! l = h !! l).
  { intros l ->. destruct Ho as (ops & Hl & _).
    apply lookup_app_l. eapply lookup_lt_Some; eauto. }
  split; [now apply (simple_value_frame h) | now apply for_in_keys_simple].
Qed.

Lemma Object_prototype_plain k :
  k ∈ Object_prototype -> array_index k = None.
Proof.
  revert k. apply Forall_forall.
  apply (bool_decide_unpack _). vm_compute. reflexivity.
Qed.

Lemma prototype_names_plain own ks :
  Forall (fun k => array_index k = None) (prototype_names own ks).
Proof.
  apply Forall_forall. intros k [[Hk _] _]%list_elem_of_filter.
  now apply Object_prototype_plain.
Qed.

Lemma prototype_names_cons own key ks :
  prototype_names own (key :: ks)
  = prototype_names own [key] ++ prototype_names own ks.
Proof. unfold prototype_names. apply (filter_app _ [key] ks). Qed.

Lemma prototype_names_ext own own' ks :
  (forall k, k ∈ ks -> (k ∈ own <-> k ∈ own')) ->
  prototype_names own ks = prototype_names own' ks.
Proof.
  unfold prototype_names.
  induction ks as [|k ks IH]; intros Hsame; [reflexivity|].
  rewrite !filter_cons.
  rewrite IH by (intros k' Hk'; apply Hsame; now right).
  destruct (decide (k ∈ Object_prototype /\ k ∉ own)) as [[H1 H2]|Hn].
  - rewrite decide_True; [reflexivity|]. split; [exact H1|].
    rewrite <- Hsame; [exact H2|left].
  - rewrite decide_False; [reflexivity|]. intros [H1 H2]. apply Hn.
    split; [exact H1|]. rewrite Hsame; [exact H2|left].
Qed.

(** Options that name no member of [Object.prototype] add no key. *)
Lemma prototype_names_none own ks :
  Forall (fun k => k ∉ Object_prototype) ks -> prototype_names own ks = [].
Proof.
  unfold prototype_names. induction 1 as [|k ks Hk _ IH]; [reflexivity|].
  rewrite filter_cons, decide_False by tauto. exact IH.
Qed.

(** Defaults that have no field named as a member of [Object.prototype]:
    every such key of the options is added. *)
Lemma prototype_names_disjoint own ks :
  Forall (fun k => k ∉ own) Object_prototype ->
  prototype_names own ks = filter (fun k => k ∈ Object_prototype) ks.
Proof.
  intros Hown. unfold prototype_names. apply list_filter_iff.
  intros k. split; [tauto|]. intros Hk. split; [exact Hk|].
  rewrite Forall_forall in Hown. now apply Hown.
Qed.

Lemma enumeration_app_plain (ks es : list string) :
  Forall (fun k => array_index k = None) es ->
  enumeration (ks ++ es) = enumeration ks ++ es.
Proof.
  intros Hes. unfold enumeration.
  assert (Hnone : omap array_index es = []).
  { induction Hes as [|k es Hk _ IH]; [reflexivity|]. simpl.
    now rewrite Hk. }
  assert (Hall : filter (fun k => array_index k = None) es = es).
  { clear Hnone. induction Hes as [|k es Hk _ IH]; [reflexivity|].
    rewrite filter_cons, decide_True by assumption. now f_equal. }
  rewrite omap_app, filter_app, Hnone, Hall, app_nil_r.
  now rewrite app_assoc.
Qed.

Lemma no_own_proto_cell h l proto ps :
  no_own_proto h -> h !! l = Some (CObject proto ps) ->
  "__proto__" ∉ keys ps.
Proof. intros Hh Hl. exact (Forall_lookup_1 _ _ _ _ Hh Hl). Qed.

Lemma no_own_proto_step h cps cps' news news' :
  no_own_proto (h ++ CObject None cps :: news) ->
  ("__proto__" ∉ keys cps -> "__proto__" ∉ keys cps') ->
  no_own_proto news' ->
  no_own_proto (h ++ CObject None cps' :: news ++ news').
Proof.
  unfold no_own_proto.
  rewrite !Forall_app, !Forall_cons, Forall_app. tauto.
Qed.

(** One step of the first loop. The test [key in computedOptions] holds
    for the keys of the copy and for the names of the members of
    [Object.prototype]; a key of the latter kind is added to the copy. *)
Lemma compute_key_any h options defaults cps news key :
  options <> VUndefined -> options <> VNull ->
  key <> "__proto__" ->
  (key ∈ keys cps \/ key ∈ Object_prototype ->
   defaults <> VUndefined /\ defaults <> VNull) ->
  exists cps' news',
    compute_key options defaults (VRef (length h)) key
      (h ++ CObject None cps :: news)
    = Ret (tt, h ++ CObject None cps' :: news ++ news')
    /\ keys cps' = keys cps ++ prototype_names (keys cps) [key]
    /\ (no_own_proto (h ++ CObject None cps :: news) ->
        no_own_proto (h ++ CObject None cps' :: news ++ news')).
Proof.
  intros Ho1 Ho2 Hkey Hd. set (H := h ++ CObject None cps :: news).
  assert (Ec : H !! length h = Some (CObject None cps))
    by apply lookup_alloc.
  assert (Hnames : prototype_names (keys cps) [key]
                   = if decide (key ∈ Object_prototype /\ key ∉ keys cps)
                     then [key] else []).
  { unfold prototype_names. now rewrite filter_cons, filter_nil. }
  assert (Hkeys : forall v,
             is_Some (assoc key cps) \/ key ∈ Object_prototype ->
             keys (set_prop key v cps)
             = keys cps ++ prototype_names (keys cps) [key]).
  { intros v Hp. rewrite keys_set_prop, Hnames.
    destruct (decide (is_Some (assoc key cps))) as [Hs|Hn].
    - rewrite decide_False; [now rewrite app_nil_r|].
      intros [_ Hout]. apply Hout. now apply elem_of_keys.
    - rewrite decide_True; [reflexivity|].
      destruct Hp as [Hs|Hb]; [contradiction|].
      split; [exact Hb|]. now rewrite elem_of_keys. }
  unfold compute_key.
  rewrite (bind_Ret _ _ _ _ _
             (lift_Ret (fun h0 => HasProperty h0 (VRef (length h)) key) _ _
                (HasProperty_plain _ _ _ key Ec))).
  destruct (bool_decide (is_Some (assoc key cps))
            || bool_decide (key ∈ Object_prototype)) eqn:Hpresent.
  - assert (Hp : is_Some (assoc key cps) \/ key ∈ Object_prototype).
    { apply orb_true_iff in Hpresent as [Hp|Hp];
        apply bool_decide_eq_true in Hp; tauto. }
    destruct Hd as [Hd1 Hd2].
    { destruct Hp as [Hp|Hp]; [left; now apply elem_of_keys | now right]. }
    destruct (Get_returns H options key Ho1 Ho2 Hkey) as [incoming Hin].
    rewrite (bind_Ret _ _ _ _ _ (get_Ret _ _ _ _ Hin)).
    destruct (decide (typeof incoming = "object")).
    + destruct (Get_returns H defaults key Hd1 Hd2 Hkey) as [dflt Hdf].
      rewrite (bind_Ret _ _ _ _ _ (get_Ret _ _ _ _ Hdf)).
      unfold spread_new2, alloc.
      erewrite bind_Ret by reflexivity.
      subst H. rewrite <- app_assoc, <- app_comm_cons.
      eexists _, [_]. split; [now apply put_fresh|].
      split; [now apply Hkeys|].
      intros Hh. apply (no_own_proto_step _ _ _ _ _ Hh).
      * now apply no_proto_set_prop.
      * constructor; [|constructor]. now apply no_proto_overlay.
    + eexists _, []. rewrite app_nil_r. split; [now apply put_fresh|].
      split; [now apply Hkeys|].
      intros Hh. rewrite <- (app_nil_r news).
      apply (no_own_proto_step _ _ _ _ _ Hh); [|constructor].
      now apply no_proto_set_prop.
  - exists cps, []. rewrite app_nil_r. split; [reflexivity|].
    split; [|auto].
    rewrite Hnames, decide_False; [now rewrite app_nil_r|].
    apply orb_false_iff in Hpresent as [Hown Hb].
    apply bool_decide_eq_false in Hb. tauto.
Qed.

Lemma compute_keys_any h options defaults ks :
  NoDup ks ->
  "__proto__" ∉ ks ->
  (ks <> [] -> options <> VUndefined /\ options <> VNull) ->
  forall cps news,
    (forall key, key ∈ keys cps \/ (key ∈ ks /\ key ∈ Object_prototype) ->
       defaults <> VUndefined /\ defaults <> VNull) ->
    exists cps' news',
      forM ks (compute_key options defaults (VRef (length h)))
        (h ++ CObject None cps :: news)
      = Ret (tt, h ++ CObject None cps' :: news ++ news')
      /\ keys cps' = keys cps ++ prototype_names (keys cps) ks
      /\ (no_own_proto (h ++ CObject None cps :: news) ->
          no_own_proto (h ++ CObject None cps' :: news ++ news')).
Proof.
  induction ks as [|key ks IH]; intros Hnd Hproto Ho cps news Hd.
  - exists cps, []. split; [now rewrite app_nil_r|].
    split; [|rewrite app_nil_r; auto]. unfold prototype_names.
    now rewrite filter_nil, app_nil_r.
  - destruct Ho as [Ho1 Ho2]; [discriminate|].
    apply NoDup_cons in Hnd as [Hkey Hnd].
    apply not_elem_of_cons in Hproto as [Hk Hproto].
    destruct (compute_key_any h options defaults cps news key Ho1 Ho2
                (not_eq_sym Hk))
      as (cps1 & news1 & Hstep & Hkeys1 & Hh1).
    { intros [H|H]; apply (Hd key); [now left|].
      right. split; [left|exact H]. }
    destruct (IH Hnd Hproto (fun _ => conj Ho1 Ho2) cps1 (news ++ news1))
      as (cps2 & news2 & Hrest & Hkeys2 & Hh2).
    { intros k [Hk1|[Hk1 Hk2]].
      - rewrite Hkeys1 in Hk1. apply elem_of_app in Hk1 as [Hk1|Hk1];
          [apply (Hd k); now left|].
        apply list_elem_of_filter in Hk1 as [[Hb _] Hin].
        apply list_elem_of_singleton in Hin as ->.
        apply (Hd key). right. split; [left|exact Hb].
      - apply (Hd k). right. split; [now right|exact Hk2]. }
    exists cps2, (news1 ++ news2). simpl.
    rewrite (bind_Ret _ _ _ _ _ Hstep), Hrest.
    rewrite <- app_assoc. split; [reflexivity|]. split.
    + rewrite Hkeys2, Hkeys1, <- app_assoc. f_equal.
      rewrite (prototype_names_cons _ key ks). f_equal.
      apply prototype_names_ext. intros k Hin. rewrite elem_of_app.
      split; [|now left]. intros [H|H]; [exact H|].
      apply list_elem_of_filter in H as [_ H].
      apply list_elem_of_singleton in H as ->. contradiction.
    + intros Hh. rewrite app_assoc. now apply Hh2, Hh1.
Qed.

(** [compute] on defaults that are neither [undefined] nor [null], or on
    options that name no member of [Object.prototype]: the copy of the
    defaults [cps], the containers [news] that the first loop makes, and
    then one fragment per key of the copy. *)
Lemma compute_any h options defaults :
  NoDup (keys (own_enumerable h defaults)) ->
  simple_value h options ->
  "__proto__" ∉ for_in_keys h options ->
  (defaults = VUndefined \/ defaults = VNull ->
   Forall (fun k => k ∉ Object_prototype) (for_in_keys h options)) ->
  exists cps news,
    compute options defaults h
    = Ret (VRef <$> seq (length h + 1 + length news)
                      (length (enumeration (keys cps))),
           h ++ CObject None cps
             :: news
             ++ ((fun k => CObject None
                             [(k, default VUndefined (assoc k cps))])
                   <$> enumeration (keys cps)))
    /\ keys cps
       = keys (own_enumerable h defaults)
         ++ prototype_names (keys (own_enumerable h defaults))
              (for_in_keys h options)
    /\ (no_own_proto h ->
        no_own_proto
          (h ++ CObject None cps
             :: news
             ++ ((fun k => CObject None
                             [(k, default VUndefined (assoc k cps))])
                   <$> enumeration (keys cps)))).
Proof.
  intros Hnd Hsimple Hproto Hd.
  set (dps := own_enumerable h defaults) in *.
  assert (Hks : for_in_keys (h ++ [CObject None dps]) options
                = for_in_keys h options)
    by now apply simple_value_app.
  destruct (compute_keys_any h options defaults (for_in_keys h options)
              (NoDup_for_in_keys _ _) Hproto)
    with (cps := dps) (news := @nil cell)
    as (cps & news & Hloop & Hkeys & Hh).
  { intros Hne. split; intros ->; now apply Hne. }
  { intros key [Hkey|[Hkey Hb]].
    - split; intros ->; subst dps; simpl in Hkey;
        now apply elem_of_nil in Hkey.
    - split; intros ->;
        [specialize (Hd (or_introl eq_refl))
        |specialize (Hd (or_intror eq_refl))];
        rewrite Forall_forall in Hd; now apply (Hd key). }
  simpl app in Hloop, Hh.
  assert (Hndc : NoDup (keys cps)).
  { rewrite Hkeys. apply NoDup_app. split; [exact Hnd|]. split.
    - intros k Hk [[_ Hout] _]%list_elem_of_filter. contradiction.
    - apply NoDup_filter, NoDup_for_in_keys. }
  exists cps, news. split; [|split; [exact Hkeys|]].
  - unfold compute.
    rewrite (bind_Ret _ _ h (VRef (length h)) (h ++ [CObject None dps])).
    2:{ unfold spread_new, alloc. subst dps.
        now rewrite (overlay_nil _ Hnd). }
    erewrite bind_Ret by (apply lift_Ret; reflexivity).
    rewrite Hks, (bind_Ret _ _ _ _ _ Hloop).
    erewrite bind_Ret by (apply lift_Ret; reflexivity).
    rewrite (for_in_keys_plain _ (length h) cps (lookup_alloc _ _ _) Hndc).
    apply explode_eq. apply Forall_forall. intros k.
    apply elem_of_enumeration_1.
  - intros Hh0.
    assert (Hh1 : no_own_proto (h ++ CObject None cps :: news)).
    { apply Hh, no_own_proto_alloc; [exact Hh0|].
      now apply own_enumerable_no_proto. }
    pose proof (no_own_proto_cell _ _ _ _ Hh1 (lookup_alloc _ _ _)) as Hc.
    change (h ++ CObject None cps :: news ++ ?frs)
      with (h ++ (CObject None cps :: news) ++ frs).
    rewrite app_assoc. apply Forall_app. split; [exact Hh1|].
    apply Forall_fmap, Forall_forall. intros k Hk. simpl.
    apply elem_of_enumeration_1 in Hk.
    intros [Heq|Hin]%elem_of_cons; [rewrite <- Heq in Hk; contradiction|].
    now apply elem_of_nil in Hin.
Qed.

Lemma fragments_single_key (h : heap) (rest : list cell)
    (f : string -> cell) (g : string -> value) ks :
  (forall k, f k = CObject None [(k, g k)]) ->
  Forall2 (fun k fragment =>
             single_key (h ++ rest ++ (f <$> ks)) k fragment
             /\ ~ allocated h fragment)
    ks (VRef <$> seq (length h + length rest) (length ks)).
Proof.
  intros Hf.
  apply Forall2_same_length_lookup_2.
  { now rewrite length_fmap, length_seq. }
  intros i k fr Hk Hfr.
  rewrite list_lookup_fmap in Hfr.
  destruct (seq _ _ !! i) as [l|] eqn:Hl; [|discriminate].
  injection Hfr as <-.
  apply lookup_seq in Hl as [-> Hi].
  split; [|simpl; lia].
  exists (length h + length rest + i)%nat, (g k). split; [reflexivity|].
  rewrite lookup_app_r by lia. rewrite lookup_app_r by lia.
  replace (length h + length rest + i - length h - length rest)%nat
    with i by lia.
  now rewrite list_lookup_fmap, Hk, <- Hf.
Qed.

Lemma compute_single_keys h options defaults :
  NoDup (keys (own_enumerable h defaults)) ->
  simple_value h options ->
  "__proto__" ∉ for_in_keys h options ->
  (defaults = VUndefined \/ defaults = VNull ->
   Forall (fun k => k ∉ Object_prototype) (for_in_keys h options)) ->
  exists fragments extra,
    compute options defaults h = Ret (fragments, h ++ extra)
    /\ NoDup fragments
    /\ Forall2 (fun k fragment =>
                  single_key (h ++ extra) k fragment
                  /\ ~ allocated h fragment)
         (enumeration (keys (own_enumerable h defaults))
          ++ prototype_names (keys (own_enumerable h defaults))
               (for_in_keys h options))
         fragments
    /\ (no_own_proto h -> no_own_proto (h ++ extra)).
Proof.
  intros Hnd Hsimple Hproto Hd.
  destruct (compute_any h options defaults Hnd Hsimple Hproto Hd)
    as (cps & news & Hrun & Hkeys & Hh).
  eexists _, _. split; [exact Hrun|].
  split.
  { apply NoDup_fmap_2; [intros ? ? [=]; congruence | apply NoDup_seq]. }
  split; [|exact Hh].
  rewrite <- (enumeration_app_plain _ _ (prototype_names_plain _ _)).
  rewrite <- Hkeys.
  pose proof (fragments_single_key h (CObject None cps :: news)
                (fun k => CObject None
                            [(k, default VUndefined (assoc k cps))])
                (fun k => default VUndefined (assoc k cps))
                (enumeration (keys cps))
                (fun _ => eq_refl)) as Hall.
  simpl length in Hall.
  replace (length h + S (length news))%nat
    with (length h + 1 + length news)%nat in Hall by lia.
  exact Hall.
Qed.

(** X17. [compute] returns whenever the options are a primitive or a plain
    object of the heap that has no key [__proto__], and the defaults are
    neither [undefined] nor [null] (or the options have no key that names
    a member of [Object.prototype]): it leaves every cell of the heap as
    it was and returns new objects with one field each: one per own key
    of the defaults, in the order of enumeration, and after them one per
    key of the options that names a member of [Object.prototype] (such
    as [toString] or [constructor]) and is no key of the defaults, since
    [key in computedOptions] holds for such a key. *)
Theorem compute_returns_fragments h options defaults :
  NoDup (keys (own_enumerable h defaults)) ->
  simple_value h options ->
  "__proto__" ∉ for_in_keys h options ->
  (defaults = VUndefined \/ defaults = VNull ->
   Forall (fun k => k ∉ Object_prototype) (for_in_keys h options)) ->
  exists fragments extra,
    compute options defaults h = Ret (fragments, h ++ extra)
    /\ NoDup fragments
    /\ Forall2 (fun k fragment =>
                  single_key (h ++ extra) k fragment
                  /\ ~ allocated h fragment)
         (enumeration (keys (own_enumerable h defaults))
          ++ prototype_names (keys (own_enumerable h defaults))
               (for_in_keys h options))
         fragments.
Proof.
  intros Hnd Hsimple Hproto Hd.
  destruct (compute_single_keys h options defaults Hnd Hsimple Hproto Hd)
    as (fragments & extra & Hrun & Hdistinct & Hall & _).
  now exists fragments, extra.
Qed.

Lemma compute_returns_fragments_witness :
  exists fragments extra,
    compute (VRef 0%nat) (VRef 1%nat) inherited_name_heap
    = Ret (fragments, inherited_name_heap ++ extra)
    /\ Forall2 (fun k fragment =>
                  single_key (inherited_name_heap ++ extra) k fragment
                  /\ ~ allocated inherited_name_heap fragment)
         ["x"; "toString"] fragments.
Proof.
  destruct (compute_returns_fragments inherited_name_heap (VRef 0%nat)
              (VRef 1%nat))
    as (fragments & extra & Hrun & _ & Hall).
  - apply (bool_decide_unpack _). reflexivity.
  - eexists. split; [reflexivity|]. apply (bool_decide_unpack _). reflexivity.
  - apply (bool_decide_unpack _). vm_compute. reflexivity.
  - intros [[=]|[=]].
  - now exists fragments, extra.
Defined.

(** Without defaults the code throws once the options name a member of
    [Object.prototype] under which they hold a container:
    [compute({toString: {}}, undefined)] reads [defaults.toString]. *)
Lemma compute_throws_without_defaults :
  compute (VRef 3%nat) VUndefined inherited_name_heap = Throw TypeError.
Proof. reflexivity. Qed.

(** [compute] without options ([undefined], as in a call that omits
    them, [null], a number or a boolean): the state it leaves. *)
Lemma compute_defaults h options d proto dps :
  (forall l, options <> VRef l) ->
  (forall s, options <> VStr s) ->
  h !! d = Some (CObject proto dps) ->
  NoDup (keys dps) ->
  compute options (VRef d) h
  = Ret (VRef <$> seq (S (length h)) (length dps),
         h ++ CObject None dps
           :: ((fun kv => CObject None [kv]) <$> enumerated dps)).
Proof.
  intros Hobj Hstr Hd Hnd.
  assert (Hks : forall h0, for_in_keys h0 options = []).
  { intros h0. destruct options; try reflexivity.
    - now destruct (Hstr s).
    - now destruct (Hobj l). }
  unfold compute.
  rewrite (bind_Ret _ _ h (VRef (length h)) (h ++ [CObject None dps])).
  2:{ unfold spread_new, alloc, own_enumerable. rewrite Hd.
      now rewrite (overlay_nil _ Hnd). }
  erewrite bind_Ret by (apply lift_Ret; reflexivity).
  rewrite Hks. simpl forM.
  rewrite (bind_Ret _ _ _ tt (h ++ [CObject None dps])) by reflexivity.
  erewrite bind_Ret by (apply lift_Ret; reflexivity).
  rewrite (for_in_keys_plain _ (length h) dps (lookup_alloc _ _ _) Hnd).
  rewrite (explode_eq h dps (enumeration (keys dps))).
  2:{ apply Forall_forall. intros k. apply elem_of_enumeration_1. }
  unfold enumerated. rewrite <- list_fmap_compose.
  rewrite (Permutation_length (enumeration_perm _)).
  unfold keys at 1. rewrite length_fmap. simpl.
  now replace (length h + 1 + 0)%nat with (S (length h)) by lia.
Qed.

(** X18. [compute] without options ([undefined], as in a call that omits
    them, [null], a number or a boolean) returns the defaults as they
    are: one new fragment per field of the defaults, in the order of
    enumeration (the order of the defaults when no key is an array
    index), holding the very value of the default, so that a container
    of the defaults is handed on and not copied; the defaults and every
    other cell that existed are as they were. *)
Theorem compute_without_options h options d proto dps :
  (forall l, options <> VRef l) ->
  (forall s, options <> VStr s) ->
  h !! d = Some (CObject proto dps) ->
  NoDup (keys dps) ->
  exists fragments extra,
    compute options (VRef d) h = Ret (fragments, h ++ extra)
    /\ Forall2 (fun kv fragment =>
                  exists l, fragment = VRef l
                            /\ h !! l = None
                            /\ (h ++ extra) !! l = Some (CObject None [kv]))
         (enumerated dps) fragments
    /\ (Forall (fun k => array_index k = None) (keys dps) ->
        enumerated dps = dps).
Proof.
  intros Hobj Hstr Hd Hnd.
  eexists _, _.
  split; [exact (compute_defaults h options d proto dps Hobj Hstr Hd Hnd)|].
  split; [|now apply enumerated_plain].
  assert (Hlen : length (enumerated dps) = length dps).
  { unfold enumerated. rewrite length_fmap.
    rewrite (Permutation_length (enumeration_perm _)).
    unfold keys. now rewrite length_fmap. }
  apply Forall2_same_length_lookup_2.
  { now rewrite length_fmap, length_seq. }
  intros i kv fr Hkv Hfr.
  rewrite list_lookup_fmap in Hfr.
  destruct (seq _ _ !! i) as [l|] eqn:Hl; [|discriminate].
  injection Hfr as <-.
  apply lookup_seq in Hl as [-> Hi].
  exists (S (length h) + i)%nat. split; [reflexivity|].
  split; [apply lookup_ge_None_2; lia|].
  rewrite lookup_app_r by lia.
  replace (S (length h) + i - length h)%nat with (S i) by lia.
  simpl. now rewrite list_lookup_fmap, Hkv.
Qed.

Lemma compute_without_options_witness :
  exists fragments extra,
    compute VUndefined (VRef 1%nat) index_key_heap
    = Ret (fragments, index_key_heap ++ extra)
    /\ Forall2 (fun kv fragment =>
                  exists l, fragment = VRef l
                            /\ index_key_heap !! l = None
                            /\ (index_key_heap ++ extra) !! l
                               = Some (CObject None [kv]))
         [("1", VNum 2); ("b", VNum 1)] fragments.
Proof.
  destruct (compute_without_options index_key_heap VUndefined 1%nat None
              [("b", VNum 1); ("1", VNum 2)])
    as (fragments & extra & Hrun & Hall & _).
  - discriminate.
  - discriminate.
  - reflexivity.
  - apply (bool_decide_unpack _). reflexivity.
  - now exists fragments, extra.
Defined.

(** ** The component factories *)

(** [compute] on defaults that were just built: [cells] are the
    containers of the literal, [dps] its fields. *)
Lemma compute_new_defaults h cells dps options :
  NoDup (keys dps) ->
  simple_value h options ->
  "__proto__" ∉ for_in_keys h options ->
  exists fragments extra,
    compute options (VRef (length (h ++ cells)))
      ((h ++ cells) ++ [CObject None dps])
    = Ret (fragments, h ++ extra)
    /\ NoDup fragments
    /\ Forall2 (fun k fragment =>
                  single_key (h ++ extra) k fragment
                  /\ ~ allocated h fragment)
         (enumeration (keys dps)
          ++ prototype_names (keys dps) (for_in_keys h options))
         fragments
    /\ (no_own_proto ((h ++ cells) ++ [CObject None dps]) ->
        no_own_proto (h ++ extra)).
Proof.
  intros Hnd Hsimple Hproto.
  set (H := (h ++ cells) ++ [CObject None dps]).
  assert (Hown : own_enumerable H (VRef (length (h ++ cells))) = dps).
  { unfold own_enumerable. subst H.
    now rewrite (lookup_alloc (h ++ cells) [] (CObject None dps)). }
  destruct (simple_value_app h (cells ++ [CObject None dps]) options Hsimple)
    as [Hsimple' Hks].
  rewrite app_assoc in Hsimple', Hks. fold H in Hsimple', Hks.
  destruct (compute_single_keys H options (VRef (length (h ++ cells))))
    as (fragments & extra & Hrun & Hdistinct & Hall & Hh).
  { now rewrite Hown. }
  { exact Hsimple'. }
  { now rewrite Hks. }
  { intros [[=]|[=]]. }
  rewrite Hown, Hks in Hall.
  exists fragments, ((cells ++ [CObject None dps]) ++ extra).
  rewrite !app_assoc. split; [exact Hrun|]. split; [exact Hdistinct|].
  split; [|exact Hh].
  eapply Forall2_impl; [exact Hall|].
  intros k fr [Hsingle Hnew]. split; [exact Hsingle|].
  intros Hold. apply Hnew. destruct fr; try exact I.
  subst H. simpl in *. rewrite !length_app. lia.
Qed.

Lemma transform_fragments h options :
  simple_value h options ->
  "__proto__" ∉ for_in_keys h options ->
  exists fragments extra,
    transform options h = Ret (fragments, h ++ extra)
    /\ NoDup fragments
    /\ Forall2 (fun k fragment =>
                  single_key (h ++ extra) k fragment
                  /\ ~ allocated h fragment)
         (["position"; "scale"; "rotation"]
          ++ filter (fun k => k ∈ Object_prototype) (for_in_keys h options))
         fragments
    /\ (no_own_proto h -> no_own_proto (h ++ extra)).
Proof.
  intros Hsimple Hproto.
  unfold transform, bind, alloc. rewrite <- !app_assoc. simpl app.
  epose proof (compute_new_defaults h [_; _; _]
                 [("position", _); ("scale", _); ("rotation", _)]
                 options _ Hsimple Hproto) as Hrun.
  rewrite <- !app_assoc in Hrun. simpl app in Hrun.
  destruct Hrun as (fragments & extra & Hrun & Hdistinct & Hall & Hh).
  exists fragments, extra. split; [exact Hrun|]. split; [exact Hdistinct|].
  split.
  - rewrite prototype_names_disjoint in Hall
      by (apply (bool_decide_unpack _); vm_compute; reflexivity).
    exact Hall.
  - intros Hh0. apply Hh. apply Forall_app. split; [exact Hh0|].
    repeat constructor; apply (bool_decide_unpack _); reflexivity.
  Unshelve. apply (bool_decide_unpack _). reflexivity.
Qed.

Lemma physics_fragments h options :
  simple_value h options ->
  "__proto__" ∉ for_in_keys h options ->
  exists fragments extra,
    physics options h = Ret (fragments, h ++ extra)
    /\ NoDup fragments
    /\ Forall2 (fun k fragment =>
                  single_key (h ++ extra) k fragment
                  /\ ~ allocated h fragment)
         (["mass"; "velocity"; "pvelocity"; "acceleration"; "direction";
           "maxspeed"]
          ++ filter (fun k => k ∈ Object_prototype) (for_in_keys h options))
         fragments
    /\ (no_own_proto h -> no_own_proto (h ++ extra)).
Proof.
  intros Hsimple Hproto.
  unfold physics, bind, alloc. rewrite <- !app_assoc. simpl app.
  epose proof (compute_new_defaults h [_; _; _; _]
                 [("mass", _); ("velocity", _); ("pvelocity", _);
                  ("acceleration", _); ("direction", _); ("maxspeed", _)]
                 options _ Hsimple Hproto) as Hrun.
  rewrite <- !app_assoc in Hrun. simpl app in Hrun.
  destruct Hrun as (fragments & extra & Hrun & Hdistinct & Hall & Hh).
  exists fragments, extra. split; [exact Hrun|]. split; [exact Hdistinct|].
  split.
  - rewrite prototype_names_disjoint in Hall
      by (apply (bool_decide_unpack _); vm_compute; reflexivity).
    exact Hall.
  - intros Hh0. apply Hh. apply Forall_app. split; [exact Hh0|].
    repeat constructor; apply (bool_decide_unpack _); reflexivity.
  Unshelve. apply (bool_decide_unpack _). reflexivity.
Qed.

Lemma render_fragments h options :
  simple_value h options ->
  "__proto__" ∉ for_in_keys h options ->
  exists fragments extra,
    render options h = Ret (fragments, h ++ extra)
    /\ NoDup fragments
    /\ Forall2 (fun k fragment =>
                  single_key (h ++ extra) k fragment
                  /\ ~ allocated h fragment)
         (["shape"; "bgcolor"; "linecolor"]
          ++ filter (fun k => k ∈ Object_prototype) (for_in_keys h options))
         fragments
    /\ (no_own_proto h -> no_own_proto (h ++ extra)).
Proof.
  intros Hsimple Hproto.
  unfold render, bind, alloc.
  epose proof (compute_new_defaults h []
                 [("shape", _); ("bgcolor", _); ("linecolor", _)]
                 options _ Hsimple Hproto) as Hrun.
  rewrite !app_nil_r in Hrun.
  destruct Hrun as (fragments & extra & Hrun & Hdistinct & Hall & Hh).
  exists fragments, extra. split; [exact Hrun|]. split; [exact Hdistinct|].
  split.
  - rewrite prototype_names_disjoint in Hall
      by (apply (bool_decide_unpack _); vm_compute; reflexivity).
    exact Hall.
  - intros Hh0. apply Hh. apply Forall_app. split; [exact Hh0|].
    repeat constructor; apply (bool_decide_unpack _); reflexivity.
  Unshelve. apply (bool_decide_unpack _). reflexivity.
Qed.

(** X19. The factories return for every argument that is a primitive or a
    plain object of the heap without a key [__proto__], and the
    fragments they return are new objects with one field each:
    [position], [scale] and [rotation] for [transform]; [mass],
    [velocity], [pvelocity], [acceleration], [direction] and [maxspeed]
    for [physics]; [shape], [bgcolor] and [linecolor] for [render]; in
    this order, whatever the options hold; and after them one fragment
    for each key of the options that names a member of
    [Object.prototype] (such as [constructor]). No cell that existed is
    changed. *)
Theorem factories_return_their_fields h options :
  simple_value h options ->
  "__proto__" ∉ for_in_keys h options ->
  let inherited :=
    filter (fun k => k ∈ Object_prototype) (for_in_keys h options) in
  (exists fragments extra,
     transform options h = Ret (fragments, h ++ extra)
     /\ Forall2 (fun k fragment =>
                   single_key (h ++ extra) k fragment
                   /\ ~ allocated h fragment)
          (["position"; "scale"; "rotation"] ++ inherited) fragments)
  /\ (exists fragments extra,
        physics options h = Ret (fragments, h ++ extra)
        /\ Forall2 (fun k fragment =>
                      single_key (h ++ extra) k fragment
                      /\ ~ allocated h fragment)
             (["mass"; "velocity"; "pvelocity"; "acceleration"; "direction";
               "maxspeed"] ++ inherited) fragments)
  /\ (exists fragments extra,
        render options h = Ret (fragments, h ++ extra)
        /\ Forall2 (fun k fragment =>
                      single_key (h ++ extra) k fragment
                      /\ ~ allocated h fragment)
             (["shape"; "bgcolor"; "linecolor"] ++ inherited) fragments).
Proof.
  intros Hsimple Hproto inherited.
  split; [|split].
  - destruct (transform_fragments h options Hsimple Hproto)
      as (frs & extra & Hrun & _ & H & _).
    now exists frs, extra.
  - destruct (physics_fragments h options Hsimple Hproto)
      as (frs & extra & Hrun & _ & H & _).
    now exists frs, extra.
  - destruct (render_fragments h options Hsimple Hproto)
      as (frs & extra & Hrun & _ & H & _).
    now exists frs, extra.
Qed.

Lemma factories_return_their_fields_witness :
  exists fragments extra,
    render (VRef 2%nat) inherited_name_heap
    = Ret (fragments, inherited_name_heap ++ extra)
    /\ Forall2 (fun k fragment =>
                  single_key (inherited_name_heap ++ extra) k fragment
                  /\ ~ allocated inherited_name_heap fragment)
         ["shape"; "bgcolor"; "linecolor"; "constructor"] fragments.
Proof.
  destruct (factories_return_their_fields inherited_name_heap (VRef 2%nat))
    as (_ & _ & fragments & extra & Hrun & Hall).
  - eexists. split; [reflexivity|]. apply (bool_decide_unpack _). reflexivity.
  - apply (bool_decide_unpack _). vm_compute. reflexivity.
  - now exists fragments, extra.
Defined.

(** X20. Without options ([undefined], as in [transform()], [null], a number
    or a boolean) the factories return their defaults: [transform] the
    position [{x: 0, y: 0}], the scale [{x: 1, y: 1}] and the rotation
    [{x: 0, y: 0}]; [physics] the mass 1, four containers [{x: 0, y: 0}]
    and the maximal speed 0; [render] the shape ["box"] and the two
    colours, the shape first. The containers in the fragments are the
    ones of the literal. *)
Theorem factories_without_options h options :
  (forall l, options <> VRef l) ->
  (forall s, options <> VStr s) ->
  let n := length h in
  let origin := CObject None [("x", VNum 0); ("y", VNum 0)] in
  transform options h
  = Ret (VRef <$> [n + 5; n + 6; n + 7]%nat,
         h ++ [origin; CObject None [("x", VNum 1); ("y", VNum 1)]; origin;
               CObject None [("position", VRef n);
                             ("scale", VRef (n + 1)%nat);
                             ("rotation", VRef (n + 2)%nat)];
               CObject None [("position", VRef n);
                             ("scale", VRef (n + 1)%nat);
                             ("rotation", VRef (n + 2)%nat)];
               CObject None [("position", VRef n)];
               CObject None [("scale", VRef (n + 1)%nat)];
               CObject None [("rotation", VRef (n + 2)%nat)]])
  /\ physics options h
     = Ret (VRef <$> [n + 6; n + 7; n + 8; n + 9; n + 10; n + 11]%nat,
            h ++ [origin; origin; origin; origin;
                  CObject None [("mass", VNum 1); ("velocity", VRef n);
                                ("pvelocity", VRef (n + 1)%nat);
                                ("acceleration", VRef (n + 2)%nat);
                                ("direction", VRef (n + 3)%nat);
                                ("maxspeed", VNum 0)];
                  CObject None [("mass", VNum 1); ("velocity", VRef n);
                                ("pvelocity", VRef (n + 1)%nat);
                                ("acceleration", VRef (n + 2)%nat);
                                ("direction", VRef (n + 3)%nat);
                                ("maxspeed", VNum 0)];
                  CObject None [("mass", VNum 1)];
                  CObject None [("velocity", VRef n)];
                  CObject None [("pvelocity", VRef (n + 1)%nat)];
                  CObject None [("acceleration", VRef (n + 2)%nat)];
                  CObject None [("direction", VRef (n + 3)%nat)];
                  CObject None [("maxspeed", VNum 0)]])
  /\ render options h
     = Ret (VRef <$> [n + 2; n + 3; n + 4]%nat,
            h ++ [CObject None [("shape", VStr "box");
                                ("bgcolor", VStr "#39c495");
                                ("linecolor", VStr "#0b845b")];
                  CObject None [("shape", VStr "box");
                                ("bgcolor", VStr "#39c495");
                                ("linecolor", VStr "#0b845b")];
                  CObject None [("shape", VStr "box")];
                  CObject None [("bgcolor", VStr "#39c495")];
                  CObject None [("linecolor", VStr "#0b845b")]]).
Proof.
  intros Hobj Hstr n origin.
  assert (Hnd3 : forall a b c : value,
             NoDup (keys [("position", a); ("scale", b); ("rotation", c)])).
  { intros. apply (bool_decide_unpack _). reflexivity. }
  assert (Hnd6 : forall a b c d e f : value,
             NoDup (keys [("mass", a); ("velocity", b); ("pvelocity", c);
                          ("acceleration", d); ("direction", e);
                          ("maxspeed", f)])).
  { intros. apply (bool_decide_unpack _). reflexivity. }
  assert (Hnd3' : forall a b c : value,
             NoDup (keys [("shape", a); ("bgcolor", b); ("linecolor", c)])).
  { intros. apply (bool_decide_unpack _). reflexivity. }
  assert (Hplain : forall ps : props,
             NoDup (keys ps) ->
             bool_decide (Forall (fun k => array_index k = None) (keys ps))
             = true ->
             enumerated ps = ps).
  { intros ps Hnd Hps. apply enumerated_plain; [exact Hnd|].
    now apply bool_decide_eq_true in Hps. }
  split; [|split].
  - unfold transform, bind, alloc.
    erewrite (compute_defaults _ options _ None _ Hobj Hstr
                (lookup_alloc _ [] _) (Hnd3 _ _ _)).
    rewrite (Hplain _ (Hnd3 _ _ _)) by (vm_compute; reflexivity).
    rewrite !length_app. simpl. rewrite <- !app_assoc. simpl. subst n.
    repeat (f_equal; try lia).
  - unfold physics, bind, alloc.
    erewrite (compute_defaults _ options _ None _ Hobj Hstr
                (lookup_alloc _ [] _) (Hnd6 _ _ _ _ _ _)).
    rewrite (Hplain _ (Hnd6 _ _ _ _ _ _)) by (vm_compute; reflexivity).
    rewrite !length_app. simpl. rewrite <- !app_assoc. simpl. subst n.
    repeat (f_equal; try lia).
  - unfold render, bind, alloc.
    erewrite (compute_defaults _ options _ None _ Hobj Hstr
                (lookup_alloc _ [] _) (Hnd3' _ _ _)).
    rewrite (Hplain _ (Hnd3' _ _ _)) by (vm_compute; reflexivity).
    rewrite !length_app. simpl. rewrite <- !app_assoc. simpl. subst n.
    repeat (f_equal; try lia).
Qed.

Lemma factories_without_options_witness :
  transform VUndefined []
  = Ret ([VRef 5%nat; VRef 6%nat; VRef 7%nat],
         [CObject None [("x", VNum 0); ("y", VNum 0)];
          CObject None [("x", VNum 1); ("y", VNum 1)];
          CObject None [("x", VNum 0); ("y", VNum 0)];
          CObject None [("position", VRef 0%nat); ("scale", VRef 1%nat);
                        ("rotation", VRef 2%nat)];
          CObject None [("position", VRef 0%nat); ("scale", VRef 1%nat);
                        ("rotation", VRef 2%nat)];
          CObject None [("position", VRef 0%nat)];
          CObject None [("scale", VRef 1%nat)];
          CObject None [("rotation", VRef 2%nat)]]).
Proof.
  apply (factories_without_options [] VUndefined); discriminate.
Defined.

(** ** An entity of the demo *)


Lemma single_key_app h extra k fragment :
  single_key h k fragment -> single_key (h ++ extra) k fragment.
Proof.
  intros (l & v & -> & Hl). exists l, v. split; [reflexivity|].
  now apply lookup_app_l_Some.
Qed.

(** Fragments with one key each, as the pairs that [assign] is stated
    on. *)
Lemma single_key_pairs (h0 h : heap) ks fragments :
  Forall2 (fun k fragment =>
             single_key h k fragment /\ ~ allocated h0 fragment)
    ks fragments ->
  "hasOwnProperty" ∉ ks ->
  exists pairs : list (loc * props),
    fragments = (fun fr => VRef fr.1) <$> pairs
    /\ Forall (fun fr => (length h0 <= fr.1)%nat
                         /\ h !! fr.1 = Some (CObject None fr.2)
                         /\ NoDup (keys fr.2)
                         /\ "hasOwnProperty" ∉ keys fr.2) pairs
    /\ (forall k, k ∈ ks -> exists fr, fr ∈ pairs /\ k ∈ keys fr.2).
Proof.
  induction 1 as [|k fr ks frs [(l & v & -> & Hl) Hnew] _ IH]; intros Hhas.
  - exists []. split; [reflexivity|]. split; [constructor|].
    intros k Hk. now apply elem_of_nil in Hk.
  - apply not_elem_of_cons in Hhas as [Hk Hhas].
    destruct (IH Hhas) as (pairs & -> & Hall & Hkeys).
    exists ((l, [(k, v)]) :: pairs). split; [reflexivity|].
    split.
    + constructor; [|exact Hall]. simpl in *.
      split; [lia|]. split; [exact Hl|].
      split; [apply NoDup_singleton|].
      intros [Heq|Hin]%elem_of_cons; [contradiction|].
      now apply elem_of_nil in Hin.
    + intros k' [Heq|Hk']%elem_of_cons.
      * exists (l, [(k, v)]). split; [left|]. rewrite Heq. simpl. left.
      * destruct (Hkeys k' Hk') as (fr & Hin & Hfr).
        exists fr. split; [now right|exact Hfr].
Qed.

(** Options that name no member of [Object.prototype], in a heap that
    keeps their cell. *)
Lemma plain_options_frame h h' o :
  simple_value h o ->
  Forall (fun k => k ∉ Object_prototype) (for_in_keys h o) ->
  (forall l, o = VRef l -> h' !! l = h !! l) ->
  simple_value h' o
  /\ ("__proto__" ∉ for_in_keys h' o)
  /\ filter (fun k => k ∈ Object_prototype) (for_in_keys h' o) = [].
Proof.
  intros Ho Hks Hsame.
  rewrite (for_in_keys_simple h h' o Ho Hsame).
  split; [now apply (simple_value_frame h)|]. split.
  - intros Hin. rewrite Forall_forall in Hks. apply (Hks _ Hin).
    apply (bool_decide_unpack _). reflexivity.
  - clear Ho Hsame. induction Hks as [|k ks Hk _ IH]; [reflexivity|].
    now rewrite filter_cons, decide_False.
Qed.

(** X21. An entity made as the demo makes its entities,
    [createEntity().assign(...transform(o1), ...physics(o2),
    ...render(o3))], for options that are primitives or plain objects
    with no key that names a member of [Object.prototype], in a heap
    where no object owns a field named [__proto__]: the call returns
    the new entity, and from then on every query over the fields of the
    components and of the constructor ([queries.movable] and
    [queries.renderable] are such queries) selects it, after the entities
    of the registry that the query selected before. *)
Theorem demo_entity_is_selected h this a es priority o1 o2 o3 q names :
  own_field h this "entities" = Some (VRef a) ->
  h !! a = Some (CArray es) ->
  Forall (is_object h) es ->
  h !! q = Some (CArray (VStr <$> names)) ->
  q <> a ->
  Forall (fun name =>
            name ∈ "entityManager" :: "priority" :: component_fields)
    names ->
  no_own_proto h ->
  Forall (fun o => simple_value h o
                   /\ Forall (fun k => k ∉ Object_prototype)
                        (for_in_keys h o))
    [o1; o2; o3] ->
  exists entity h',
    (let! entity := EntityManager_createEntity this priority in
     let! t := transform o1 in
     let! p := physics o2 in
     let! r := render o3 in
     Entity_assign entity (t ++ p ++ r)) h = Ret (entity, h')
    /\ ~ allocated h entity
    /\ EntityManager_getEntities this (VRef q) h'
       = Ret (filter (fun e => Forall (owns h e) names) es ++ [entity], h').
Proof.
  intros Hents Ha Hobj Hq Hqa Hnames Hh Hopts.
  assert (Hla : (a < length h)%nat) by (eapply lookup_lt_Some; eauto).
  assert (Hlq : (q < length h)%nat) by (eapply lookup_lt_Some; eauto).
  set (e := length h).
  set (eps := [("entityManager", this);
               ("priority", if ToBoolean priority then priority else VNum 0)]).
  set (h1 := <[a := CArray (es ++ [VRef e])]> h ++ [CObject None eps]).
  assert (Hlen1 : length h1 = S e).
  { subst h1. rewrite length_app, length_insert. simpl. lia. }
  assert (He1 : h1 !! e = Some (CObject None eps)).
  { subst h1. rewrite lookup_app_r by now rewrite length_insert.
    rewrite length_insert. subst e. now rewrite Nat.sub_diag. }
  assert (Hold1 : forall l, (l < length h)%nat -> l <> a -> h1 !! l = h !! l).
  { intros l Hl Hne. subst h1.
    rewrite lookup_app_l by now rewrite length_insert.
    now apply list_lookup_insert_ne. }
  assert (Ha1 : h1 !! a = Some (CArray (es ++ [VRef e]))).
  { subst h1. rewrite lookup_app_l by now rewrite length_insert.
    now apply list_lookup_insert_eq. }
  assert (Hh1 : no_own_proto h1).
  { subst h1. apply no_own_proto_alloc; [now apply no_own_proto_array|].
    apply (bool_decide_unpack _). reflexivity. }
  assert (Hframe : forall (o : value) extra,
             simple_value h o ->
             forall l, o = VRef l -> (h1 ++ extra) !! l = h !! l).
  { intros o extra Ho l ->. destruct Ho as (ops & Hl & _).
    assert (Hlt : (l < length h)%nat) by (eapply lookup_lt_Some; eauto).
    rewrite lookup_app_l by lia. apply Hold1; [exact Hlt|].
    intros ->. congruence. }
  apply Forall_cons in Hopts as [[Hs1 Hk1] Hopts].
  apply Forall_cons in Hopts as [[Hs2 Hk2] Hopts].
  apply Forall_cons in Hopts as [[Hs3 Hk3] _].
  destruct (plain_options_frame h (h1 ++ []) o1 Hs1 Hk1 (Hframe o1 [] Hs1))
    as (Hs1' & Hp1 & Hn1).
  rewrite app_nil_r in Hs1', Hp1, Hn1.
  destruct (transform_fragments h1 o1 Hs1' Hp1)
    as (t & x1 & Ht & _ & Hts & Hh2).
  rewrite Hn1, app_nil_r in Hts.
  destruct (plain_options_frame h (h1 ++ x1) o2 Hs2 Hk2 (Hframe o2 x1 Hs2))
    as (Hs2' & Hp2 & Hn2).
  destruct (physics_fragments (h1 ++ x1) o2 Hs2' Hp2)
    as (p & x2 & Hp & _ & Hps & Hh3).
  rewrite Hn2, app_nil_r in Hps.
  destruct (plain_options_frame h ((h1 ++ x1) ++ x2) o3 Hs3 Hk3)
    as (Hs3' & Hp3 & Hn3).
  { rewrite <- app_assoc. exact (Hframe o3 (x1 ++ x2) Hs3). }
  destruct (render_fragments ((h1 ++ x1) ++ x2) o3 Hs3' Hp3)
    as (r & x3 & Hr & _ & Hrs & Hh4).
  rewrite Hn3, app_nil_r in Hrs.
  set (h4 := ((h1 ++ x1) ++ x2) ++ x3) in *.
  assert (Hall : Forall2 (fun k fragment =>
                            single_key h4 k fragment
                            /\ ~ allocated h1 fragment)
                   component_fields (t ++ p ++ r)).
  { change component_fields
      with (["position"; "scale"; "rotation"]
            ++ ["mass"; "velocity"; "pvelocity"; "acceleration";
                "direction"; "maxspeed"]
            ++ ["shape"; "bgcolor"; "linecolor"]).
    repeat apply Forall2_app.
    - eapply Forall2_impl; [exact Hts|]. intros k fr [Hs Hnew].
      split; [|exact Hnew]. subst h4. now do 2 apply single_key_app.
    - eapply Forall2_impl; [exact Hps|]. intros k fr [Hs Hnew].
      split; [subst h4; now apply single_key_app|].
      intros Hold. apply Hnew. destruct fr; try exact I.
      simpl in *. rewrite length_app. lia.
    - eapply Forall2_impl; [exact Hrs|]. intros k fr [Hs Hnew].
      split; [exact Hs|].
      intros Hold. apply Hnew. destruct fr; try exact I.
      simpl in *. rewrite !length_app. lia. }
  destruct (single_key_pairs h1 h4 _ _ Hall)
    as (pairs & Hfrs & Hpairs & Hkeys).
  { apply (bool_decide_unpack _). reflexivity. }
  assert (He4 : h4 !! e = Some (CObject None eps)).
  { subst h4. now do 3 apply lookup_app_l_Some. }
  destruct (assign_plain_fragments h4 e eps pairs He4)
    as (h' & eps' & Hrun & He' & Hold' & Howned).
  { auto. }
  { apply (bool_decide_unpack _). reflexivity. }
  { eapply Forall_impl; [exact Hpairs|].
    intros [f fps] (Hf & Hlf & Hnd & Hhas). simpl in *.
    repeat split; try assumption. lia. }
  assert (Hlen4 : (length h1 <= length h4)%nat).
  { subst h4. rewrite !length_app. lia. }
  assert (Hold : forall l, (l < length h)%nat -> h' !! l = h1 !! l).
  { intros l Hl. rewrite Hold' by (subst e; lia).
    subst h4. rewrite <- !app_assoc. apply lookup_app_l. lia. }
  assert (Hown : forall x k, is_object h x ->
                   own_field h' x k = own_field h x k).
  { intros x k Hx. unfold own_field, is_object in *.
    destruct x as [| | | | |l]; try reflexivity.
    destruct (h !! l) as [[pr lps|]|] eqn:El; try contradiction.
    assert (Hl : (l < length h)%nat) by (eapply lookup_lt_Some; eauto).
    rewrite (Hold l Hl), Hold1, El; [reflexivity|assumption|].
    intros ->. congruence. }
  assert (Hthis : is_object h this).
  { unfold own_field, is_object in *.
    destruct this as [| | | | |m]; try discriminate.
    now destruct (h !! m) as [[]|]. }
  exists (VRef e), h'. split; [|split].
  - rewrite (bind_Ret _ _ _ _ _ (createEntity_eq h this a es priority
                                   Hents Ha)).
    fold e eps h1.
    rewrite (bind_Ret _ _ _ _ _ Ht), (bind_Ret _ _ _ _ _ Hp),
      (bind_Ret _ _ _ _ _ Hr).
    fold h4. rewrite Hfrs. exact Hrun.
  - simpl. subst e. lia.
  - rewrite (getEntities_eq h' this a (es ++ [VRef e]) q names).
    + f_equal. f_equal. rewrite filter_app. f_equal.
      * apply filter_agree. apply Forall_forall. intros x Hx.
        rewrite Forall_forall in Hobj. unfold owns.
        rewrite !Forall_forall.
        split; intros H name Hname.
        -- rewrite <- (Hown x name (Hobj x Hx)). now apply H.
        -- rewrite (Hown x name (Hobj x Hx)). now apply H.
      * rewrite filter_cons, decide_True; [reflexivity|].
        eapply Forall_impl; [exact Hnames|]. intros name Hname.
        unfold owns, own_field. rewrite He'. apply Howned.
        apply elem_of_cons in Hname as [->|Hname]; [left; now eexists|].
        apply elem_of_cons in Hname as [->|Hname]; [left; now eexists|].
        right. now apply Hkeys.
    + apply own_field_Get. now rewrite (Hown this "entities" Hthis).
    + now rewrite Hold, Ha1.
    + now rewrite Hold, Hold1.
    + apply Forall_app. split.
      * eapply Forall_impl; [exact Hobj|]. intros x Hx.
        unfold is_object in *. destruct x as [| | | | |l]; try contradiction.
        destruct (h !! l) as [[pr lps|]|] eqn:El; try contradiction.
        assert (Hl : (l < length h)%nat) by (eapply lookup_lt_Some; eauto).
        rewrite (Hold l Hl), Hold1, El; [exact I|assumption|].
        intros ->. congruence.
      * constructor; [|constructor]. unfold is_object. now rewrite He'.
Qed.

Lemma demo_entity_is_selected_witness :
  exists entity h',
    (let! entity := EntityManager_createEntity (VRef 0%nat) VUndefined in
     let! t := transform VUndefined in
     let! p := physics VUndefined in
     let! r := render VUndefined in
     Entity_assign entity (t ++ p ++ r)) demo_heap = Ret (entity, h')
    /\ EntityManager_getEntities (VRef 0%nat) (VRef 4%nat) h'
       = Ret ([entity], h').
Proof.
  destruct (demo_entity_is_selected demo_heap (VRef 0%nat) 1%nat
              [VRef 3%nat] VUndefined VUndefined VUndefined VUndefined
              4%nat ["position"; "velocity"] eq_refl eq_refl)
    as (entity & h' & Hrun & _ & Hsel).
  - repeat constructor.
  - reflexivity.
  - discriminate.
  - repeat constructor; apply (bool_decide_unpack _); reflexivity.
  - repeat constructor; apply (bool_decide_unpack _); reflexivity.
  - repeat constructor.
  - exists entity, h'. split; [exact Hrun|]. rewrite Hsel.
    f_equal.
Defined.

(** ** [pause] and the systems *)

(** X22. [pause()] empties the registry of entities and stops nothing: in a
    world whose systems own a number under [priority], the tick after
    [pause()] makes the same invocations, in the same order, as a tick
    in its place would have made, one per registered system. The
    [update] methods are any that return and leave the registry of
    systems as it is, in the states of an invariant [Inv] that they keep
    and that holds once the registry is sorted, after [pause()] and
    without it. *)
Theorem pause_does_not_stop_systems
    (Inv : heap -> Prop)
    update_method fuel h this a b es ss ns delta time :
  own_field h this "entities" = Some (VRef a) ->
  h !! a = Some (CArray es) ->
  own_field h this "systems" = Some (VRef b) ->
  h !! b = Some (CArray ss) ->
  a <> b ->
  Forall2 (fun n system => own_field h system "priority" = Some (VNum n))
    ns ss ->
  (length ss <= fuel)%nat ->
  (forall hs, sort_by_priority (VRef b) h = Ret (tt, hs) -> Inv hs) ->
  (forall h1 hs,
      EntityManager_pause this h = Ret (tt, h1) ->
      sort_by_priority (VRef b) h1 = Ret (tt, hs) -> Inv hs) ->
  (forall system h0,
      system ∈ ss -> Inv h0 ->
      exists h1, update_method system delta time h0 = Ret (tt, h1)
                 /\ Inv h1 /\ h1 !! b = h0 !! b) ->
  exists h1 calls h2 h2',
    EntityManager_pause this h = Ret (tt, h1)
    /\ EntityManager_update update_method fuel this delta time h1
       = Ret (calls, h2)
    /\ EntityManager_update update_method fuel this delta time h
       = Ret (calls, h2')
    /\ length calls = length ss.
Proof.
  intros Hents Ha Hsys Hb Hab Hown Hfuel Hinv Hinvp Hframe.
  set (h1 := <[a := CArray []]> h).
  assert (Hns : Forall2 (has_priority h) ns ss).
  { eapply Forall2_impl; [exact Hown|]. intros n s. apply own_priority. }
  assert (Hns1 : Forall2 (has_priority h1) ns ss).
  { apply (has_priority_write_array h a es [] ns ss Ha Hns).
    clear -Hown. induction Hown as [|n s ns ss Hn _ IH]; constructor; eauto. }
  assert (Hsys1 : own_field h1 this "systems" = Some (VRef b)).
  { subst h1. now rewrite (own_field_write_array h a es). }
  assert (Hb1 : h1 !! b = Some (CArray ss)).
  { subst h1. now rewrite list_lookup_insert_ne. }
  assert (Hpause : EntityManager_pause this h = Ret (tt, h1)).
  { unfold EntityManager_pause.
    rewrite (bind_Ret _ _ _ _ _ (get_Ret _ _ _ _ (own_field_Get _ _ _ _ Hents))).
    unfold set_length_0. rewrite Ha.
    exact (write_array_Ret _ _ _ _ Ha). }
  destruct (update_run Inv update_method fuel h1 this b ss ns delta time
              Hsys1 Hb1 Hns1 Hfuel) as (h2 & Htick1 & _).
  { apply (Hinvp h1 _ Hpause).
    exact (sort_by_priority_Ret _ _ _ _ Hb1 (Forall2_priorities _ _ _ Hns1)). }
  { exact Hframe. }
  destruct (update_run Inv update_method fuel h this b ss ns delta time
              Hsys Hb Hns Hfuel) as (h2' & Htick & _).
  { apply Hinv.
    exact (sort_by_priority_Ret _ _ _ _ Hb (Forall2_priorities _ _ _ Hns)). }
  { exact Hframe. }
  eexists h1, _, h2, h2'.
  split; [exact Hpause|].
  split; [exact Htick1|]. split; [exact Htick|].
  rewrite !length_fmap.
  rewrite (Permutation_length (sort_by_perm _)).
  rewrite length_zip_with. apply Forall2_length in Hown. lia.
Qed.

Lemma pause_does_not_stop_systems_witness :
  exists h1 calls h2 h2',
    EntityManager_pause (VRef 0%nat) counting_systems_heap = Ret (tt, h1)
    /\ EntityManager_update counting_update 2 (VRef 0%nat) (VNum 16)
         (VNum 32) h1 = Ret (calls, h2)
    /\ EntityManager_update counting_update 2 (VRef 0%nat) (VNum 16)
         (VNum 32) counting_systems_heap = Ret (calls, h2')
    /\ length calls = 2%nat
    /\ own_field h2 (VRef 3%nat) "selected" = Some (VNum 0)
    /\ own_field h2' (VRef 3%nat) "selected" = Some (VNum 1).
Proof.
  destruct (pause_does_not_stop_systems
              (fun h0 =>
                 In h0 (counting_states counting_systems_heap
                          [VRef 3%nat; VRef 5%nat]
                        ++ counting_states
                             (<[1%nat := CArray []]> counting_systems_heap)
                             [VRef 3%nat; VRef 5%nat]))
              counting_update 2 counting_systems_heap
              (VRef 0%nat) 1%nat 2%nat [VRef 7%nat]
              [VRef 3%nat; VRef 5%nat] [0; 0]
              (VNum 16) (VNum 32) eq_refl eq_refl eq_refl eq_refl)
    as (h1 & calls & h2 & h2' & Hpause & Htick1 & Htick & Hlen).
  - discriminate.
  - repeat constructor.
  - simpl. lia.
  - intros hs [= <-]. left. reflexivity.
  - intros h1 hs [= <-] [= <-]. cbv.
    repeat (first [left; reflexivity | right]).
  - counting_update_returns.
  - exists h1, calls, h2, h2'.
    split; [exact Hpause|]. split; [exact Htick1|].
    split; [exact Htick|]. split; [exact Hlen|].
    vm_compute in Hpause. injection Hpause as <-.
    vm_compute in Htick1. injection Htick1 as <- <-.
    vm_compute in Htick. injection Htick as <-.
    split; reflexivity.
Defined.
